(** * ITD-SDK-js: session continuity, credential files and the mirror pool

    A shallow embedding of the authentication module ([AuthManager]), the
    token-storage utilities ([saveAccessToken], [saveCookieHeader]), the mirror
    pool ([createMirrorPool]) and resource methods of the users,
    notifications, files, search, hashtags and comments managers of the SDK,
    with the properties of the specification stated and proved over it.

    Conventions of the embedding:
    - a JavaScript string is the list of its UTF-16 code units; a file
      written with the ['utf8'] option holds the UTF-8 encoding of a string
      and reads back with every unpaired surrogate replaced by U+FFFD;
    - a JavaScript value that comes out of [JSON.parse] is a [jsval]; an
      object is the list of its own properties in the order of [Object.keys];
      numbers are the integer ones (the code only tests them against zero);
    - a call that may throw returns a [completion]; an [async] function is
      modelled by the completion of the promise it returns;
    - the answer of the HTTP layer to a request is an input of the model
      ([http_outcome]): either a response or a rejection;
    - [console] output is not part of the model. *)

From Stdlib Require Import List NArith ZArith Bool String Ascii Lia DecimalString.
Import ListNotations.

Set Implicit Arguments.
Set Warnings "-register-all".
Open Scope list_scope.

(* ================================================================= *)
(** ** JavaScript strings and values *)

Module JS.

(** UTF-16 code units. *)
Definition jsstring := list N.

(** An ASCII literal of the source as a JavaScript string. *)
Definition str (s : string) : jsstring :=
  map N_of_ascii (list_ascii_of_string s).

Fixpoint jsstring_eqb (a b : jsstring) : bool :=
  match a, b with
  | [], [] => true
  | x :: a', y :: b' => N.eqb x y && jsstring_eqb a' b'
  | _, _ => false
  end.

(** [s.startsWith(p)] *)
Fixpoint startsWith (p s : jsstring) : bool :=
  match p, s with
  | [], _ => true
  | x :: p', y :: s' => N.eqb x y && startsWith p' s'
  | _ :: _, [] => false
  end.

(** ECMAScript LineTerminator code points: LF, CR, LS, PS. *)
Definition isLineTerminator (c : N) : bool :=
  N.eqb c 10 || N.eqb c 13 || N.eqb c 8232 || N.eqb c 8233.
Arguments isLineTerminator : simpl never.

(** ECMAScript WhiteSpace code points (TAB, VT, FF, SP, NBSP, ZWNBSP and the
    Unicode space separators). *)
Definition isWhiteSpace (c : N) : bool :=
  N.eqb c 9 || N.eqb c 11 || N.eqb c 12 || N.eqb c 32 || N.eqb c 160
  || N.eqb c 5760 || (N.leb 8192 c && N.leb c 8202)
  || N.eqb c 8239 || N.eqb c 8287 || N.eqb c 12288 || N.eqb c 65279.

Definition isTrimmable (c : N) : bool := isWhiteSpace c || isLineTerminator c.

Fixpoint trimStart (s : jsstring) : jsstring :=
  match s with
  | c :: s' => if isTrimmable c then trimStart s' else s
  | [] => []
  end.

(** [s.trim()] *)
Definition trim (s : jsstring) : jsstring :=
  rev (trimStart (rev (trimStart s))).

(** [parts.join(sep)] *)
Fixpoint join (sep : jsstring) (parts : list jsstring) : jsstring :=
  match parts with
  | [] => []
  | [p] => p
  | p :: rest => p ++ sep ++ join sep rest
  end.

(** The surrogate code units: a high one (U+D800..U+DBFF) and the low one
    (U+DC00..U+DFFF) that follows it stand for one code point. *)
Definition isHighSurrogate (c : N) : bool := N.leb 55296 c && N.leb c 56319.
Definition isLowSurrogate (c : N) : bool := N.leb 56320 c && N.leb c 57343.

Definition notSurrogate (c : N) : bool :=
  negb (isHighSurrogate c) && negb (isLowSurrogate c).

(** [s.toWellFormed()]: every surrogate that is not part of a pair is
    replaced by U+FFFD. This is also what comes back when a string is
    encoded as UTF-8 and decoded again. *)
Fixpoint toWellFormed (s : jsstring) : jsstring :=
  match s with
  | [] => []
  | c :: s' =>
      if isHighSurrogate c then
        match s' with
        | d :: s'' =>
            if isLowSurrogate d then c :: d :: toWellFormed s''
            else 65533%N :: toWellFormed s'
        | [] => [65533%N]
        end
      else if isLowSurrogate c then 65533%N :: toWellFormed s'
      else c :: toWellFormed s'
  end.

(** [s.isWellFormed()] *)
Fixpoint isWellFormed (s : jsstring) : bool :=
  match s with
  | [] => true
  | c :: s' =>
      if isHighSurrogate c then
        match s' with
        | d :: s'' => isLowSurrogate d && isWellFormed s''
        | [] => false
        end
      else negb (isLowSurrogate c) && isWellFormed s'
  end.

Inductive jsval : Type :=
| JUndefined
| JNull
| JBool (b : bool)
| JNum (z : Z)
| JStr (s : jsstring)
| JArr (items : list jsval)
| JObj (fields : list (jsstring * jsval)).

(** ToBoolean *)
Definition truthy (v : jsval) : bool :=
  match v with
  | JUndefined | JNull => false
  | JBool b => b
  | JNum z => negb (Z.eqb z 0)
  | JStr s => match s with [] => false | _ => true end
  | JArr _ | JObj _ => true
  end.

Definition isNullish (v : jsval) : bool :=
  match v with JUndefined | JNull => true | _ => false end.

(** [a || b] and [a ?? b] *)
Definition js_or (a b : jsval) : jsval := if truthy a then a else b.
Definition js_nullish (a b : jsval) : jsval := if isNullish a then b else a.

(** Own property lookup in the key/value list of an object. *)
Fixpoint lookup (k : jsstring) (fields : list (jsstring * jsval)) : jsval :=
  match fields with
  | [] => JUndefined
  | (k', v) :: rest => if jsstring_eqb k k' then v else lookup k rest
  end.


(** Errors that the modelled code can raise or receive. *)
Inductive js_error : Type :=
| TypeError (message : string)
| ReferenceError (identifier : string)
| Error (message : string)
| SystemError (code : string)
| AxiosError (message : string) (response_status : option Z).

Inductive completion (A : Type) : Type :=
| Normal (a : A)
| Throw (e : js_error).
Arguments Normal {A} a.
Arguments Throw {A} e.

Definition bind {A B} (c : completion A) (k : A -> completion B) : completion B :=
  match c with
  | Normal a => k a
  | Throw e => Throw e
  end.

(** [try { body } catch (e) { handler }] *)
Definition try_catch {A} (body : completion A) (handler : js_error -> completion A)
  : completion A :=
  match body with
  | Normal a => Normal a
  | Throw e => handler e
  end.

(** [v.k] for the property names the source reads ([data], [users],
    [accessToken], ...): a property read on [null] or [undefined] throws, an
    object yields its own property, and the other values have no property of
    these names. *)
Definition member (v : jsval) (k : string) : completion jsval :=
  match v with
  | JUndefined | JNull => Throw (TypeError "Cannot read properties of null or undefined")
  | JObj fields => Normal (lookup (str k) fields)
  | _ => Normal JUndefined
  end.

(** [v?.k] *)
Definition opt_member (v : jsval) (k : string) : jsval :=
  match v with
  | JObj fields => lookup (str k) fields
  | _ => JUndefined
  end.

Definition decimal (z : Z) : jsstring :=
  str (NilZero.string_of_int (Z.to_int z)).

(** ToString, as applied by a template literal. A number is printed as its
    decimal numeral, which is what JavaScript prints for the integers below
    10^21 in magnitude. *)
Fixpoint ToString (v : jsval) : jsstring :=
  match v with
  | JUndefined => str "undefined"
  | JNull => str "null"
  | JBool true => str "true"
  | JBool false => str "false"
  | JNum z => decimal z
  | JStr s => s
  | JArr items =>
      join (str ",")
        (map (fun x => if isNullish x then [] else ToString x) items)
  | JObj _ => str "[object Object]"
  end.

(** [a === b] where one side is a primitive; two distinct objects are never
    strictly equal. *)
Definition strict_eq (a b : jsval) : bool :=
  match a, b with
  | JUndefined, JUndefined => true
  | JNull, JNull => true
  | JBool x, JBool y => Bool.eqb x y
  | JNum x, JNum y => Z.eqb x y
  | JStr x, JStr y => jsstring_eqb x y
  | _, _ => false
  end.

End JS.
Import JS.

Notation "x <- c ;; k" := (bind c (fun x => k))
  (at level 61, c at next level, right associativity).

(* ================================================================= *)
(** ** Token storage (token-storage.js): the [.env] and [.cookies] files *)

Module TokenStorage.

(** What a path of the file system holds. The content of a file is given as
    a text whose UTF-8 encoding the file holds: the text last written to it
    with the ['utf8'] option, or any text that encodes to its bytes. *)
Inductive node : Type :=
| Regular (content : jsstring)    (* readable and writable *)
| ReadOnly (content : jsstring)   (* readable; writing throws *)
| Unreadable.                     (* present; reading and writing throw *)

(** The two credential files next to the package: [path.join(__dirname, '..',
    '.env')] and [path.join(__dirname, '..', '.cookies')]; [None] is a path
    that does not exist, and [canCreate] tells whether a file that does not
    exist can be created in that directory. *)
Record FS : Type := {
  env_file : option node;
  cookies_file : option node;
  canCreate : bool
}.

Definition existsSync (n : option node) : bool :=
  match n with Some _ => true | None => false end.

(** [fs.readFileSync(path, 'utf8')]: the bytes decoded. A surrogate that was
    written without its partner was encoded as U+FFFD and is read back as
    such. *)
Definition readFileSync (n : option node) : completion jsstring :=
  match n with
  | Some (Regular c) | Some (ReadOnly c) => Normal (toWellFormed c)
  | Some Unreadable => Throw (SystemError "EACCES")
  | None => Throw (SystemError "ENOENT")
  end.

(** [fs.writeFileSync(path, data, 'utf8')] on a path in a directory where
    new files can be created or not: the file is created or overwritten. *)
Definition writeFileSync (creatable : bool) (n : option node) (data : jsstring)
  : completion (option node) :=
  match n with
  | Some (Regular _) => Normal (Some (Regular data))
  | None =>
      if creatable then Normal (Some (Regular data))
      else Throw (SystemError "EACCES")
  | Some (ReadOnly _) | Some Unreadable => Throw (SystemError "EACCES")
  end.

(** The key prefix of the token line. *)
Definition KEY : jsstring := str "ITD_ACCESS_TOKEN=".

(** [.*] : the longest run of characters that are not line terminators, and
    what follows it. *)
Fixpoint dotStar (s : jsstring) : jsstring * jsstring :=
  match s with
  | c :: s' =>
      if isLineTerminator c then ([], s)
      else let (m, r) := dotStar s' in (c :: m, r)
  | [] => ([], [])
  end.

(** [$] under the [m] flag: the end of the input or a line terminator next. *)
Definition endOfLine (rest : jsstring) : bool :=
  match rest with
  | [] => true
  | c :: _ => isLineTerminator c
  end.

(** [ITD_ACCESS_TOKEN=.*$] tried at the head of [s]: the matched text and the
    rest of the input. A shorter [.*] would be followed by a character that is
    not a line terminator, so backtracking cannot rescue a failed [$]. *)
Definition matchHere (s : jsstring) : option (jsstring * jsstring) :=
  if startsWith KEY s then
    let (v, rest) := dotStar (skipn (List.length KEY) s) in
    if endOfLine rest then Some (KEY ++ v, rest) else None
  else None.

(** [/^ITD_ACCESS_TOKEN=.*$/m] searched from the head of [s]; [bol] tells
    whether [^] holds there (start of input or a line terminator before).
    The result is the text before the first match, the match, and the text
    after it. *)
Fixpoint tokenRegex_exec (bol : bool) (s : jsstring)
  : option (jsstring * jsstring * jsstring) :=
  match (if bol then matchHere s else None) with
  | Some (m, rest) => Some ([], m, rest)
  | None =>
      match s with
      | [] => None
      | c :: s' =>
          match tokenRegex_exec (isLineTerminator c) s' with
          | Some (before, m, rest) => Some (c :: before, m, rest)
          | None => None
          end
      end
  end.

(** [tokenRegex.test(content)] *)
Definition tokenRegex_test (content : jsstring) : bool :=
  match tokenRegex_exec true content with Some _ => true | None => false end.

(** GetSubstitution for a pattern without capture groups: [$$], [$&], [$`]
    and [$'] are expanded, every other character stands for itself. *)
Fixpoint GetSubstitution (matched before after replacement : jsstring) : jsstring :=
  match replacement with
  | [] => []
  | c :: r =>
      if N.eqb c 36 then
        match r with
        | d :: r' =>
            if N.eqb d 36 then 36%N :: GetSubstitution matched before after r'
            else if N.eqb d 38 then matched ++ GetSubstitution matched before after r'
            else if N.eqb d 96 then before ++ GetSubstitution matched before after r'
            else if N.eqb d 39 then after ++ GetSubstitution matched before after r'
            else c :: GetSubstitution matched before after r
        | [] => [c]
        end
      else c :: GetSubstitution matched before after r
  end.

(** [content.replace(tokenRegex, replacement)]: the pattern has no [g] flag,
    so only the first match is replaced. *)
Definition replace_tokenRegex (content replacement : jsstring) : jsstring :=
  match tokenRegex_exec true content with
  | Some (before, m, after) =>
      before ++ GetSubstitution m before after replacement ++ after
  | None => content
  end.

(** The newline character of the template literal. *)
Definition LF : jsstring := [10%N].

(** The new text of the [.env] file: the key line replaced, or
    [content += `\nITD_ACCESS_TOKEN=${newToken}\n`]. *)
Definition updateEnvContent (newToken : jsval) (content : jsstring) : jsstring :=
  if tokenRegex_test content then
    replace_tokenRegex content (KEY ++ ToString newToken)
  else
    content ++ LF ++ KEY ++ ToString newToken ++ LF.

(** [saveAccessToken(newToken)]: the result and the file system afterwards. *)
Definition saveAccessToken (newToken : jsval) (fs : FS) : bool * FS :=
  let attempt : completion (bool * FS) :=
    if negb (existsSync (env_file fs)) then Normal (false, fs)
    else
      content <- readFileSync (env_file fs) ;;
      node' <- writeFileSync (canCreate fs) (env_file fs)
                 (updateEnvContent newToken content) ;;
      Normal (true, {| env_file := node'; cookies_file := cookies_file fs;
                       canCreate := canCreate fs |})
  in
  match attempt with
  | Normal r => r
  | Throw _ => (false, fs)
  end.

(** [saveCookieHeader(newCookieHeader)] *)
Definition saveCookieHeader (newCookieHeader : jsstring) (fs : FS) : bool * FS :=
  let attempt : completion (bool * FS) :=
    node' <- writeFileSync (canCreate fs) (cookies_file fs) newCookieHeader ;;
    Normal (true, {| env_file := env_file fs; cookies_file := node';
                     canCreate := canCreate fs |})
  in
  match attempt with
  | Normal r => r
  | Throw _ => (false, fs)
  end.

(** The number of lines that start with the key, for a text whose head is at
    a line start iff [bol]. *)
Fixpoint keyLines (bol : bool) (s : jsstring) : nat :=
  (if bol && startsWith KEY s then 1 else 0)
  + match s with
    | [] => 0
    | c :: s' => keyLines (isLineTerminator c) s'
    end.

(** Whether a line starts right after the text [s], given whether one starts
    at its head. *)
Fixpoint bolAfter (bol : bool) (s : jsstring) : bool :=
  match s with
  | [] => bol
  | c :: s' => bolAfter (isLineTerminator c) s'
  end.

(** The text ends a line: it is empty or ends with a line terminator. *)
Definition lineComplete (s : jsstring) : bool := bolAfter true s.

(** A token without line terminators and without [$]. *)
Definition plainToken (t : jsstring) : bool :=
  forallb (fun c => negb (isLineTerminator c) && negb (N.eqb c 36)) t.

Definition noLineTerminator (t : jsstring) : bool :=
  forallb (fun c => negb (isLineTerminator c)) t.

(** A replacement text without the patterns [$$], [$&], [$`] and [$']:
    [replace] writes it as it is. *)
Fixpoint noPattern (r : jsstring) : bool :=
  match r with
  | [] => true
  | c :: r' =>
      (if N.eqb c 36 then
         match r' with
         | d :: _ => negb (N.eqb d 36 || N.eqb d 38 || N.eqb d 96 || N.eqb d 39)
         | [] => true
         end
       else true)
      && noPattern r'
  end.

(** A token that both branches of the writer put on one line as it is, and
    that the file reads back as it is: no line terminator, no replacement
    pattern, no unpaired surrogate. *)
Definition literalToken (t : jsstring) : bool :=
  noLineTerminator t && noPattern t && isWellFormed t.

End TokenStorage.
Import TokenStorage.

(* ================================================================= *)
(** ** Authentication (auth.js): [AuthManager] *)

Module Auth.

(** What the code reads of an HTTP response: [response.status],
    [response.data] and [response.headers['set-cookie']] (absent, or the list
    of the [Set-Cookie] header lines). *)
Record response : Type := {
  status : Z;
  data : jsval;
  set_cookie : option (list jsstring)
}.

(** The promise of an [axios] call either resolves with a response or is
    rejected (transport failure, timeout, or a status that [axios] refuses). *)
Inductive http_outcome : Type :=
| Resolved (r : response)
| Rejected (e : js_error).

(** A cookie as the code reads it: [c.key] and [c.value]. *)
Record cookie : Type := {
  key : jsstring;
  value : jsstring
}.

(** The cookie jar of the [tough-cookie] package, by the two methods the code
    calls. [setCookieSync cookieString url jar] is the jar with the cookie
    stored, or an exception (a cookie that cannot be parsed or that the jar
    refuses); a call that throws stores nothing. *)
Class CookieJar (Jar : Type) : Type := {
  setCookieSync : jsstring -> jsstring -> Jar -> completion Jar;
  getCookiesSync : jsstring -> Jar -> completion (list cookie)
}.

(** The client and its [AuthManager]: [client.baseUrl], [client.accessToken],
    [client.cookieJar], [axios.defaults.headers.common['Cookie']],
    [auth.isAuthenticated] and [auth.userData]. *)
Record Session (Jar : Type) : Type := {
  baseUrl : jsstring;
  accessToken : jsval;
  cookieJar : Jar;
  defaultCookieHeader : jsval;
  isAuthenticated : bool;
  userData : jsval
}.

Record request : Type := {
  method : string;
  url : jsstring;
  headers : list (string * jsstring)
}.

(** A session, the credential files, and the requests handed to [axios] so
    far. *)
Record World (Jar : Type) : Type := {
  session : Session Jar;
  files : FS;
  sent : list request
}.

Section WithJar.
Context {Jar : Type} {jarOps : CookieJar Jar}.

(** Modelled from the spec: [ITDClient.setAccessToken] of client.js, which is
    not among the sources; the Session's [accessToken] is the current bearer
    token and is mutated by an explicit [setAccessToken]. *)
Definition setAccessToken (token : jsval) (s : Session Jar) : Session Jar :=
  {| baseUrl := baseUrl s; accessToken := token; cookieJar := cookieJar s;
     defaultCookieHeader := defaultCookieHeader s;
     isAuthenticated := isAuthenticated s; userData := userData s |}.

Definition set_isAuthenticated (b : bool) (s : Session Jar) : Session Jar :=
  {| baseUrl := baseUrl s; accessToken := accessToken s; cookieJar := cookieJar s;
     defaultCookieHeader := defaultCookieHeader s;
     isAuthenticated := b; userData := userData s |}.

Definition set_userData (v : jsval) (s : Session Jar) : Session Jar :=
  {| baseUrl := baseUrl s; accessToken := accessToken s; cookieJar := cookieJar s;
     defaultCookieHeader := defaultCookieHeader s;
     isAuthenticated := isAuthenticated s; userData := v |}.

Definition set_cookieJar (j : Jar) (s : Session Jar) : Session Jar :=
  {| baseUrl := baseUrl s; accessToken := accessToken s; cookieJar := j;
     defaultCookieHeader := defaultCookieHeader s;
     isAuthenticated := isAuthenticated s; userData := userData s |}.

Definition set_defaultCookieHeader (v : jsval) (s : Session Jar) : Session Jar :=
  {| baseUrl := baseUrl s; accessToken := accessToken s; cookieJar := cookieJar s;
     defaultCookieHeader := v;
     isAuthenticated := isAuthenticated s; userData := userData s |}.

Definition refreshUrl (s : Session Jar) : jsstring :=
  baseUrl s ++ str "/api/v1/auth/refresh".

(** [this.axios.post(refreshUrl, {}, { headers })] *)
Definition refreshRequest (s : Session Jar) : request :=
  {| method := "POST";
     url := refreshUrl s;
     headers := [("Referer"%string, baseUrl s ++ str "/");
                 ("Origin"%string, baseUrl s)] |}.

(** The [for] loop over the [Set-Cookie] lines, each [setCookieSync] in its
    own [try]/[catch] with an empty handler. *)
Fixpoint mergeCookies (cookies : list jsstring) (url : jsstring) (jar : Jar) : Jar :=
  match cookies with
  | [] => jar
  | cookieString :: rest =>
      match setCookieSync cookieString url jar with
      | Normal jar' => mergeCookies rest url jar'
      | Throw _ => mergeCookies rest url jar
      end
  end.

(** The cookies that are written back to the [.cookies] file. *)
Definition isImportantCookie (c : cookie) : bool :=
  jsstring_eqb (key c) (str "refresh_token")
  || startsWith (str "__ddg") (key c)
  || jsstring_eqb (key c) (str "is_auth").

Definition cookieHeaderOf (cs : list cookie) : jsstring :=
  join (str "; ") (map (fun c => key c ++ str "=" ++ value c) cs).

(** The second [try] block of the cookie branch: read the jar, keep the
    important cookies, write the header when there is one; an exception is
    caught and only reported. *)
Definition persistCookies (url : jsstring) (jar : Jar) (fs : FS) : FS :=
  match getCookiesSync url jar with
  | Normal allCookies =>
      let importantCookies := filter isImportantCookie allCookies in
      if Nat.ltb 0 (List.length importantCookies)
      then snd (saveCookieHeader (cookieHeaderOf importantCookies) fs)
      else fs
  | Throw _ => fs
  end.

(** The [try] block of [refreshAccessToken] from the point where the promise
    of [axios.post] settles: the completion of the block and the world it
    leaves. *)
Definition refresh_try (o : http_outcome) (w : World Jar)
  : completion jsval * World Jar :=
  match o with
  | Rejected e => (Throw e, w)
  | Resolved response =>
      if Z.eqb (status response) 200
         && truthy (opt_member (data response) "accessToken")
      then
        match member (data response) "accessToken" with
        | Throw e => (Throw e, w)
        | Normal newToken =>
            let s1 := set_isAuthenticated true (setAccessToken newToken (session w)) in
            let fs1 := snd (saveAccessToken newToken (files w)) in
            match set_cookie response with
            | Some cookies =>
                let jar := mergeCookies cookies (baseUrl s1) (cookieJar s1) in
                (Normal newToken,
                 {| session := set_cookieJar jar s1;
                    files := persistCookies (baseUrl s1) jar fs1;
                    sent := sent w |})
            | None =>
                (Normal newToken, {| session := s1; files := fs1; sent := sent w |})
            end
        end
      else (Normal JNull, w)
  end.

(** The part of [refreshAccessToken] that runs when it is called: the request
    is handed to [axios], and the function is suspended on the [await]. *)
Definition refresh_send (w : World Jar) : World Jar :=
  {| session := session w; files := files w;
     sent := sent w ++ [refreshRequest (session w)] |}.

(** The part that runs when the promise settles: the [try] block, and the
    [catch] block that reports the error and returns [null]. *)
Definition refresh_settle (o : http_outcome) (w : World Jar)
  : completion jsval * World Jar :=
  match refresh_try o w with
  | (Normal v, w') => (Normal v, w')
  | (Throw _, w') => (Normal JNull, w')
  end.

(** [AuthManager.refreshAccessToken()], for a given answer of the endpoint. *)
Definition refreshAccessToken (o : http_outcome) (w : World Jar)
  : completion jsval * World Jar :=
  refresh_settle o (refresh_send w).

Definition logoutRequest (s : Session Jar) : request :=
  {| method := "POST";
     url := baseUrl s ++ str "/api/v1/auth/sign-out";
     headers := [] |}.

(** [AuthManager.logout()], for a given answer of the endpoint. *)
Definition logout (o : http_outcome) (w : World Jar)
  : completion bool * World Jar :=
  let w0 := {| session := session w; files := files w;
               sent := sent w ++ [logoutRequest (session w)] |} in
  match o with
  | Rejected _ => (Normal false, w0)
  | Resolved response =>
      if Z.eqb (status response) 200 then
        let s1 := set_userData JNull (set_isAuthenticated false (session w0)) in
        let s2 := setAccessToken JNull s1 in
        let s3 := set_defaultCookieHeader (JStr []) s2 in
        (Normal true, {| session := s3; files := files w0; sent := sent w0 |})
      else (Normal false, w0)
  end.

(** [AuthManager.checkAuth()] *)
Definition checkAuth (s : Session Jar) : bool :=
  truthy (accessToken s) || isAuthenticated s.

(** *** Calls in flight

    JavaScript runs one call at a time and suspends it at an [await]. A run
    interleaves the calls of [refreshAccessToken] on one session: [Call]
    starts one and runs it up to its [await]; [Settle id o] resumes the call
    number [id] with the answer [o] to its request. *)
Inductive action : Type :=
| Call
| Settle (id : nat) (o : http_outcome).

Record Run : Type := {
  world : World Jar;
  started : nat;
  inFlight : list nat;
  returned : list (nat * completion jsval)
}.

Definition step (a : action) (r : Run) : Run :=
  match a with
  | Call =>
      {| world := refresh_send (world r);
         started := S (started r);
         inFlight := inFlight r ++ [started r];
         returned := returned r |}
  | Settle id o =>
      if existsb (Nat.eqb id) (inFlight r) then
        let (v, w') := refresh_settle o (world r) in
        {| world := w';
           started := started r;
           inFlight := filter (fun i => negb (Nat.eqb id i)) (inFlight r);
           returned := returned r ++ [(id, v)] |}
      else r
  end.

Definition run (actions : list action) (r : Run) : Run :=
  fold_left (fun r a => step a r) actions r.

Definition idle (w : World Jar) : Run :=
  {| world := w; started := 0; inFlight := []; returned := [] |}.

(** The requests to the refresh endpoint among those sent. *)
Definition refreshRoundTrips (w : World Jar) : nat :=
  List.length
    (filter (fun rq => jsstring_eqb (url rq) (refreshUrl (session w))) (sent w)).

Definition isCall (a : action) : bool :=
  match a with Call => true | Settle _ _ => false end.

(** The answers for which [refreshAccessToken] takes its success branch. *)
Definition refreshAccepted (o : http_outcome) : bool :=
  match o with
  | Resolved r => Z.eqb (status r) 200 && truthy (opt_member (data r) "accessToken")
  | Rejected _ => false
  end.

Definition tokenOf (o : http_outcome) : jsval :=
  match o with
  | Resolved r => opt_member (data r) "accessToken"
  | Rejected _ => JUndefined
  end.

Definition cookiesOf (o : http_outcome) : option (list jsstring) :=
  match o with
  | Resolved r => set_cookie r
  | Rejected _ => None
  end.

End WithJar.

(** A plain jar to run the model on examples, not the jar of [tough-cookie]:
    the cookies in order of arrival, a cookie that is set again moving to
    the end; a cookie line needs a non-empty name before its first [=], and
    the value ends at the first [;]. *)
Fixpoint splitAt (sep : N) (s : jsstring) : option (jsstring * jsstring) :=
  match s with
  | [] => None
  | c :: s' =>
      if N.eqb c sep then Some ([], s')
      else match splitAt sep s' with
           | Some (a, b) => Some (c :: a, b)
           | None => None
           end
  end.

Fixpoint upTo (sep : N) (s : jsstring) : jsstring :=
  match s with
  | [] => []
  | c :: s' => if N.eqb c sep then [] else c :: upTo sep s'
  end.

Definition parseCookieLine (line : jsstring) : completion cookie :=
  match splitAt 61 line with
  | Some (name, rest) =>
      match name with
      | [] => Throw (Error "Cookie failed to parse")
      | _ => Normal {| key := name; value := upTo 59 rest |}
      end
  | None => Throw (Error "Cookie failed to parse")
  end.

Definition listJar_set (line url : jsstring) (jar : list cookie)
  : completion (list cookie) :=
  match parseCookieLine line with
  | Normal c =>
      Normal (filter (fun c' => negb (jsstring_eqb (key c') (key c))) jar ++ [c])
  | Throw e => Throw e
  end.

#[export] Instance ListJar : CookieJar (list cookie) := {
  setCookieSync := listJar_set;
  getCookiesSync := fun _ jar => Normal jar
}.

End Auth.
Import Auth.

(* ================================================================= *)
(** ** The mirror pool (mirror-pool.js) *)

Module MirrorPool.

Definition MANAGER_KEYS : list jsstring :=
  map str ["auth"; "posts"; "comments"; "users"; "notifications"; "hashtags";
           "files"; "reports"; "searchManager"; "verification"]%string.

Definition has (keys : list jsstring) (k : jsstring) : bool :=
  existsb (jsstring_eqb k) keys.

(** [Object.entries(val)] for the values of a parsed JSON text. The fields of
    an object are as [jsval] lists them, in the order of its own keys. *)
Definition entries (val : jsval) : list (jsstring * jsval) :=
  match val with
  | JObj fields => fields
  | JArr items =>
      combine (map (fun i => decimal (Z.of_nat i)) (seq 0 (List.length items))) items
  | _ => []
  end.

Definition isEmptyString (v : jsval) : bool :=
  match v with JStr [] => true | _ => false end.

(** [toCookieString(val)] *)
Definition toCookieString (val : jsval) : jsstring :=
  match val with
  | JStr s => trim s
  | JObj _ | JArr _ =>
      join (str "; ")
        (map (fun kv => fst kv ++ str "=" ++ ToString (snd kv))
           (filter (fun kv => negb (isNullish (snd kv)) && negb (isEmptyString (snd kv)))
              (entries val)))
  | _ => []
  end.

(** The host of the pool: the [path] and [fs] modules, [JSON.parse] ([None]
    for a text that is not JSON) and [process.cwd()]. *)
Record Host : Type := {
  isAbsolute : jsstring -> bool;
  path_join : jsstring -> jsstring -> jsstring;
  disk : jsstring -> option node;
  JSON_parse : jsstring -> option jsval;
  cwd : jsstring
}.

(** Evaluation of an identifier in a scope: the value bound to the name, or a
    [ReferenceError]. *)
Fixpoint resolve (scope : list (string * jsval)) (name : string) : completion jsval :=
  match scope with
  | [] => Throw (ReferenceError name)
  | (n, v) :: rest => if String.eqb n name then Normal v else resolve rest name
  end.

(** [xs.map(f)] for a callback that may throw. *)
Fixpoint mapM {A B} (f : A -> completion B) (xs : list A) : completion (list B) :=
  match xs with
  | [] => Normal []
  | x :: rest =>
      y <- f x ;;
      ys <- mapM f rest ;;
      Normal (y :: ys)
  end.

Definition spread (v : jsval) : list (jsstring * jsval) :=
  match v with JObj fields => fields | _ => [] end.

(** The [path] functions throw a [TypeError] for an argument that is not a
    string. *)
Definition asPath (v : jsval) : completion jsstring :=
  match v with
  | JStr s => Normal s
  | _ => Throw (TypeError "The path argument must be of type string")
  end.

(** The callback of [keys.map] in [loadMirrorsFromFile]. The scope lists the
    variables that hold data where the object literal is evaluated; the
    other names in scope ([fs], [path], [ITDClient], [MANAGER_KEYS] and the
    three functions of the module) are bound to modules and functions. The
    properties of the literal are evaluated in the order they are written. *)
Definition mirrorConfig (host : Host) (filePath projectRoot : jsval)
    (fullPath raw : jsstring) (baseOptions data : jsval) (keys : list jsstring)
    (key : jsstring) : completion jsval :=
  let cookieString := toCookieString (lookup key (spread data)) in
  let scope :=
    [("key", JStr key); ("cookieString", JStr cookieString);
     ("filePath", filePath); ("projectRoot", projectRoot);
     ("baseOptions", baseOptions); ("fullPath", JStr fullPath);
     ("raw", JStr raw); ("data", data); ("keys", JArr (map JStr keys))]%string in
  if negb (truthy (JStr cookieString)) then
    Throw (Error "mirror needs a cookie string or an object with refresh_token")
  else
    base <- resolve scope "baseOptions" ;;
    root <- resolve scope "projectRoot" ;;
    cookies <- resolve scope "cookiesString" ;;
    rootPath <- asPath projectRoot ;;
    Normal (JObj (spread base ++
                  [(str "projectRoot", root);
                   (str "cookiesString", cookies);
                   (str "cookiesPath",
                     JStr (path_join host rootPath (str ".cookies.mirrors." ++ key)));
                   (str "envPath",
                     JStr (path_join host rootPath (str ".env.mirrors." ++ key)))])).

(** The path that [loadMirrorsFromFile] reads. *)
Definition mirrorsPath (host : Host) (filePath projectRoot : jsval)
  : completion jsstring :=
  file <- asPath filePath ;;
  if isAbsolute host file then Normal file
  else
    root <- asPath projectRoot ;;
    Normal (path_join host root file).

(** [loadMirrorsFromFile(filePath, projectRoot, baseOptions)]. The messages
    of the errors are rendered in English. *)
Definition loadMirrorsFromFile (host : Host) (filePath projectRoot : jsval)
    (baseOptions : jsval) : completion (list jsval) :=
  fullPath <- mirrorsPath host filePath projectRoot ;;
  if negb (existsSync (disk host fullPath)) then
    Throw (Error "mirrors file not found")
  else
    content <- readFileSync (disk host fullPath) ;;
    let raw := trim content in
    match JSON_parse host raw with
    | None => Throw (Error "mirrors file must be valid JSON")
    | Some data =>
        match data with
        | JObj fields =>
            let keys := map fst fields in
            if Nat.eqb (List.length keys) 0 then
              Throw (Error "mirrors file needs at least one account")
            else
              mapM (mirrorConfig host filePath projectRoot fullPath raw
                      baseOptions data keys) keys
        | _ => Throw (Error "mirrors file must hold an object keyed by account")
        end
    end.

(** What the caller hands to [createMirrorPool]: an array whose elements are
    clients or configuration objects, an object of options, or anything
    else. *)
Inductive entry (Client : Type) : Type :=
| AClient (c : Client)
| AConfig (options : jsval).
Arguments AConfig {Client} options.

Inductive poolArg (Client : Type) : Type :=
| ArgArray (configs : list (entry Client))
| ArgObject (opts : list (jsstring * jsval))
| ArgOther (v : jsval).
Arguments ArgObject {Client} opts.
Arguments ArgOther {Client} v.

(** The class [ITDClient] of client.js, which is not among the sources, by
    what the pool uses of it: the constructor, which properties of a client
    (and of its managers) are functions, and what a call of such a function
    does to the state outside the pool (sessions, files, network), of type
    [Heap]. *)
Class ITDClient (Client Heap : Type) : Type := {
  newITDClient : jsval -> Client;
  isFunction : jsstring -> bool;
  isManagerFunction : jsstring -> jsstring -> bool;
  callMethod : Client -> jsstring -> list jsval -> Heap -> Heap;
  callManagerMethod : Client -> jsstring -> jsstring -> list jsval -> Heap -> Heap
}.

(** The closure of [createMirrorPool]: the clients and the shared index. *)
Record Pool (Client : Type) : Type := {
  clients : list Client;
  index : N
}.

(** [index += 1] on a JavaScript number: exact below 2^53, where the sum is
    rounded back to 2^53. *)
Definition increment (i : N) : N :=
  if N.ltb i (2 ^ 53) then i + 1 else i.

Section WithClient.
Context {Client Heap : Type} {api : ITDClient Client Heap}.

(** [createMirrorPool(configsOrOptions)] up to the creation of the proxy. *)
Definition createMirrorPool (host : Host) (arg : poolArg Client)
  : completion (Pool Client) :=
  configs <-
    match arg with
    | ArgArray configs =>
        if Nat.eqb (List.length configs) 0
        then Throw (TypeError "createMirrorPool(configs): configs must not be empty")
        else Normal configs
    | ArgObject opts =>
        let mirrorsCookiesPath := lookup (str "mirrorsCookiesPath") opts in
        if negb (truthy mirrorsCookiesPath) then
          Throw (TypeError "createMirrorPool({ mirrorsCookiesPath }): mirrorsCookiesPath is required")
        else
          let projectRoot := js_nullish (lookup (str "projectRoot") opts) (JStr (cwd host)) in
          let baseOptions := js_nullish (lookup (str "baseOptions") opts) (JObj []) in
          loaded <- loadMirrorsFromFile host mirrorsCookiesPath projectRoot baseOptions ;;
          Normal (map AConfig loaded)
    | ArgOther _ =>
        Throw (TypeError "createMirrorPool: pass an array of configs or { mirrorsCookiesPath }")
    end ;;
  Normal {| clients := map (fun c => match c with
                                     | AClient c => c
                                     | AConfig options => newITDClient options
                                     end) configs;
            index := 0 |}.

(** [nextClient()]: the selected client ([None] for [undefined]) and the
    closure afterwards. *)
Definition nextClient (p : Pool Client) : option Client * Pool Client :=
  (nth_error (clients p) (N.to_nat (index p mod N.of_nat (List.length (clients p)))),
   {| clients := clients p; index := increment (index p) |}).

(** What a property read on the pool proxy, or on a manager proxy,
    evaluates to. *)
Inductive poolValue : Type :=
| NextClientThunk                         (* [() => nextClient()] *)
| ClientsArray (cs : list Client)
| SizeValue (n : nat)
| ManagerProxy (propName : jsstring)      (* [makeManagerProxy(prop)] *)
| MethodWrapper (prop : jsstring)         (* the wrapper around [clients[0][prop]] *)
| ClientProperty (c : option Client) (prop : jsstring)   (* [nextClient()[prop]] *)
| ManagerMethod (c : Client) (propName method : jsstring) (* the wrapper around [fn] *)
| ManagerProperty (c : Client) (propName method : jsstring).

(** The [get] trap of the pool proxy. *)
Definition pool_get (prop : jsstring) (p : Pool Client)
  : completion poolValue * Pool Client :=
  if jsstring_eqb prop (str "getClient") || jsstring_eqb prop (str "nextClient") then
    (Normal NextClientThunk, p)
  else if jsstring_eqb prop (str "clients") then (Normal (ClientsArray (clients p)), p)
  else if jsstring_eqb prop (str "size") then (Normal (SizeValue (List.length (clients p))), p)
  else
    match clients p with
    | [] => (Throw (TypeError "Cannot read properties of undefined"), p)
    | ref :: _ =>
        if has MANAGER_KEYS prop then (Normal (ManagerProxy prop), p)
        else if isFunction prop then (Normal (MethodWrapper prop), p)
        else let (c, p') := nextClient p in (Normal (ClientProperty c prop), p')
    end.

(** The [get] trap of a manager proxy. *)
Definition makeManagerProxy_get (propName method : jsstring) (p : Pool Client)
  : completion poolValue * Pool Client :=
  match nextClient p with
  | (Some c, p') =>
      if isManagerFunction propName method
      then (Normal (ManagerMethod c propName method), p')
      else (Normal (ManagerProperty c propName method), p')
  | (None, p') => (Throw (TypeError "Cannot read properties of undefined"), p')
  end.

(** The pool together with the state outside its closure. *)
Record PoolWorld : Type := {
  pool : Pool Client;
  heap : Heap
}.

(** Calling the value of a property read with the arguments [args]: the
    client that serves the call and the world afterwards. [createMirrorPool]
    never builds a pool without clients; for such a pool [nextClient()]
    selects [undefined], which is reported here as an error. *)
Definition call_value (v : poolValue) (args : list jsval) (w : PoolWorld)
  : completion Client * PoolWorld :=
  match v with
  | NextClientThunk =>
      match nextClient (pool w) with
      | (Some c, p') => (Normal c, {| pool := p'; heap := heap w |})
      | (None, p') =>
          (Throw (TypeError "no client"), {| pool := p'; heap := heap w |})
      end
  | MethodWrapper prop =>
      match nextClient (pool w) with
      | (Some c, p') =>
          (Normal c, {| pool := p'; heap := callMethod c prop args (heap w) |})
      | (None, p') =>
          (Throw (TypeError "no client"), {| pool := p'; heap := heap w |})
      end
  | ManagerMethod c propName method =>
      (Normal c,
       {| pool := pool w; heap := callManagerMethod c propName method args (heap w) |})
  | ClientsArray _ | SizeValue _ | ManagerProxy _
  | ClientProperty _ _ | ManagerProperty _ _ _ =>
      (Throw (TypeError "not a function"), w)
  end.

(** The calls a caller makes through the pool: [pool.prop(...args)] and,
    for a manager key, [pool.manager.method(...args)]. A member call on the
    value of any other property of the pool ([pool.clients.pop()],
    [pool.size.toFixed()], [pool.getMyProfile.call()]) is a call on an array,
    a number or a function of the language and not a call through the
    facade; [facade] does not follow it and stops it with a [TypeError]. *)
Inductive facadeCall : Type :=
| PoolMethod (prop : jsstring) (args : list jsval)
| PoolManagerMethod (propName method : jsstring) (args : list jsval).

Definition facade (call : facadeCall) (w : PoolWorld)
  : completion Client * PoolWorld :=
  match call with
  | PoolMethod prop args =>
      match pool_get prop (pool w) with
      | (Normal v, p') => call_value v args {| pool := p'; heap := heap w |}
      | (Throw e, p') => (Throw e, {| pool := p'; heap := heap w |})
      end
  | PoolManagerMethod propName method args =>
      match pool_get propName (pool w) with
      | (Normal (ManagerProxy name), p') =>
          match makeManagerProxy_get name method p' with
          | (Normal v, p'') => call_value v args {| pool := p''; heap := heap w |}
          | (Throw e, p'') => (Throw e, {| pool := p''; heap := heap w |})
          end
      | (Normal _, p') =>
          (Throw (TypeError "not a manager"), {| pool := p'; heap := heap w |})
      | (Throw e, p') => (Throw e, {| pool := p'; heap := heap w |})
      end
  end.

(** The call names a method that the facade forwards: [getClient] or
    [nextClient], a function of the client, or a function of one of its
    managers. *)
Definition isMethodCall (call : facadeCall) : bool :=
  match call with
  | PoolMethod prop _ =>
      jsstring_eqb prop (str "getClient") || jsstring_eqb prop (str "nextClient")
      || (negb (jsstring_eqb prop (str "clients"))
          && negb (jsstring_eqb prop (str "size"))
          && negb (has MANAGER_KEYS prop)
          && isFunction prop)
  | PoolManagerMethod propName method _ =>
      has MANAGER_KEYS propName && isManagerFunction propName method
  end.

(** A sequence of calls through the facade: the client that served each call
    and the world afterwards. *)
Fixpoint facadeRun (calls : list facadeCall) (w : PoolWorld)
  : list (completion Client) * PoolWorld :=
  match calls with
  | [] => ([], w)
  | call :: rest =>
      let (served, w') := facade call w in
      let (more, w'') := facadeRun rest w' in
      (served :: more, w'')
  end.

(** The calls a caller makes on a client it holds: [client.prop(...args)] and
    [client.manager.method(...args)]. *)
Inductive clientCall : Type :=
| ClientMethod (prop : jsstring) (args : list jsval)
| ClientManagerMethod (propName method : jsstring) (args : list jsval).

Definition direct (c : Client) (call : clientCall) (w : PoolWorld) : PoolWorld :=
  match call with
  | ClientMethod prop args =>
      {| pool := pool w; heap := callMethod c prop args (heap w) |}
  | ClientManagerMethod propName method args =>
      {| pool := pool w; heap := callManagerMethod c propName method args (heap w) |}
  end.

Definition directRun (c : Client) (calls : list clientCall) (w : PoolWorld) : PoolWorld :=
  fold_left (fun w call => direct c call w) calls w.

End WithClient.

(** A client class to run the model on examples: a client is the name of its
    account, the heap is the log of the calls served, and the functions are
    three methods of the SDK and the methods of [notifications]. *)
Definition logEntry : Type := (jsstring * jsstring)%type.

#[export] Instance NamedClient : ITDClient jsstring (list logEntry) := {
  newITDClient := fun options => ToString (opt_member options "name");
  isFunction := fun prop =>
    has (map str ["getNotifications"; "addComment"; "getMyProfile"]%string) prop;
  isManagerFunction := fun propName method =>
    jsstring_eqb propName (str "notifications")
    && has (map str ["getNotifications"; "markAsRead"]%string) method;
  callMethod := fun c prop _ log => log ++ [(c, prop)];
  callManagerMethod := fun c propName method _ log =>
    log ++ [(c, propName ++ str "." ++ method)]
}.

End MirrorPool.
Import MirrorPool.

(* ================================================================= *)
(** ** Resource managers (users.js, notifications.js, files.js, search.js,
    hashtags.js, comments.js) *)

Module Managers.

Section WithJar.
Context {Jar : Type}.

(** Modelled from the spec: [ITDClient.requireAuth] of client.js, which is not
    among the sources; the precondition check is local and asks whether there
    is a usable access token or the session has been marked authenticated. *)
Definition requireAuth (s : Session Jar) : bool :=
  truthy (accessToken s) || isAuthenticated s.

(** [await this.axios.get(...)] inside a [try] block. *)
Definition await (o : http_outcome) : completion response :=
  match o with
  | Resolved r => Normal r
  | Rejected e => Throw e
  end.

(** [UsersManager.getMyProfile()] *)
Definition getMyProfile (s : Session Jar) (o : http_outcome) : completion jsval :=
  if negb (checkAuth s) then Normal JNull
  else
    try_catch
      (response <- await o ;;
       if Z.eqb (status response) 200 then Normal (data response)
       else Normal JNull)
      (fun _ => Normal JNull).

(** [UsersManager.getFollowers(username, page, limit)] *)
Definition getFollowers (o : http_outcome) : completion jsval :=
  try_catch
    (response <- await o ;;
     if Z.eqb (status response) 200 then
       let data := data response in
       inner <- member data "data" ;;
       nested <- (if truthy inner then member inner "users" else Normal inner) ;;
       if truthy nested then
         users <- member inner "users" ;;
         pagination <- member inner "pagination" ;;
         Normal (JObj [(str "users", users);
                       (str "pagination", js_or pagination (JObj []))])
       else
         flat <- member data "users" ;;
         if truthy flat then
           pagination <- member data "pagination" ;;
           Normal (JObj [(str "users", flat);
                         (str "pagination", js_or pagination (JObj []))])
         else
           Normal (JObj [(str "users", JArr []); (str "pagination", JObj [])])
     else Normal JNull)
    (fun _ => Normal JNull).

(** [notifications.filter(notif => notif.type === type)] *)
Fixpoint filterByType (type : jsval) (notifications : list jsval)
  : completion (list jsval) :=
  match notifications with
  | [] => Normal []
  | notif :: rest =>
      t <- member notif "type" ;;
      kept <- filterByType type rest ;;
      Normal (if strict_eq t type then notif :: kept else kept)
  end.

(** [NotificationsManager.getNotifications(limit, offset, type)] *)
Definition getNotifications (type : jsval) (s : Session Jar) (o : http_outcome)
  : completion jsval :=
  if negb (requireAuth s) then Normal JNull
  else
    try_catch
      (response <- await o ;;
       if Z.eqb (status response) 200 then
         let data := data response in
         let notifications :=
           match opt_member data "notifications" with
           | JArr items => items
           | _ => []
           end in
         let hasMore := truthy (opt_member data "hasMore") in
         notifications' <-
           (if truthy type && Nat.ltb 0 (List.length notifications)
            then filterByType type notifications
            else Normal notifications) ;;
         Normal (JObj [(str "notifications", JArr notifications');
                       (str "hasMore", JBool hasMore)])
       else Normal JNull)
      (fun _ => Normal JNull).

(** [FilesManager.deleteFile(fileId)] *)
Definition deleteFile (s : Session Jar) (o : http_outcome) : completion bool :=
  if negb (checkAuth s) then Normal false
  else
    try_catch
      (response <- await o ;;
       Normal (Z.eqb (status response) 200 || Z.eqb (status response) 204))
      (fun _ => Normal false).

End WithJar.

(** [SearchManager.search(query, userLimit, hashtagLimit)] *)
Definition search (o : http_outcome) : completion jsval :=
  try_catch
    (response <- await o ;;
     if Z.eqb (status response) 200 then
       let data := data response in
       inner <- member data "data" ;;
       if truthy inner then
         users <- member inner "users" ;;
         hashtags <- member inner "hashtags" ;;
         Normal (JObj [(str "users", js_or users (JArr []));
                       (str "hashtags", js_or hashtags (JArr []))])
       else
         users <- member data "users" ;;
         hashtags <- (if truthy users then Normal JUndefined else member data "hashtags") ;;
         if truthy users || truthy hashtags then
           users' <- member data "users" ;;
           hashtags' <- member data "hashtags" ;;
           Normal (JObj [(str "users", js_or users' (JArr []));
                         (str "hashtags", js_or hashtags' (JArr []))])
         else
           Normal (JObj [(str "users", JArr []); (str "hashtags", JArr [])])
     else Normal JNull)
    (fun _ => Normal JNull).

(** [HashtagsManager.getTrending(limit)] *)
Definition getTrending (o : http_outcome) : completion jsval :=
  try_catch
    (response <- await o ;;
     if Z.eqb (status response) 200 then
       let data := data response in
       inner <- member data "data" ;;
       nested <- (if truthy inner then member inner "hashtags" else Normal inner) ;;
       if truthy nested then
         hashtags <- member inner "hashtags" ;;
         Normal (JObj [(str "hashtags", hashtags)])
       else
         flat <- member data "hashtags" ;;
         if truthy flat then Normal (JObj [(str "hashtags", flat)])
         else Normal (JObj [(str "hashtags", JArr [])])
     else Normal JNull)
    (fun _ => Normal JNull).

(** [v.length] *)
Definition lengthOf (v : jsval) : jsval :=
  match v with
  | JArr items => JNum (Z.of_nat (List.length items))
  | JStr s => JNum (Z.of_nat (List.length s))
  | JObj fields => lookup (str "length") fields
  | _ => JUndefined
  end.

Definition emptyComments : jsval :=
  JObj [(str "comments", JArr []); (str "total", JNum 0);
        (str "hasMore", JBool false); (str "nextCursor", JNull)].

(** [parseResponse] of [CommentsManager.getComments] *)
Definition parseResponse (response : response) : completion jsval :=
  let data := js_nullish (opt_member (data response) "data") (data response) in
  if truthy (opt_member data "comments") then
    comments <- member data "comments" ;;
    total <- member data "total" ;;
    hasMore <- member data "hasMore" ;;
    nextCursor <- member data "nextCursor" ;;
    Normal (JObj [(str "comments", comments);
                  (str "total", js_nullish total (lengthOf comments));
                  (str "hasMore", js_nullish hasMore (JBool false));
                  (str "nextCursor", js_nullish nextCursor JNull)])
  else
    match data with
    | JArr items =>
        Normal (JObj [(str "comments", data);
                      (str "total", JNum (Z.of_nat (List.length items)));
                      (str "hasMore", JBool false); (str "nextCursor", JNull)])
    | _ => Normal emptyComments
    end.

(** [error.response?.status] *)
Definition errorStatus (e : js_error) : option Z :=
  match e with
  | AxiosError _ st => st
  | _ => None
  end.

Definition is422 (st : option Z) : bool :=
  match st with Some z => Z.eqb z 422 | None => false end.

(** [CommentsManager.getComments(postId, limit, sort)] of the revision with
    the [sort] fallback. The method sends up to three requests: the first; on
    status 422 a second one inside the [try] block; and, when the error that
    reaches the [catch] block carries status 422, one more. [first], [second]
    and [third] are the answers to the requests in the order they are
    sent. *)
Definition getComments (first second third : http_outcome) : completion jsval :=
  let attempt : completion jsval * http_outcome :=
    match first with
    | Rejected e => (Throw e, second)
    | Resolved response =>
        if Z.eqb (status response) 200 then (parseResponse response, second)
        else if Z.eqb (status response) 422 then
          match second with
          | Rejected e => (Throw e, third)
          | Resolved fallback =>
              if Z.eqb (status fallback) 200 then (parseResponse fallback, third)
              else (Normal emptyComments, third)
          end
        else (Normal emptyComments, second)
    end in
  match attempt with
  | (Normal v, _) => Normal v
  | (Throw error, next) =>
      let retried : completion (option jsval) :=
        if is422 (errorStatus error) then
          try_catch
            (retry <- await next ;;
             if Z.eqb (status retry) 200
             then (v <- parseResponse retry ;; Normal (Some v))
             else Normal None)
            (fun _ => Normal None)
        else Normal None in
      match retried with
      | Normal (Some v) => Normal v
      | _ => Normal emptyComments
      end
  end.

(** The documented results of [search] and [getFollowers] for a body without
    users or hashtags. *)
Definition emptySearch : jsval :=
  JObj [(str "users", JArr []); (str "hashtags", JArr [])].

Definition emptyFollowers : jsval :=
  JObj [(str "users", JArr []); (str "pagination", JObj [])].

Definition emptyTrending : jsval := JObj [(str "hashtags", JArr [])].

(** The body [{ data: payload }]. *)
Definition envelope (payload : jsval) : jsval := JObj [(str "data", payload)].

(** A failed call: the request is rejected, or it is answered with a status
    outside 200..299. *)
Definition failing (o : http_outcome) : bool :=
  match o with
  | Resolved r => negb (Z.leb 200 (status r) && Z.ltb (status r) 300)
  | Rejected _ => true
  end.

End Managers.
Import Managers.

(* ================================================================= *)
(** ** Concrete inputs on which the model is run *)

Definition exampleSession : Session (list cookie) :=
  {| baseUrl := str "https://example.org";
     accessToken := JStr (str "old-token");
     cookieJar := [{| key := str "refresh_token"; value := str "r0" |}];
     defaultCookieHeader := JStr (str "refresh_token=r0");
     isAuthenticated := false;
     userData := JObj [(str "id", JNum 7)] |}.

Definition exampleFiles : FS :=
  {| env_file := Some (Regular (str "ITD_ACCESS_TOKEN=old-token"));
     cookies_file := Some (Regular (str "refresh_token=r0"));
     canCreate := true |}.

Definition exampleWorld : World (list cookie) :=
  {| session := exampleSession; files := exampleFiles; sent := [] |}.

Definition ok200 (body : jsval) (cookies : option (list jsstring)) : http_outcome :=
  Resolved {| status := 200; data := body; set_cookie := cookies |}.

(** The text [{"gork":"refresh_token=abc"}] of a mirrors file. *)
Definition quoted (s : string) : jsstring := [34%N] ++ str s ++ [34%N].

Definition mirrorsText : jsstring :=
  str "{" ++ quoted "gork" ++ str ":" ++ quoted "refresh_token=abc" ++ str "}".

Definition mirrorsData : jsval :=
  JObj [(str "gork", JStr (str "refresh_token=abc"))].

(** A host whose project root [/app] holds that mirrors file and a file
    [broken.json] that is not JSON. *)
Definition exampleHost : Host :=
  {| isAbsolute := startsWith (str "/");
     path_join := fun a b => a ++ str "/" ++ b;
     disk := fun p =>
       if jsstring_eqb p (str "/app/.cookies.mirrors") then Some (Regular mirrorsText)
       else if jsstring_eqb p (str "/app/broken.json") then Some (Regular (str "{ gork "))
       else None;
     JSON_parse := fun raw =>
       if jsstring_eqb raw mirrorsText then Some mirrorsData else None;
     cwd := str "/app" |}.

Definition exampleOptions : list (jsstring * jsval) :=
  [(str "mirrorsCookiesPath", JStr (str ".cookies.mirrors"));
   (str "projectRoot", JStr (str "/app"))].

(** Seven calls through the facade, of different kinds. *)
Definition sevenCalls : list facadeCall :=
  [PoolMethod (str "getNotifications") [JNum 20];
   PoolMethod (str "addComment") [JStr (str "post-1"); JStr (str "hello")];
   PoolManagerMethod (str "notifications") (str "markAsRead") [JStr (str "n-1")];
   PoolMethod (str "getClient") [];
   PoolMethod (str "getMyProfile") [];
   PoolManagerMethod (str "notifications") (str "getNotifications") [];
   PoolMethod (str "nextClient") []].

(* ================================================================= *)
(** ** Uses of the pool beyond single calls *)

Module PoolUse.

Section WithClient.
Context {Client Heap : Type} {api : ITDClient Client Heap}.

(** A value read once from the pool and then called [n] times with the same
    arguments: [const f = pool.prop; f(...args); f(...args); ...]. *)
Fixpoint callMany (v : poolValue) (args : list jsval) (n : nat) (w : PoolWorld)
  : list (completion Client) * PoolWorld :=
  match n with
  | O => ([], w)
  | S n' =>
      let (served, w') := call_value v args w in
      let (more, w'') := callMany v args n' w' in
      (served :: more, w'')
  end.

(** The names for which the [get] trap of the pool answers without calling
    [nextClient]. *)
Definition readsWithoutTurn (prop : jsstring) : bool :=
  jsstring_eqb prop (str "getClient") || jsstring_eqb prop (str "nextClient")
  || jsstring_eqb prop (str "clients") || jsstring_eqb prop (str "size")
  || has MANAGER_KEYS prop || isFunction prop.

(** What a call through the facade does outside the pool when the client [c]
    serves it: nothing for [getClient] and [nextClient], which only hand the
    client out, and otherwise the method of [c], or of its manager, applied
    to the arguments. *)
Definition servedBy (c : Client) (call : facadeCall) (h : Heap) : Heap :=
  match call with
  | PoolMethod prop args =>
      if jsstring_eqb prop (str "getClient") || jsstring_eqb prop (str "nextClient")
      then h
      else callMethod c prop args h
  | PoolManagerMethod propName method args =>
      callManagerMethod c propName method args h
  end.

(** Round robin as the specification words it: the calls are made one after
    the other, the call number [k] on the client at position [k] modulo the
    number of clients. *)
Fixpoint routed (cs : list Client) (d : Client) (k : nat) (calls : list facadeCall)
    (h : Heap) : Heap :=
  match calls with
  | [] => h
  | call :: rest =>
      routed cs d (S k) rest (servedBy (nth (k mod List.length cs) cs d) call h)
  end.

(** The call expressions that go through the facade: [pool.prop(...)] and
    [pool.manager.method(...)] for one of the manager keys. A member call on
    the value of another property of the pool ([pool.clients.pop()],
    [pool.getMyProfile.call()]) is a call on that value. *)
Definition throughFacade (call : facadeCall) : bool :=
  match call with
  | PoolMethod _ _ => true
  | PoolManagerMethod propName _ _ => has MANAGER_KEYS propName
  end.

End WithClient.

(** An array index as a property key: the decimal numeral, without a leading
    zero, of an integer below 2^32 - 1. The own properties of an object are
    listed with such keys first, in ascending order, and the other string
    keys after them in the order in which they were created. *)
Definition isDigit (c : N) : bool := N.leb 48 c && N.leb c 57.

Definition numeralValue (k : jsstring) : N :=
  fold_left (fun acc c => 10 * acc + (c - 48))%N k 0%N.

Definition isArrayIndex (k : jsstring) : bool :=
  match k with
  | [] => false
  | c :: rest =>
      forallb isDigit k
      && (negb (N.eqb c 48) || match rest with [] => true | _ => false end)
      && N.ltb (numeralValue k) 4294967295
  end.

Fixpoint distinct (keys : list jsstring) : bool :=
  match keys with
  | [] => true
  | k :: rest => negb (existsb (jsstring_eqb k) rest) && distinct rest
  end.

(** Keys that an object lists in the order in which they are given: each one
    once, and none of them an array index. *)
Definition listedInOrder (keys : list jsstring) : bool :=
  distinct keys && forallb (fun k => negb (isArrayIndex k)) keys.

End PoolUse.
Import PoolUse.

(* ================================================================= *)
(** ** More resource methods (verification.js, files.js, users.js,
    notifications.js, comments.js) *)

Module Resources.

Section WithJar.
Context {Jar : Type}.

(** [VerificationManager.getStatus()] *)
Definition getStatus (s : Session Jar) (o : http_outcome) : completion jsval :=
  if negb (checkAuth s) then Normal JNull
  else
    try_catch
      (response <- await o ;;
       if Z.eqb (status response) 200
       then Normal (js_nullish (opt_member (data response) "data") (data response))
       else Normal JNull)
      (fun _ => Normal JNull).

(** [VerificationManager.submit(videoUrl)] *)
Definition submit (s : Session Jar) (o : http_outcome) : completion jsval :=
  if negb (checkAuth s) then Normal JNull
  else
    try_catch
      (response <- await o ;;
       if Z.eqb (status response) 200 || Z.eqb (status response) 201
       then Normal (js_nullish (opt_member (data response) "data") (data response))
       else Normal JNull)
      (fun _ => Normal JNull).

(** [FilesManager.getFile(fileId)] *)
Definition getFile (s : Session Jar) (o : http_outcome) : completion jsval :=
  if negb (checkAuth s) then Normal JNull
  else
    try_catch
      (response <- await o ;;
       if Z.eqb (status response) 200
       then Normal (js_nullish (opt_member (data response) "data") (data response))
       else Normal JNull)
      (fun _ => Normal JNull).

(** [UsersManager.getUserProfile(username)] *)
Definition getUserProfile (o : http_outcome) : completion jsval :=
  try_catch
    (response <- await o ;;
     if Z.eqb (status response) 200 then
       inner <- member (data response) "data" ;;
       Normal (js_or inner (data response))
     else Normal JNull)
    (fun _ => Normal JNull).

(** [UsersManager.unfollowUser(username)] *)
Definition unfollowUser (s : Session Jar) (o : http_outcome) : completion jsval :=
  if negb (checkAuth s) then Normal JNull
  else
    try_catch
      (response <- await o ;;
       if Z.eqb (status response) 200 || Z.eqb (status response) 204
       then Normal (js_or (data response)
                      (JObj [(str "following", JBool false);
                             (str "followersCount", JNum 0)]))
       else Normal JNull)
      (fun _ => Normal JNull).

(** [UsersManager.isFollowing(username)] *)
Definition isFollowing (s : Session Jar) (o : http_outcome) : completion jsval :=
  if negb (checkAuth s) then Normal (JBool false)
  else
    profile <- getUserProfile o ;;
    if truthy profile then
      flag <- member profile "isFollowing" ;;
      Normal (JBool (strict_eq flag (JBool true)))
    else Normal (JBool false).

(** [UsersManager.getMyFollowersCount()] *)
Definition getMyFollowersCount (s : Session Jar) (o : http_outcome) : completion jsval :=
  profile <- getMyProfile s o ;;
  if truthy profile then
    count <- member profile "followersCount" ;;
    Normal (js_or count (JNum 0))
  else Normal (JNum 0).

(** [UsersManager.getMyFollowingCount()] *)
Definition getMyFollowingCount (s : Session Jar) (o : http_outcome) : completion jsval :=
  profile <- getMyProfile s o ;;
  if truthy profile then
    count <- member profile "followingCount" ;;
    Normal (js_or count (JNum 0))
  else Normal (JNum 0).

(** [UsersManager.getMyClan()] *)
Definition getMyClan (s : Session Jar) (o : http_outcome) : completion jsval :=
  profile <- getMyProfile s o ;;
  if truthy profile then
    avatar <- member profile "avatar" ;;
    Normal (js_or avatar JNull)
  else Normal JNull.

(** [UsersManager.getUserClan(username)], as the class defines it first, with
    an early return. *)
Definition getUserClan_first (o : http_outcome) : completion jsval :=
  profile <- getUserProfile o ;;
  if negb (truthy profile) then Normal JNull
  else
    avatar <- member profile "avatar" ;;
    Normal (js_or avatar JNull).

(** [UsersManager.getUserClan(username)], as the class defines it again at
    its end; this definition is the one in force. *)
Definition getUserClan (o : http_outcome) : completion jsval :=
  profile <- getUserProfile o ;;
  if truthy profile then
    avatar <- member profile "avatar" ;;
    Normal (js_or avatar JNull)
  else Normal JNull.

(** [NotificationsManager.markAsRead(notificationId)] *)
Definition markAsRead (s : Session Jar) (o : http_outcome) : completion jsval :=
  if negb (requireAuth s) then Normal JNull
  else
    try_catch
      (response <- await o ;;
       if Z.eqb (status response) 200 || Z.eqb (status response) 204
       then Normal (js_or (data response) (JObj [(str "success", JBool true)]))
       else Normal JNull)
      (fun _ => Normal JNull).

(** [NotificationsManager.markAsReadBatch(ids)] *)
Definition markAsReadBatch (ids : jsval) (s : Session Jar) (o : http_outcome)
  : completion jsval :=
  if negb (requireAuth s) then Normal JNull
  else
    match ids with
    | JArr (_ :: _) =>
        try_catch
          (response <- await o ;;
           if Z.eqb (status response) 200 then Normal (data response)
           else Normal JNull)
          (fun _ => Normal JNull)
    | _ => Normal (JObj [(str "success", JBool true); (str "count", JNum 0)])
    end.

(** [Array.isArray(data?.notifications) ? data.notifications : []], the list
    [getNotifications] starts from. *)
Definition notificationsOf (data : jsval) : list jsval :=
  match opt_member data "notifications" with
  | JArr items => items
  | _ => []
  end.

(** [all.notifications.filter(n => !n.read)] *)
Fixpoint filterUnread (notifications : list jsval) : completion (list jsval) :=
  match notifications with
  | [] => Normal []
  | n :: rest =>
      read <- member n "read" ;;
      kept <- filterUnread rest ;;
      Normal (if negb (truthy read) then n :: kept else kept)
  end.

(** [NotificationsManager.getUnreadNotifications(limit, offset)]: the call of
    [getNotifications] passes no [type], and the filter runs outside any
    [try] block. *)
Definition getUnreadNotifications (s : Session Jar) (o : http_outcome)
  : completion jsval :=
  all <- getNotifications JNull s o ;;
  if negb (truthy all) then Normal JNull
  else
    notifications <- member all "notifications" ;;
    match notifications with
    | JArr items =>
        unread <- filterUnread items ;;
        hasMore <- member all "hasMore" ;;
        Normal (JObj [(str "notifications", JArr unread); (str "hasMore", hasMore)])
    | _ => Throw (TypeError "all.notifications.filter is not a function")
    end.

End WithJar.

(** [reqLimit] of [CommentsManager.getComments], for a [limit] that is an
    integer: [Math.min(Math.max(1, Number(limit) || 20), 100)]. *)
Definition reqLimit (limit : Z) : Z :=
  Z.min (Z.max 1 (if Z.eqb limit 0 then 20 else limit)) 100.

(** The [limit] parameter of the requests that [getComments] sends for an
    integer [limit], in the order in which they are sent: the first request
    and the fallback after a response with status 422 ask for [reqLimit], the
    retry in the [catch] block, after a rejection with status 422, for 20. *)
Definition getComments_limits (limit : Z) (first second : http_outcome) : list Z :=
  let retry (e : js_error) := if is422 (errorStatus e) then [20%Z] else [] in
  match first with
  | Rejected e => reqLimit limit :: retry e
  | Resolved response =>
      if Z.eqb (status response) 200 then [reqLimit limit]
      else if Z.eqb (status response) 422 then
        reqLimit limit :: reqLimit limit ::
          match second with
          | Rejected e => retry e
          | Resolved _ => []
          end
      else [reqLimit limit]
  end.

(** The answers that [unfollowUser] and [markAsRead] take as success. *)
Definition done (o : http_outcome) : bool :=
  match o with
  | Resolved r => Z.eqb (status r) 200 || Z.eqb (status r) 204
  | Rejected _ => false
  end.

(** Whether an answer carries status 422, as a response or as the response
    of the error it is rejected with: the answers after which
    [getComments] sends another request. *)
Definition answers422 (o : http_outcome) : bool :=
  match o with
  | Resolved r => Z.eqb (status r) 422
  | Rejected e => is422 (errorStatus e)
  end.

(** A response with status 200 and a body. *)
Definition body (d : jsval) : response :=
  {| status := 200; data := d; set_cookie := None |}.

End Resources.
Import Resources.

(* ================================================================= *)
(** ** The reading loop of the notification stream (notifications.js) *)

Module Stream.

(** [s.split('\n')]; the result is never empty. *)
Fixpoint split (s : jsstring) : list jsstring :=
  match s with
  | [] => [[]]
  | c :: s' =>
      if N.eqb c 10 then [] :: split s'
      else match split s' with
           | line :: lines => (c :: line) :: lines
           | [] => [[c]]
           end
  end.

Section WithCallbacks.

(** [JSON.parse] and the caller's [onEvent], which may throw. *)
Variable parse : jsstring -> completion jsval.
Variable onEvent : jsval -> completion unit.

(** The inner [try { ... onEvent(parsed) } catch { onEvent(currentData) }]
    for one event: the arguments [onEvent] is called with, in order, and how
    the block ends. *)
Definition deliver (currentData : jsstring) : list jsval * completion unit :=
  let parsed := match currentData with
                | [] => Normal JNull
                | _ => parse currentData
                end in
  match parsed with
  | Normal v =>
      match onEvent v with
      | Normal u => ([v], Normal u)
      | Throw _ => ([v; JStr currentData], onEvent (JStr currentData))
      end
  | Throw _ => ([JStr currentData], onEvent (JStr currentData))
  end.

(** [for (const line of lines) { ... }], started with a value of
    [currentData]: the calls of [onEvent], and either the value of
    [currentData] when the loop ends or the error that leaves it. *)
Fixpoint forLines (lines : list jsstring) (currentData : option jsstring)
  : list jsval * completion (option jsstring) :=
  match lines with
  | [] => ([], Normal currentData)
  | line :: rest =>
      if startsWith (str "data:") line
      then forLines rest (Some (trim (skipn 5 line)))
      else
        match line, currentData with
        | [], Some d =>
            let (calls, c) := deliver d in
            match c with
            | Normal _ =>
                let (calls', c') := forLines rest None in (calls ++ calls', c')
            | Throw e => (calls, Throw e)
            end
        | _, _ => forLines rest currentData
        end
  end.

(** [while (true) { ... }] over the decoded texts that [reader.read()] gives
    until it reports [done], started with a value of [buffer]: the calls of
    [onEvent], and the error that reaches the outer [catch], if any. Here
    every read arrives; [readStream] below has the reads end in either
    way. *)
Fixpoint readLoop (reads : list jsstring) (buffer : jsstring)
  : list jsval * option js_error :=
  match reads with
  | [] => ([], None)
  | value :: rest =>
      let buffer := buffer ++ value in
      let lines := split buffer in
      let buffer := last lines [] in
      let lines := removelast lines in
      match forLines lines None with
      | (calls, Normal _) =>
          let (calls', e) := readLoop rest buffer in (calls ++ calls', e)
      | (calls, Throw e) => (calls, Some e)
      end
  end.

(** How the reads of a stream end: [reader.read()] reports [done], or its
    promise is rejected (the stream was aborted with [close()], or the
    connection failed). *)
Inductive ending : Type :=
| Done
| ReadRejected (e : js_error).

(** The same loop for a stream whose reads give the texts [reads] and then
    end as [finish]: a rejected read leaves the loop with its error, which
    reaches the outer [catch] like an error of [onEvent]. *)
Fixpoint readStream (reads : list jsstring) (finish : ending) (buffer : jsstring)
  : list jsval * option js_error :=
  match reads with
  | [] =>
      ([], match finish with Done => None | ReadRejected e => Some e end)
  | value :: rest =>
      let buffer := buffer ++ value in
      let lines := split buffer in
      let buffer := last lines [] in
      let lines := removelast lines in
      match forLines lines None with
      | (calls, Normal _) =>
          let (calls', e) := readStream rest finish buffer in (calls ++ calls', e)
      | (calls, Throw e) => (calls, Some e)
      end
  end.

End WithCallbacks.

(** The complete lines of a text, those that [lines.pop()] leaves. *)
Definition completeLines (s : jsstring) : list jsstring := removelast (split s).

Definition isEmpty (s : jsstring) : bool :=
  match s with [] => true | _ => false end.

(** Whether a text has a complete line that is empty. *)
Definition hasBlankLine (s : jsstring) : bool := existsb isEmpty (completeLines s).

Definition noLF (s : jsstring) : bool := forallb (fun c => negb (N.eqb c 10)) s.

End Stream.
Import Stream.

(** A parser for the examples: it knows the literals [null], [true] and
    [false] and throws on any other text. *)
Definition literalParse (s : jsstring) : completion jsval :=
  if jsstring_eqb s (str "null") then Normal JNull
  else if jsstring_eqb s (str "true") then Normal (JBool true)
  else if jsstring_eqb s (str "false") then Normal (JBool false)
  else Throw (Error "Unexpected token").

(** A callback for the examples that accepts everything. *)
Definition acceptAll (_ : jsval) : completion unit := Normal tt.

(** The characters CR and LF. *)
Definition CRLF : jsstring := [13%N; 10%N].

(** A callback for the examples that throws on everything. *)
Definition rejectAll (_ : jsval) : completion unit := Throw (Error "handler failed").
(* ================================================================= *)
(** * Properties *)

Example env_append :
  updateEnvContent (JStr (str "T1")) (str "A=1")
  = str "A=1" ++ LF ++ str "ITD_ACCESS_TOKEN=T1" ++ LF.
Proof. reflexivity. Qed.

Example env_replace :
  updateEnvContent (JStr (str "T2")) (str "A=1" ++ LF ++ str "ITD_ACCESS_TOKEN=T1" ++ [13%N;10%N] ++ str "B=2")
  = str "A=1" ++ LF ++ str "ITD_ACCESS_TOKEN=T2" ++ [13%N; 10%N] ++ str "B=2".
Proof. reflexivity. Qed.

Example env_dollar :
  updateEnvContent (JStr (str "a$&b")) (str "ITD_ACCESS_TOKEN=old")
  = str "ITD_ACCESS_TOKEN=aITD_ACCESS_TOKEN=oldb".
Proof. reflexivity. Qed.

(* ----------------------------------------------------------------- *)
(** ** Well-formed strings *)

Lemma toWellFormed_cons (c : N) (s : jsstring) :
  notSurrogate c = true -> toWellFormed (c :: s) = c :: toWellFormed s.
Proof.
  unfold notSurrogate. intros H. apply andb_prop in H as [H1 H2].
  apply negb_true_iff in H1, H2. cbn [toWellFormed]. now rewrite H1, H2.
Qed.

Lemma isWellFormed_cons (c : N) (s : jsstring) :
  notSurrogate c = true -> isWellFormed (c :: s) = isWellFormed s.
Proof.
  unfold notSurrogate. intros H. apply andb_prop in H as [H1 H2].
  apply negb_true_iff in H1, H2. cbn [isWellFormed]. now rewrite H1, H2.
Qed.

(** Induction over strings two code units at a time. *)
Lemma jsstring_ind2 (P : jsstring -> Prop) :
  P [] -> (forall c, P [c]) ->
  (forall c d s, P s -> P (d :: s) -> P (c :: d :: s)) ->
  forall s, P s.
Proof.
  intros H0 H1 H2 s.
  assert (H : P s /\ forall c, P (c :: s)).
  { induction s as [|d s [IH1 IH2]]; [split; auto|].
    split; [apply IH2|]. intros c. apply H2; auto. }
  apply H.
Qed.

Lemma toWellFormed_length (s : jsstring) :
  List.length (toWellFormed s) = List.length s.
Proof.
  induction s as [|c|c d s IH1 IH2] using jsstring_ind2.
  - reflexivity.
  - cbn. destruct (isHighSurrogate c); [reflexivity|].
    destruct (isLowSurrogate c); reflexivity.
  - cbn [toWellFormed] in *. destruct (isHighSurrogate c).
    + destruct (isLowSurrogate d); cbn [List.length]; [now rewrite IH1|].
      now rewrite IH2.
    + destruct (isLowSurrogate c); cbn [List.length]; now rewrite IH2.
Qed.

Lemma high_not_low (c : N) : isHighSurrogate c = true -> isLowSurrogate c = false.
Proof.
  unfold isHighSurrogate, isLowSurrogate. intros H.
  apply andb_prop in H as [_ H]. apply N.leb_le in H.
  apply andb_false_intro1. apply N.leb_gt. lia.
Qed.

Lemma replacement_notSurrogate : notSurrogate 65533 = true.
Proof. reflexivity. Qed.

Lemma isWellFormed_toWellFormed (s : jsstring) :
  isWellFormed (toWellFormed s) = true.
Proof.
  induction s as [|c|c d s IH1 IH2] using jsstring_ind2.
  - reflexivity.
  - cbn. destruct (isHighSurrogate c) eqn:H; [reflexivity|].
    destruct (isLowSurrogate c) eqn:L; [reflexivity|].
    cbn. now rewrite H, L.
  - cbn [toWellFormed] in *. destruct (isHighSurrogate c) eqn:H.
    + destruct (isLowSurrogate d) eqn:L.
      * cbn [isWellFormed]. now rewrite H, L, IH1.
      * now rewrite isWellFormed_cons.
    + destruct (isLowSurrogate c) eqn:L.
      * now rewrite isWellFormed_cons.
      * rewrite isWellFormed_cons; [exact IH2|]. unfold notSurrogate.
        now rewrite H, L.
Qed.

Lemma toWellFormed_id (s : jsstring) :
  isWellFormed s = true -> toWellFormed s = s.
Proof.
  induction s as [|c|c d s IH1 IH2] using jsstring_ind2.
  - reflexivity.
  - cbn. destruct (isHighSurrogate c); [discriminate|].
    destruct (isLowSurrogate c); [discriminate | reflexivity].
  - cbn [toWellFormed isWellFormed] in *. destruct (isHighSurrogate c).
    + destruct (isLowSurrogate d); [|discriminate].
      cbn [andb]. intros H. now rewrite IH1.
    + destruct (isLowSurrogate c); [discriminate|].
      cbn [negb andb]. intros H. now rewrite IH2.
Qed.

Lemma isWellFormed_iff (s : jsstring) :
  isWellFormed s = true <-> toWellFormed s = s.
Proof.
  split; [apply toWellFormed_id|].
  intros E. rewrite <- E. apply isWellFormed_toWellFormed.
Qed.

Lemma toWellFormed_idempotent (s : jsstring) :
  toWellFormed (toWellFormed s) = toWellFormed s.
Proof. apply toWellFormed_id, isWellFormed_toWellFormed. Qed.

(** A code unit that is not a surrogate separates what is before it from
    what is after it. *)
Lemma toWellFormed_eq (c : N) (s : jsstring) :
  toWellFormed (c :: s)
  = if isHighSurrogate c then
      match s with
      | d :: s'' =>
          if isLowSurrogate d then c :: d :: toWellFormed s''
          else 65533%N :: toWellFormed s
      | [] => [65533%N]
      end
    else if isLowSurrogate c then 65533%N :: toWellFormed s
    else c :: toWellFormed s.
Proof. reflexivity. Qed.

Lemma toWellFormed_app (a b : jsstring) (c : N) :
  notSurrogate c = true ->
  toWellFormed (a ++ c :: b) = toWellFormed a ++ c :: toWellFormed b.
Proof.
  intros Hc. assert (Hl : isLowSurrogate c = false).
  { unfold notSurrogate in Hc. apply andb_prop in Hc as [_ H].
    now apply negb_true_iff in H. }
  induction a as [|x|x y a IH1 IH2] using jsstring_ind2.
  - cbn [app]. now rewrite toWellFormed_cons.
  - cbn [app]. rewrite (toWellFormed_eq x (c :: b)), (toWellFormed_eq x []), Hl.
    rewrite (@toWellFormed_cons c b Hc).
    destruct (isHighSurrogate x); [reflexivity|].
    destruct (isLowSurrogate x); reflexivity.
  - cbn [app] in *.
    rewrite (toWellFormed_eq x (y :: a ++ c :: b)), (toWellFormed_eq x (y :: a)).
    destruct (isHighSurrogate x).
    + destruct (isLowSurrogate y); cbn [app]; [now rewrite IH1 | now rewrite IH2].
    + destruct (isLowSurrogate x); cbn [app]; now rewrite IH2.
Qed.

Lemma toWellFormed_prefix (k s : jsstring) :
  forallb notSurrogate k = true ->
  toWellFormed (k ++ s) = k ++ toWellFormed s.
Proof.
  induction k as [|c k IH]; [reflexivity|].
  cbn [forallb app]. intros H. apply andb_prop in H as [Hc Hk].
  now rewrite toWellFormed_cons, IH.
Qed.

(** What holds of every code unit of a string and of U+FFFD holds of every
    code unit of its well-formed version. *)
Lemma forallb_toWellFormed (P : N -> bool) (s : jsstring) :
  P 65533%N = true -> forallb P s = true -> forallb P (toWellFormed s) = true.
Proof.
  intros Hr.
  induction s as [|c|c d s IH1 IH2] using jsstring_ind2.
  - reflexivity.
  - rewrite toWellFormed_eq. cbn [forallb]. intros H.
    destruct (isHighSurrogate c); [cbn [forallb]; now rewrite Hr|].
    destruct (isLowSurrogate c); cbn [forallb]; [now rewrite Hr | exact H].
  - rewrite toWellFormed_eq. intros H. cbn [forallb] in H.
    apply andb_prop in H as [Hc H]. pose proof H as Hd.
    apply andb_prop in Hd as [Hd Hs].
    assert (H2 : forallb P (d :: s) = true) by (cbn [forallb]; exact H).
    destruct (isHighSurrogate c).
    + destruct (isLowSurrogate d); cbn [forallb].
      * now rewrite Hc, Hd, IH1.
      * now rewrite Hr, IH2.
    + destruct (isLowSurrogate c); cbn [forallb].
      * now rewrite Hr, IH2.
      * now rewrite Hc, IH2.
Qed.

(* ----------------------------------------------------------------- *)
(** ** The token-file writer *)

Section StringFacts.

Lemma startsWith_app (p s : jsstring) : startsWith p (p ++ s) = true.
Proof.
  induction p as [|x p IH]; simpl; [reflexivity|].
  now rewrite N.eqb_refl, IH.
Qed.

Lemma skipn_length_app (p s : jsstring) : skipn (List.length p) (p ++ s) = s.
Proof. induction p; simpl; auto. Qed.

(** A prefix without line terminators cannot reach across a line terminator
    of [s]. *)
Lemma startsWith_within_line (k s r : jsstring) :
  noLineTerminator k = true ->
  existsb isLineTerminator s = true ->
  startsWith k (s ++ r) = startsWith k s.
Proof.
  revert s. induction k as [|x k IH]; intros s Hk Hs; [reflexivity|].
  destruct s as [|y s]; [discriminate|].
  simpl in *. apply andb_prop in Hk as [Hx Hk].
  destruct (N.eqb x y) eqn:E; [|reflexivity]. simpl.
  apply N.eqb_eq in E; subst y.
  apply negb_true_iff in Hx. rewrite Hx in Hs. simpl in Hs.
  now apply IH.
Qed.

Lemma startsWith_snoc_terminator (k s : jsstring) (t : N) :
  noLineTerminator k = true -> isLineTerminator t = true ->
  startsWith k (s ++ [t]) = startsWith k s.
Proof.
  revert s. induction k as [|x k IH]; intros s Hk Ht; [reflexivity|].
  simpl in Hk. apply andb_prop in Hk as [Hx Hk].
  destruct s as [|y s]; simpl.
  - destruct (N.eqb x t) eqn:E; [|reflexivity].
    apply N.eqb_eq in E; subst t. apply negb_true_iff in Hx. congruence.
  - now rewrite IH.
Qed.

Lemma bolAfter_terminator (b : bool) (s : jsstring) :
  bolAfter b s = true -> b = true \/ existsb isLineTerminator s = true.
Proof.
  revert b. induction s as [|c s IH]; intros b H; simpl in *; [now left|].
  right. destruct (IH _ H) as [-> | ->]; [reflexivity | apply orb_true_r].
Qed.

Lemma bolAfter_snoc (b : bool) (s : jsstring) (t : N) :
  bolAfter b (s ++ [t]) = isLineTerminator t.
Proof. revert b. induction s; intros b; simpl; auto. Qed.

Lemma dotStar_line (v post : jsstring) :
  noLineTerminator v = true -> endOfLine post = true ->
  dotStar (v ++ post) = (v, post).
Proof.
  intros Hv Hp. induction v as [|c v IH]; simpl in *.
  - destruct post as [|d post]; [reflexivity|]. simpl in *. now rewrite Hp.
  - apply andb_prop in Hv as [Hc Hv]. apply negb_true_iff in Hc.
    now rewrite Hc, IH.
Qed.

Lemma dotStar_spec (s : jsstring) :
  let (v, rest) := dotStar s in
  s = v ++ rest /\ noLineTerminator v = true /\ endOfLine rest = true.
Proof.
  induction s as [|c s IH]; simpl; [auto|].
  destruct (isLineTerminator c) eqn:E.
  - simpl. now rewrite E.
  - destruct (dotStar s) as [v rest]. destruct IH as (-> & Hv & Hr).
    simpl. rewrite E. auto.
Qed.

Lemma startsWith_split (p s : jsstring) :
  startsWith p s = true -> s = p ++ skipn (List.length p) s.
Proof.
  revert s. induction p as [|x p IH]; intros s H; [reflexivity|].
  destruct s as [|y s]; [discriminate|]. simpl in *.
  apply andb_prop in H as [E H]. apply N.eqb_eq in E. subst y.
  f_equal. now apply IH.
Qed.

End StringFacts.

Lemma KEY_noLineTerminator : noLineTerminator KEY = true.
Proof. reflexivity. Qed.

Lemma KEY_not_prefix_of_empty : startsWith KEY [] = false.
Proof. reflexivity. Qed.

Lemma KEY_head : exists k0 k', KEY = k0 :: k' /\ isLineTerminator k0 = false.
Proof. now exists 73%N, (tl KEY). Qed.

Lemma matchHere_key_line (v post : jsstring) :
  noLineTerminator v = true -> endOfLine post = true ->
  matchHere (KEY ++ v ++ post) = Some (KEY ++ v, post).
Proof.
  intros Hv Hp. unfold matchHere.
  rewrite startsWith_app, skipn_length_app, (dotStar_line _ _ Hv Hp).
  now rewrite Hp.
Qed.

Lemma matchHere_spec (s m rest : jsstring) :
  matchHere s = Some (m, rest) ->
  exists v, m = KEY ++ v /\ s = KEY ++ v ++ rest
            /\ noLineTerminator v = true /\ endOfLine rest = true.
Proof.
  unfold matchHere. destruct (startsWith KEY s) eqn:E; [|discriminate].
  pose proof (dotStar_spec (skipn (List.length KEY) s)) as D.
  destruct (dotStar (skipn (List.length KEY) s)) as [v r].
  destruct D as (Hs & Hv & Hr). rewrite Hr. intros [= <- <-].
  exists v. repeat split; auto.
  rewrite <- Hs. now apply startsWith_split.
Qed.

Lemma matchHere_none_iff (s : jsstring) :
  matchHere s = None <-> startsWith KEY s = false.
Proof.
  unfold matchHere. destruct (startsWith KEY s) eqn:E.
  - pose proof (dotStar_spec (skipn (List.length KEY) s)) as D.
    destruct (dotStar (skipn (List.length KEY) s)) as [v r].
    destruct D as (_ & _ & ->). split; discriminate.
  - split; auto.
Qed.

Lemma KEY_no_dollar : forallb (fun c => negb (N.eqb c 36)) KEY = true.
Proof. reflexivity. Qed.

Lemma KEY_notSurrogate : forallb notSurrogate KEY = true.
Proof. reflexivity. Qed.

Lemma lineTerminator_notSurrogate (c : N) :
  isLineTerminator c = true -> notSurrogate c = true.
Proof.
  unfold isLineTerminator. intros H.
  repeat (apply orb_prop in H as [H|H]); apply N.eqb_eq in H; subst; reflexivity.
Qed.

Opaque KEY.

Lemma tokenRegex_exec_eq (bol : bool) (s : jsstring) :
  tokenRegex_exec bol s =
  match (if bol then matchHere s else None) with
  | Some (m, rest) => Some ([], m, rest)
  | None =>
      match s with
      | [] => None
      | c :: s' =>
          match tokenRegex_exec (isLineTerminator c) s' with
          | Some (before, m, rest) => Some (c :: before, m, rest)
          | None => None
          end
      end
  end.
Proof. destruct s; reflexivity. Qed.

Lemma keyLines_eq (bol : bool) (s : jsstring) :
  keyLines bol s =
  (if bol && startsWith KEY s then 1 else 0)
  + match s with
    | [] => 0
    | c :: s' => keyLines (isLineTerminator c) s'
    end.
Proof. destruct s; reflexivity. Qed.

Lemma keyLines_nil (bol : bool) : keyLines bol [] = 0.
Proof.
  rewrite keyLines_eq, KEY_not_prefix_of_empty, andb_false_r. reflexivity.
Qed.

Lemma keyLines_zero_head (bol : bool) (s : jsstring) :
  keyLines bol s = 0 -> bol && startsWith KEY s = false.
Proof.
  rewrite keyLines_eq. destruct (bol && startsWith KEY s); [discriminate|reflexivity].
Qed.

Lemma keyLines_zero_tail (bol : bool) (c : N) (s : jsstring) :
  keyLines bol (c :: s) = 0 -> keyLines (isLineTerminator c) s = 0.
Proof. rewrite keyLines_eq. lia. Qed.

(** The search finds the first key line: everything before it is skipped. *)
Lemma tokenRegex_exec_found (pre v post : jsstring) (bol : bool) :
  bolAfter bol pre = true -> keyLines bol pre = 0 ->
  noLineTerminator v = true -> endOfLine post = true ->
  tokenRegex_exec bol (pre ++ KEY ++ v ++ post) = Some (pre, KEY ++ v, post).
Proof.
  revert bol. induction pre as [|c p IH]; intros bol Hb Hk Hv Hp.
  - simpl in Hb. subst bol. rewrite tokenRegex_exec_eq. simpl app.
    now rewrite matchHere_key_line.
  - rewrite tokenRegex_exec_eq.
    assert (Hnone : (if bol then matchHere ((c :: p) ++ KEY ++ v ++ post) else None) = None).
    { destruct bol; [|reflexivity]. apply matchHere_none_iff.
      rewrite startsWith_within_line.
      - apply keyLines_zero_head in Hk. exact Hk.
      - exact KEY_noLineTerminator.
      - simpl in Hb. apply bolAfter_terminator in Hb. simpl.
        destruct Hb as [-> | ->]; [reflexivity | apply orb_true_r]. }
    rewrite Hnone. cbn [app].
    rewrite IH; auto. now apply keyLines_zero_tail in Hk.
Qed.

(** What a successful search returns. *)
Lemma tokenRegex_exec_spec (s : jsstring) :
  forall bol pre m post,
  tokenRegex_exec bol s = Some (pre, m, post) ->
  exists v, m = KEY ++ v /\ s = pre ++ KEY ++ v ++ post
            /\ bolAfter bol pre = true /\ keyLines bol pre = 0
            /\ noLineTerminator v = true /\ endOfLine post = true.
Proof.
  induction s as [|x s IH]; intros bol pre m post; rewrite tokenRegex_exec_eq.
  - destruct bol; [|discriminate].
    destruct (matchHere []) as [[m' r']|] eqn:E; [|discriminate].
    apply matchHere_spec in E as (v & -> & Hs & Hv & Hr).
    intros [= <- <- <-]. exists v. repeat split; auto using keyLines_nil.
  - destruct (if bol then matchHere (x :: s) else None) as [[m' r']|] eqn:E.
    + destruct bol; [|discriminate].
      apply matchHere_spec in E as (v & -> & Hs & Hv & Hr).
      intros [= <- <- <-]. exists v. repeat split; auto using keyLines_nil.
    + destruct (tokenRegex_exec (isLineTerminator x) s) as [[[b m'] r']|] eqn:R;
        [|discriminate].
      intros [= <- <- <-].
      apply IH in R as (v & -> & -> & Hb & Hk & Hv & Hr).
      exists v. repeat split; auto.
      rewrite keyLines_eq, Hk, Nat.add_0_r.
      destruct bol; [|reflexivity]. apply matchHere_none_iff in E.
      change (x :: b ++ KEY ++ v ++ r') with ((x :: b) ++ KEY ++ v ++ r') in E.
      rewrite startsWith_within_line in E.
      * simpl. now rewrite E.
      * exact KEY_noLineTerminator.
      * apply bolAfter_terminator in Hb. simpl.
        destruct Hb as [-> | ->]; [reflexivity | apply orb_true_r].
Qed.

Lemma tokenRegex_exec_none (s : jsstring) (bol : bool) :
  tokenRegex_exec bol s = None <-> keyLines bol s = 0.
Proof.
  revert bol. induction s as [|x s IH]; intros bol;
    rewrite tokenRegex_exec_eq, keyLines_eq.
  - rewrite KEY_not_prefix_of_empty, andb_false_r.
    destruct bol; simpl.
    + pose proof (proj2 (matchHere_none_iff []) KEY_not_prefix_of_empty) as ->.
      tauto.
    + tauto.
  - specialize (IH (isLineTerminator x)).
    destruct bol; simpl.
    + destruct (startsWith KEY (x :: s)) eqn:E.
      * destruct (matchHere (x :: s)) as [[m r]|] eqn:M.
        -- split; discriminate.
        -- apply matchHere_none_iff in M. congruence.
      * pose proof (proj2 (matchHere_none_iff _) E) as ->.
        destruct (tokenRegex_exec (isLineTerminator x) s) as [[[b m] r]|].
        -- split; [discriminate|]. intros H. apply IH in H. discriminate.
        -- split; [intros _; now apply IH | reflexivity].
    + destruct (tokenRegex_exec (isLineTerminator x) s) as [[[b m] r]|].
      * split; [discriminate|]. intros H. apply IH in H. discriminate.
      * split; [intros _; now apply IH | reflexivity].
Qed.

Lemma keyLines_inside_line (x post : jsstring) :
  noLineTerminator x = true -> keyLines false (x ++ post) = keyLines false post.
Proof.
  induction x as [|c x IH]; intros Hx; [reflexivity|].
  simpl in Hx. apply andb_prop in Hx as [Hc Hx]. apply negb_true_iff in Hc.
  simpl app. rewrite keyLines_eq. simpl. rewrite Hc. now apply IH.
Qed.

Lemma noLineTerminator_app (a b : jsstring) :
  noLineTerminator (a ++ b) = noLineTerminator a && noLineTerminator b.
Proof. apply forallb_app. Qed.

(** Counting key lines around one key line. *)
Lemma keyLines_key_line (pre v post : jsstring) (bol : bool) :
  bolAfter bol pre = true -> noLineTerminator v = true ->
  keyLines bol (pre ++ KEY ++ v ++ post) = keyLines bol pre + 1 + keyLines false post.
Proof.
  revert bol. induction pre as [|c p IH]; intros bol Hb Hv.
  - simpl in Hb. subst bol. rewrite keyLines_nil. simpl app.
    rewrite keyLines_eq, startsWith_app. simpl.
    destruct KEY_head as (k0 & k' & HK & Hk0).
    pose proof KEY_noLineTerminator as HN. rewrite HK in *. simpl in HN.
    apply andb_prop in HN as [_ HN].
    cbn [app]. rewrite Hk0, app_assoc, keyLines_inside_line; [reflexivity|].
    now rewrite noLineTerminator_app, HN, Hv.
  - simpl in Hb. simpl app. rewrite keyLines_eq, (keyLines_eq bol (c :: p)).
    rewrite (IH _ Hb Hv).
    change (c :: p ++ KEY ++ v ++ post) with ((c :: p) ++ KEY ++ v ++ post).
    rewrite startsWith_within_line.
    + lia.
    + exact KEY_noLineTerminator.
    + apply bolAfter_terminator in Hb. simpl.
      destruct Hb as [-> | ->]; [reflexivity | apply orb_true_r].
Qed.

Lemma keyLines_snoc_terminator (s : jsstring) (t : N) (bol : bool) :
  isLineTerminator t = true -> keyLines bol (s ++ [t]) = keyLines bol s.
Proof.
  intros Ht. revert bol. induction s as [|c s IH]; intros bol.
  - simpl app. rewrite keyLines_eq, keyLines_nil, keyLines_nil.
    replace (startsWith KEY [t]) with (startsWith KEY ([] ++ [t])) by reflexivity.
    rewrite startsWith_snoc_terminator, KEY_not_prefix_of_empty, andb_false_r;
      auto using KEY_noLineTerminator.
  - simpl app. rewrite keyLines_eq, (keyLines_eq bol (c :: s)), IH.
    change (c :: s ++ [t]) with ((c :: s) ++ [t]).
    rewrite startsWith_snoc_terminator; auto using KEY_noLineTerminator.
Qed.

Lemma GetSubstitution_literal (m b a r : jsstring) :
  noPattern r = true -> GetSubstitution m b a r = r.
Proof.
  induction r as [|c r IH]; intros H; [reflexivity|].
  cbn [noPattern] in H. apply andb_prop in H as [Hc H].
  cbn [GetSubstitution]. destruct (N.eqb c 36).
  - destruct r as [|d r]; [reflexivity|].
    apply negb_true_iff in Hc.
    apply orb_false_elim in Hc as [Hc H39]. apply orb_false_elim in Hc as [Hc H96].
    apply orb_false_elim in Hc as [H36 H38].
    rewrite H36, H38, H96, H39. now rewrite IH.
  - now rewrite IH.
Qed.

Lemma noPattern_after (k t : jsstring) :
  forallb (fun c => negb (N.eqb c 36)) k = true ->
  noPattern t = true -> noPattern (k ++ t) = true.
Proof.
  intros Hk Ht. induction k as [|c k IH]; [exact Ht|].
  cbn [forallb] in Hk. apply andb_prop in Hk as [Hc Hk].
  apply negb_true_iff in Hc. cbn [app noPattern]. rewrite Hc. now apply IH.
Qed.

Lemma plainToken_noLineTerminator (t : jsstring) :
  plainToken t = true -> noLineTerminator t = true.
Proof.
  induction t as [|c t IH]; simpl; [reflexivity|].
  intros H. apply andb_prop in H as [H1 H2]. apply andb_prop in H1 as [H1 _].
  now rewrite H1, IH.
Qed.

Lemma plainToken_noPattern (t : jsstring) :
  plainToken t = true -> noPattern t = true.
Proof.
  induction t as [|c t IH]; [reflexivity|].
  cbn [plainToken forallb noPattern]. intros H.
  apply andb_prop in H as [H1 H2]. apply andb_prop in H1 as [_ H1].
  apply negb_true_iff in H1. rewrite H1. now apply IH.
Qed.

Lemma literalToken_parts (t : jsstring) :
  literalToken t = true ->
  noLineTerminator t = true /\ noPattern t = true /\ toWellFormed t = t.
Proof.
  unfold literalToken. intros H. apply andb_prop in H as [H Hw].
  apply andb_prop in H as [Hn Hp]. auto using toWellFormed_id.
Qed.

(** Key absent: the writer appends a line break, the key line and a newline. *)
Lemma updateEnvContent_absent (t c : jsstring) :
  keyLines true c = 0 ->
  updateEnvContent (JStr t) c = c ++ LF ++ KEY ++ t ++ LF.
Proof.
  intros H. unfold updateEnvContent, tokenRegex_test.
  apply tokenRegex_exec_none in H. now rewrite H.
Qed.

(** Key present: the first key line is replaced in place. *)
Lemma updateEnvContent_present (t pre v post : jsstring) :
  noPattern t = true ->
  lineComplete pre = true -> keyLines true pre = 0 ->
  noLineTerminator v = true -> endOfLine post = true ->
  updateEnvContent (JStr t) (pre ++ KEY ++ v ++ post) = pre ++ KEY ++ t ++ post.
Proof.
  intros Ht Hb Hk Hv Hp. unfold updateEnvContent, tokenRegex_test, replace_tokenRegex.
  rewrite tokenRegex_exec_found by assumption.
  rewrite GetSubstitution_literal by (apply noPattern_after; auto using KEY_no_dollar).
  simpl. now rewrite <- !app_assoc.
Qed.

(** The well-formed version of a text around a key line. *)
Lemma toWellFormed_key_line (pre x post : jsstring) :
  endOfLine post = true ->
  toWellFormed (pre ++ KEY ++ x ++ post)
  = toWellFormed pre ++ KEY ++ toWellFormed x ++ toWellFormed post.
Proof.
  intros Hp. pose proof KEY_notSurrogate as Hk.
  destruct KEY as [|k0 k'] eqn:E; [discriminate|].
  cbn [forallb] in Hk. apply andb_prop in Hk as [H0 Hk].
  cbn [app]. rewrite toWellFormed_app by exact H0.
  rewrite toWellFormed_prefix by exact Hk. do 3 f_equal.
  destruct post as [|p0 post]; [now rewrite !app_nil_r|].
  cbn [endOfLine] in Hp. apply lineTerminator_notSurrogate in Hp.
  rewrite toWellFormed_app by exact Hp. now rewrite (@toWellFormed_cons p0 post Hp).
Qed.

Lemma app_inj_length (A : Type) (a a' b b' : list A) :
  List.length a = List.length a' -> a ++ b = a' ++ b' -> a = a' /\ b = b'.
Proof.
  revert a'. induction a as [|x a IH]; intros [|y a'] Hl H;
    try discriminate; [split; [reflexivity | exact H]|].
  cbn in Hl, H. injection H as -> H. injection Hl as Hl.
  destruct (IH a' Hl H) as [-> ->]. split; reflexivity.
Qed.

Lemma wellFormed_key_line (pre v post : jsstring) :
  endOfLine post = true ->
  toWellFormed (pre ++ KEY ++ v ++ post) = pre ++ KEY ++ v ++ post ->
  toWellFormed pre = pre /\ toWellFormed v = v /\ toWellFormed post = post.
Proof.
  intros Hp H. rewrite toWellFormed_key_line in H by exact Hp.
  apply app_inj_length in H as [H1 H]; [|apply toWellFormed_length].
  apply app_inv_head in H.
  apply app_inj_length in H as [H2 H3]; [|apply toWellFormed_length].
  auto.
Qed.

(** What [updateEnvContent] leaves for a token without line terminators and
    replacement patterns: a text whose first key line carries the token, with
    as many key lines as before, or one if there was none; the text around
    the key line is well formed when the old text is. *)
Lemma updateEnvContent_shape (t c : jsstring) :
  noLineTerminator t = true -> noPattern t = true ->
  exists pre post,
    updateEnvContent (JStr t) c = pre ++ KEY ++ t ++ post
    /\ lineComplete pre = true /\ keyLines true pre = 0
    /\ endOfLine post = true
    /\ keyLines true (pre ++ KEY ++ t ++ post) = Nat.max 1 (keyLines true c)
    /\ (toWellFormed c = c -> toWellFormed pre = pre /\ toWellFormed post = post).
Proof.
  intros Hn Ht.
  destruct (tokenRegex_exec true c) as [[[pre m] post]|] eqn:E.
  - apply tokenRegex_exec_spec in E as (v & -> & -> & Hb & Hk & Hv & Hp).
    exists pre, post. rewrite updateEnvContent_present by assumption.
    repeat split; auto.
    + rewrite !keyLines_key_line by assumption. rewrite Hk. lia.
    + now destruct (@wellFormed_key_line pre v post Hp H).
    + now destruct (@wellFormed_key_line pre v post Hp H) as (_ & _ & ?).
  - apply tokenRegex_exec_none in E.
    exists (c ++ LF), LF. rewrite (updateEnvContent_absent t c E).
    assert (Hk : keyLines true (c ++ LF) = 0)
      by (unfold LF; now rewrite keyLines_snoc_terminator).
    assert (Hl : lineComplete (c ++ LF) = true)
      by (unfold lineComplete, LF; now rewrite bolAfter_snoc).
    rewrite <- app_assoc. repeat split; auto.
    + rewrite (app_assoc c LF), keyLines_key_line by auto.
      rewrite Hk, E. reflexivity.
    + unfold LF. rewrite toWellFormed_app by reflexivity. now rewrite H.
Qed.

(** A well-formed text with a well-formed token written into it is well
    formed, so the file reads back as it was written. *)
Lemma updateEnvContent_wellFormed (t c : jsstring) :
  literalToken t = true -> toWellFormed c = c ->
  toWellFormed (updateEnvContent (JStr t) c) = updateEnvContent (JStr t) c.
Proof.
  intros Ht Hc. destruct (@literalToken_parts t Ht) as (Hn & Hp & Hw).
  destruct (@updateEnvContent_shape t c Hn Hp) as (pre & post & -> & _ & _ & He & _ & H).
  destruct (H Hc) as [H1 H2].
  rewrite toWellFormed_key_line by exact He. now rewrite H1, H2, Hw.
Qed.

(** Writing a token into the text that the file reads back as after the same
    token was written changes nothing, also for a token with unpaired
    surrogates. *)
Lemma updateEnvContent_reread (t c : jsstring) :
  noLineTerminator t = true -> noPattern t = true -> toWellFormed c = c ->
  updateEnvContent (JStr t) (toWellFormed (updateEnvContent (JStr t) c))
  = updateEnvContent (JStr t) c.
Proof.
  intros Hn Hp Hc.
  destruct (@updateEnvContent_shape t c Hn Hp) as (pre & post & -> & Hb & Hk & He & _ & H).
  destruct (H Hc) as [H1 H2].
  rewrite toWellFormed_key_line by exact He. rewrite H1, H2.
  apply updateEnvContent_present; auto.
  apply forallb_toWellFormed; [reflexivity | exact Hn].
Qed.

Transparent KEY.

Lemma saveAccessToken_regular (tok : jsval) (c : jsstring) (fs : FS) :
  env_file fs = Some (Regular c) ->
  saveAccessToken tok fs =
  (true, {| env_file := Some (Regular (updateEnvContent tok (toWellFormed c)));
            cookies_file := cookies_file fs;
            canCreate := canCreate fs |}).
Proof. intros E. unfold saveAccessToken. now rewrite E. Qed.


(** What a token file that can be read and written reads back as, after a
    token whose text the writer puts on one line as it is: the token is on
    the first key line, and no key line was added to an existing one. *)
Lemma saveAccessToken_reads_back (tok : jsval) (c0 : jsstring) (fs : FS) :
  literalToken (ToString tok) = true -> env_file fs = Some (Regular c0) ->
  exists pre post,
    readFileSync (env_file (snd (saveAccessToken tok fs)))
    = Normal (pre ++ KEY ++ ToString tok ++ post)
    /\ tokenRegex_exec true (pre ++ KEY ++ ToString tok ++ post)
       = Some (pre, KEY ++ ToString tok, post)
    /\ keyLines true (pre ++ KEY ++ ToString tok ++ post)
       = Nat.max 1 (keyLines true (toWellFormed c0)).
Proof.
  intros Lt Hfs. set (t := ToString tok) in *.
  destruct (literalToken_parts t Lt) as (Hn & Hp & Hw).
  rewrite (saveAccessToken_regular tok fs Hfs).
  cbn [snd env_file readFileSync].
  change (updateEnvContent tok (toWellFormed c0))
    with (updateEnvContent (JStr t) (toWellFormed c0)).
  rewrite (@updateEnvContent_wellFormed t _ Lt (toWellFormed_idempotent c0)).
  destruct (updateEnvContent_shape t (toWellFormed c0) Hn Hp)
    as (pre & post & -> & Hb & Hk & He & Hc & _).
  exists pre, post. split; [reflexivity|]. split; [|exact Hc].
  now apply tokenRegex_exec_found.
Qed.







(* ----------------------------------------------------------------- *)
(** ** The refresh operation and logout *)

Example refresh_success :
  let r := refreshAccessToken
             (ok200 (JObj [(str "accessToken", JStr (str "new-token"))])
                    (Some [str "refresh_token=r1; Path=/; HttpOnly";
                           str "no equals sign";
                           str "is_auth=1"]))
             exampleWorld in
  fst r = Normal (JStr (str "new-token"))
  /\ accessToken (session (snd r)) = JStr (str "new-token")
  /\ isAuthenticated (session (snd r)) = true
  /\ cookieJar (session (snd r)) =
       [{| key := str "refresh_token"; value := str "r1" |};
        {| key := str "is_auth"; value := str "1" |}]
  /\ files (snd r) =
       {| env_file := Some (Regular (str "ITD_ACCESS_TOKEN=new-token"));
          cookies_file := Some (Regular (str "refresh_token=r1; is_auth=1"));
          canCreate := true |}.
Proof. vm_compute. repeat split. Qed.

Section RefreshFacts.
Context {Jar : Type} {jarOps : CookieJar Jar}.

Lemma accepted_member (r : response) :
  truthy (opt_member (data r) "accessToken") = true ->
  member (data r) "accessToken" = Normal (opt_member (data r) "accessToken").
Proof. destruct (data r); simpl; intros; try discriminate; reflexivity. Qed.



Lemma refresh_settle_accepted (o : http_outcome) (w : World Jar) :
  refreshAccepted o = true ->
  let s1 := set_isAuthenticated true (setAccessToken (tokenOf o) (session w)) in
  let fs1 := snd (saveAccessToken (tokenOf o) (files w)) in
  refresh_settle o w =
  match cookiesOf o with
  | Some cookies =>
      let jar := mergeCookies cookies (baseUrl s1) (cookieJar s1) in
      (Normal (tokenOf o),
       {| session := set_cookieJar jar s1;
          files := persistCookies (baseUrl s1) jar fs1;
          sent := sent w |})
  | None => (Normal (tokenOf o), {| session := s1; files := fs1; sent := sent w |})
  end.
Proof.
  destruct o as [r|e]; simpl; [|discriminate]. intros Ha.
  unfold refresh_settle, refresh_try. rewrite Ha.
  apply andb_prop in Ha as [_ Ht]. rewrite (accepted_member r Ht).
  destruct (set_cookie r); reflexivity.
Qed.

Lemma refresh_settle_refused (o : http_outcome) (w : World Jar) :
  refreshAccepted o = false -> refresh_settle o w = (Normal JNull, w).
Proof.
  destruct o as [r|e]; simpl; [|reflexivity]. intros Ha.
  unfold refresh_settle, refresh_try. now rewrite Ha.
Qed.

Lemma refresh_settle_sent (o : http_outcome) (w : World Jar) :
  sent (snd (refresh_settle o w)) = sent w
  /\ baseUrl (session (snd (refresh_settle o w))) = baseUrl (session w).
Proof.
  destruct (refreshAccepted o) eqn:E.
  - rewrite (refresh_settle_accepted o w E). destruct (cookiesOf o); simpl; auto.
  - rewrite (refresh_settle_refused o w E). auto.
Qed.

Lemma mergeCookies_app (pre post : list jsstring) (u : jsstring) (jar : Jar) :
  mergeCookies (pre ++ post) u jar = mergeCookies post u (mergeCookies pre u jar).
Proof.
  revert jar. induction pre as [|c pre IH]; intros jar; simpl; [reflexivity|].
  destruct (setCookieSync c u jar); apply IH.
Qed.


End RefreshFacts.



(** C2, as the specification states it, fails: two calls of
    [refreshAccessToken] made before either request is answered are both in
    flight, and each has sent its own request to the refresh endpoint. *)
Lemma two_refreshes_in_flight :
  let r := run [Call; Call] (idle exampleWorld) in
  inFlight r = [0; 1]
  /\ refreshRoundTrips (world r) = 2
  /\ ~ refreshRoundTrips (world r) <= 1.
Proof. vm_compute. repeat split. lia. Qed.

Section RunFacts.
Context {Jar : Type} {jarOps : CookieJar Jar}.

Lemma refreshRoundTrips_send (w : World Jar) :
  refreshRoundTrips (refresh_send w) = S (refreshRoundTrips w).
Proof.
  unfold refreshRoundTrips, refresh_send. cbn [sent session].
  rewrite filter_app, length_app. simpl.
  assert (E : jsstring_eqb (refreshUrl (session w)) (refreshUrl (session w)) = true).
  { generalize (refreshUrl (session w)). intros u.
    induction u as [|x u IH]; simpl; [reflexivity|]. now rewrite N.eqb_refl. }
  rewrite E. simpl. lia.
Qed.

Lemma refreshRoundTrips_settle (o : http_outcome) (w : World Jar) :
  refreshRoundTrips (snd (refresh_settle o w)) = refreshRoundTrips w.
Proof.
  unfold refreshRoundTrips, refreshUrl.
  destruct (refresh_settle_sent o w) as [-> ->]. reflexivity.
Qed.

Lemma step_round_trips (a : action) (r : Run) :
  refreshRoundTrips (world (step a r))
  = refreshRoundTrips (world r) + (if isCall a then 1 else 0).
Proof.
  destruct a as [|id o]; simpl.
  - rewrite refreshRoundTrips_send. lia.
  - destruct (existsb (Nat.eqb id) (inFlight r)); [|lia].
    pose proof (refreshRoundTrips_settle o (world r)) as E.
    destruct (refresh_settle o (world r)) as [v w']. simpl in *. lia.
Qed.

Lemma step_started (a : action) (r : Run) :
  started (step a r) = started r + (if isCall a then 1 else 0).
Proof.
  destruct a as [|id o]; simpl; [lia|].
  destruct (existsb (Nat.eqb id) (inFlight r)); [|lia].
  destruct (refresh_settle o (world r)). simpl. lia.
Qed.

End RunFacts.

(** C2 (amended). [refreshAccessToken] has no single-flight guard: every call
    hands its own request to the refresh endpoint before it is suspended,
    whether or not another refresh is in flight. In every interleaving of
    calls and answers on one Session, the number of round trips started
    equals the number of calls made: N concurrent calls start N round
    trips. *)
Theorem refresh_round_trip_per_call {Jar : Type} {jarOps : CookieJar Jar}
    (actions : list action) (r : Run (Jar := Jar)) :
  refreshRoundTrips (world (run actions r))
  = refreshRoundTrips (world r) + List.length (filter isCall actions)
  /\ started (run actions r) = started r + List.length (filter isCall actions).
Proof.
  revert r. induction actions as [|a actions IH]; intros r; simpl; [lia|].
  destruct (IH (step a r)) as [-> ->].
  rewrite step_round_trips, step_started.
  destruct (isCall a); simpl; lia.
Qed.

(** C5. When the refresh succeeds and the answer carries [Set-Cookie] lines,
    the refresh returns the new token whatever the lines are, and every line
    is offered to the jar in turn: a line that the jar accepts is stored on
    top of what the lines before it left, a line that fails is skipped, and
    in both cases the lines after it are merged as well. *)
Theorem refresh_merges_each_cookie {Jar : Type} {jarOps : CookieJar Jar}
    (o : http_outcome) (w : World Jar) (cookies : list jsstring) :
  refreshAccepted o = true ->
  cookiesOf o = Some cookies ->
  let r := refreshAccessToken o w in
  let u := baseUrl (session w) in
  fst r = Normal (tokenOf o)
  /\ forall pre line post, cookies = pre ++ line :: post ->
       let before := mergeCookies pre u (cookieJar (session w)) in
       (forall stored, setCookieSync line u before = Normal stored ->
          cookieJar (session (snd r)) = mergeCookies post u stored)
       /\ (forall e, setCookieSync line u before = Throw e ->
          cookieJar (session (snd r)) = mergeCookies post u before).
Proof.
  intros Ha Hc r u. subst r u. unfold refreshAccessToken.
  rewrite (refresh_settle_accepted o (refresh_send w) Ha), Hc.
  cbn [fst snd session cookieJar baseUrl refresh_send set_cookieJar
       set_isAuthenticated setAccessToken].
  split; [reflexivity|]. intros pre line post ->.
  rewrite mergeCookies_app. simpl.
  split; intros x Hx; now rewrite Hx.
Qed.

(** The theorem at an answer whose second cookie line cannot be parsed: the
    first and the third line are both in the jar afterwards. *)
Lemma refresh_merges_each_cookie_witness :
  let cookies := [str "refresh_token=r1; Path=/"; str "no equals sign"; str "is_auth=1"] in
  let o := ok200 (JObj [(str "accessToken", JStr (str "new-token"))]) (Some cookies) in
  let r := refreshAccessToken o exampleWorld in
  fst r = Normal (JStr (str "new-token"))
  /\ cookieJar (session (snd r)) =
       [{| key := str "refresh_token"; value := str "r1" |};
        {| key := str "is_auth"; value := str "1" |}].
Proof.
  intros cookies o r.
  destruct (@refresh_merges_each_cookie _ ListJar o exampleWorld cookies
              eq_refl eq_refl) as [Hr Hm].
  split; [exact Hr|].
  destruct (Hm [str "refresh_token=r1; Path=/"] (str "no equals sign")
              [str "is_auth=1"] eq_refl) as [_ Hskip].
  exact (Hskip (Error "Cookie failed to parse") eq_refl).
Defined.

(** C10. [logout] returns [true] exactly when the sign-out request is
    answered with HTTP 200, and then the session is cleared: [accessToken]
    and [userData] are [null], [isAuthenticated] is [false] and the default
    [Cookie] header is empty. For any other status and for a rejected
    request it returns [false] and leaves the session unchanged. It never
    throws. *)
Theorem logout_outcomes {Jar : Type} {jarOps : CookieJar Jar}
    (o : http_outcome) (w : World Jar) :
  let r := logout o w in
  let signedOut := match o with
                   | Resolved response => Z.eqb (status response) 200
                   | Rejected _ => false
                   end in
  if signedOut then
    fst r = Normal true
    /\ accessToken (session (snd r)) = JNull
    /\ isAuthenticated (session (snd r)) = false
    /\ userData (session (snd r)) = JNull
    /\ defaultCookieHeader (session (snd r)) = JStr []
  else
    fst r = Normal false
    /\ session (snd r) = session w.
Proof.
  destruct o as [response|e]; simpl; [|auto].
  unfold logout. destruct (Z.eqb (status response) 200); simpl; auto 10.
Qed.

(* ----------------------------------------------------------------- *)
(** ** The mirror pool *)

Example load_example_mirrors :
  loadMirrorsFromFile exampleHost (JStr (str ".cookies.mirrors")) (JStr (str "/app"))
    (JObj [])
  = Throw (ReferenceError "cookiesString").
Proof. reflexivity. Qed.

Example seven_calls_on_three_accounts :
  fst (facadeRun sevenCalls
         {| pool := {| clients := [str "A"; str "B"; str "C"]; index := 0 |};
            heap := [] |})
  = map Normal [str "A"; str "B"; str "C"; str "A"; str "B"; str "C"; str "A"].
Proof. reflexivity. Qed.

Lemma mirrorConfig_throws (host : Host) (filePath projectRoot : jsval)
    (fullPath raw : jsstring) (baseOptions data : jsval) (keys : list jsstring)
    (key : jsstring) :
  exists e,
    mirrorConfig host filePath projectRoot fullPath raw baseOptions data keys key
    = Throw e.
Proof.
  unfold mirrorConfig.
  destruct (negb (truthy (JStr (toCookieString (lookup key (spread data))))));
    eexists; reflexivity.
Qed.

Lemma loadMirrorsFromFile_throws (host : Host) (filePath projectRoot : jsval)
    (baseOptions : jsval) :
  exists e, loadMirrorsFromFile host filePath projectRoot baseOptions = Throw e.
Proof.
  unfold loadMirrorsFromFile.
  destruct (mirrorsPath host filePath projectRoot) as [fullPath|e]; simpl;
    [|eexists; reflexivity].
  destruct (negb (existsSync (disk host fullPath))); [eexists; reflexivity|].
  destruct (readFileSync (disk host fullPath)) as [content|e]; simpl;
    [|eexists; reflexivity].
  destruct (JSON_parse host (trim content)) as [data|]; [|eexists; reflexivity].
  destruct data; try (eexists; reflexivity).
  destruct fields as [|[key v] fields]; simpl; [eexists; reflexivity|].
  destruct (mirrorConfig_throws host filePath projectRoot fullPath (trim content)
              baseOptions (JObj ((key, v) :: fields)) (key :: map fst fields) key)
    as [e ->].
  eexists; reflexivity.
Qed.

(** C3: on the code, construction from a mirrors file never yields a pool.
    The object literal of [loadMirrorsFromFile] names [cookiesString], where
    the variable in scope is [cookieString]; reading it raises a
    [ReferenceError] for the first account whose cookie string is not empty.
    So [createMirrorPool({ mirrorsCookiesPath })] throws for every file, and
    for the well-formed file [{"gork":"refresh_token=abc"}] it throws that
    [ReferenceError] instead of building a pool of one client. *)
Theorem createMirrorPool_from_file_throws :
  (forall (Client Heap : Type) (api : ITDClient Client Heap)
          (host : Host) (opts : list (jsstring * jsval)),
      exists e, createMirrorPool host (ArgObject opts) = Throw e)
  /\ JSON_parse exampleHost (trim mirrorsText) = Some mirrorsData
  /\ createMirrorPool (api := NamedClient) exampleHost (ArgObject exampleOptions)
     = Throw (ReferenceError "cookiesString").
Proof.
  split; [|split; reflexivity].
  intros Client Heap api host opts. unfold createMirrorPool.
  destruct (negb (truthy (lookup (str "mirrorsCookiesPath") opts)));
    [eexists; reflexivity|].
  match goal with
  | |- context [loadMirrorsFromFile ?h ?f ?r ?b] =>
      destruct (loadMirrorsFromFile_throws h f r b) as [e ->]
  end.
  eexists; reflexivity.
Qed.

Lemma jsstring_eqb_eq (a b : jsstring) : jsstring_eqb a b = true <-> a = b.
Proof.
  revert b. induction a as [|x a IH]; intros [|y b]; simpl; split;
    try congruence; try discriminate.
  - intros H. apply andb_prop in H as [E H]. apply N.eqb_eq in E.
    apply IH in H. congruence.
  - intros [= -> ->]. rewrite N.eqb_refl. now apply IH.
Qed.

Lemma manager_key_not_reserved (prop : jsstring) :
  has MANAGER_KEYS prop = true ->
  jsstring_eqb prop (str "getClient") = false
  /\ jsstring_eqb prop (str "nextClient") = false
  /\ jsstring_eqb prop (str "clients") = false
  /\ jsstring_eqb prop (str "size") = false.
Proof.
  intros H. apply existsb_exists in H as (k & Hin & He).
  apply jsstring_eqb_eq in He. subst k. unfold MANAGER_KEYS in Hin. simpl in Hin.
  repeat (destruct Hin as [<- | Hin]; [repeat split; reflexivity|]).
  contradiction.
Qed.

Section PoolFacts.
Context {Client Heap : Type} {api : ITDClient Client Heap}.

Lemma increment_below (i : N) : (i < 2 ^ 53)%N -> increment i = (i + 1)%N.
Proof. intros H. unfold increment. apply N.ltb_lt in H. now rewrite H. Qed.

Lemma nextClient_selects (cs : list Client) (i : N) (d : Client) :
  cs <> [] -> (i < 2 ^ 53)%N ->
  nextClient {| clients := cs; index := i |}
  = (Some (nth (N.to_nat i mod List.length cs) cs d),
     {| clients := cs; index := (i + 1)%N |}).
Proof.
  intros Hcs Hi. unfold nextClient. cbn [clients index].
  rewrite (increment_below Hi). f_equal.
  rewrite N2Nat.inj_mod, Nat2N.id.
  apply nth_error_nth'. apply Nat.mod_upper_bound.
  destruct cs; [congruence | discriminate].
Qed.

(** One call through the facade is served by the client at the index: it is
    that client's method that runs, and the index moves by one. *)
Lemma facade_step (call : facadeCall) (cs : list Client) (i : N) (h : Heap)
    (d : Client) :
  isMethodCall call = true -> cs <> [] -> (i < 2 ^ 53)%N ->
  let c := nth (N.to_nat i mod List.length cs) cs d in
  facade call {| pool := {| clients := cs; index := i |}; heap := h |}
  = (Normal c,
     {| pool := {| clients := cs; index := (i + 1)%N |};
        heap := servedBy c call h |}).
Proof.
  intros Hm Hcs Hi c. pose proof (nextClient_selects d Hcs Hi) as Hn. fold c in Hn.
  destruct call as [prop args | propName method args];
    unfold facade, pool_get, servedBy; cbn [pool heap clients] in *.
  - destruct (jsstring_eqb prop (str "getClient") || jsstring_eqb prop (str "nextClient")) eqn:E1.
    + unfold call_value. cbn [pool heap]. now rewrite Hn.
    + cbn [isMethodCall] in Hm. rewrite E1 in Hm. cbn [orb] in Hm.
      apply andb_prop in Hm as [Hm Hf]. apply andb_prop in Hm as [Hm Hk].
      apply andb_prop in Hm as [Hc Hs].
      apply negb_true_iff in Hc, Hs, Hk. rewrite Hc, Hs.
      destruct cs as [|ref cs']; [congruence|]. rewrite Hk, Hf.
      unfold call_value. cbn [pool heap]. now rewrite Hn.
  - cbn [isMethodCall] in Hm. apply andb_prop in Hm as [Hk Hf].
    destruct (manager_key_not_reserved _ Hk) as (E1 & E2 & E3 & E4).
    rewrite E1, E2, E3, E4. cbn [orb].
    destruct cs as [|ref cs']; [congruence|]. rewrite Hk.
    unfold makeManagerProxy_get. rewrite Hn, Hf.
    unfold call_value. cbn [pool heap]. reflexivity.
Qed.

Lemma facade_ignores_heap (call : facadeCall) (p : Pool Client) (h1 h2 : Heap) :
  fst (facade call {| pool := p; heap := h1 |})
  = fst (facade call {| pool := p; heap := h2 |})
  /\ pool (snd (facade call {| pool := p; heap := h1 |}))
     = pool (snd (facade call {| pool := p; heap := h2 |})).
Proof.
  destruct call as [prop args | propName method args]; unfold facade; cbn [pool heap].
  - destruct (pool_get prop p) as [[v|e] p']; [|split; reflexivity].
    destruct v; unfold call_value; cbn [pool heap];
      try destruct (nextClient p') as [[c|] p'']; split; reflexivity.
  - destruct (pool_get propName p) as [[v|e] p']; [|split; reflexivity].
    destruct v; try (split; reflexivity).
    destruct (makeManagerProxy_get propName0 method p') as [[v|e] p'']; [|split; reflexivity].
    destruct v; unfold call_value; cbn [pool heap];
      try destruct (nextClient p'') as [[c|] p3]; split; reflexivity.
Qed.

Lemma facadeRun_ignores_heap (calls : list facadeCall) (p : Pool Client) (h1 h2 : Heap) :
  fst (facadeRun calls {| pool := p; heap := h1 |})
  = fst (facadeRun calls {| pool := p; heap := h2 |})
  /\ pool (snd (facadeRun calls {| pool := p; heap := h1 |}))
     = pool (snd (facadeRun calls {| pool := p; heap := h2 |})).
Proof.
  revert p h1 h2. induction calls as [|call calls IH]; intros p h1 h2; simpl;
    [split; reflexivity|].
  destruct (facade_ignores_heap call p h1 h2) as [Hs Hp].
  destruct (facade call {| pool := p; heap := h1 |}) as [s1 [p1 k1]].
  destruct (facade call {| pool := p; heap := h2 |}) as [s2 [p2 k2]].
  simpl in Hs, Hp. subst s2 p2.
  destruct (IH p1 k1 k2) as [Hs' Hp'].
  destruct (facadeRun calls {| pool := p1; heap := k1 |}) as [m1 w1].
  destruct (facadeRun calls {| pool := p1; heap := k2 |}) as [m2 w2].
  simpl in *. split; congruence.
Qed.

Lemma directRun_pool (c : Client) (calls : list clientCall) (w : PoolWorld) :
  pool (directRun c calls w) = pool w.
Proof.
  revert w. induction calls as [|call calls IH]; intros w; [reflexivity|].
  change (directRun c (call :: calls) w) with (directRun c calls (direct c call w)).
  rewrite IH. now destruct call.
Qed.

(** The calls of a run from index [i] are served in round-robin order, each
    by the method of the client whose turn it is. *)
Lemma facadeRun_routes (cs : list Client) (d : Client) (calls : list facadeCall) :
  cs <> [] -> forallb isMethodCall calls = true ->
  forall (i : N) (h : Heap),
  (i + N.of_nat (List.length calls) <= 2 ^ 53)%N ->
  let r := facadeRun calls {| pool := {| clients := cs; index := i |}; heap := h |} in
  fst r = map (fun k => Normal (nth ((N.to_nat i + k) mod List.length cs) cs d))
              (seq 0 (List.length calls))
  /\ pool (snd r) = {| clients := cs; index := (i + N.of_nat (List.length calls))%N |}
  /\ heap (snd r) = routed cs d (N.to_nat i) calls h.
Proof.
  intros Hcs. induction calls as [|call calls IH]; intros Hall i h Hi.
  - simpl. rewrite N.add_0_r. repeat split; reflexivity.
  - simpl in Hall. apply andb_prop in Hall as [Hm Hall].
    cbn [List.length] in Hi. rewrite Nat2N.inj_succ in Hi.
    assert (Hlt : (i < 2 ^ 53)%N)
      by (eapply N.lt_le_trans; [|exact Hi]; lia).
    pose proof (facade_step call h d Hm Hcs Hlt) as Hstep. cbv zeta in Hstep.
    cbn [facadeRun]. rewrite Hstep.
    assert (Hi' : (i + 1 + N.of_nat (List.length calls) <= 2 ^ 53)%N)
      by (rewrite <- N.add_assoc, N.add_1_l; exact Hi).
    destruct (IH Hall (i + 1)%N
                (servedBy (nth (N.to_nat i mod List.length cs) cs d) call h) Hi')
      as (Hs & Hp & Hh).
    destruct (facadeRun calls _) as [more w'']. cbn [fst snd] in *.
    split; [|split].
    + cbn [List.length seq map]. rewrite Nat.add_0_r. f_equal.
      rewrite Hs, <- seq_shift, map_map.
      apply map_ext. intros k. do 3 f_equal. lia.
    + rewrite Hp. f_equal. cbn [List.length]. lia.
    + rewrite Hh. cbn [routed]. f_equal. lia.
Qed.

Lemma callMany_method (prop : jsstring) (args : list jsval) (cs : list Client)
    (d : Client) (n : nat) :
  cs <> [] ->
  forall (i : N) (h : Heap),
  (i + N.of_nat n <= 2 ^ 53)%N ->
  let r := callMany (MethodWrapper prop) args n
             {| pool := {| clients := cs; index := i |}; heap := h |} in
  fst r = map (fun k => Normal (nth ((N.to_nat i + k) mod List.length cs) cs d))
              (seq 0 n)
  /\ pool (snd r) = {| clients := cs; index := (i + N.of_nat n)%N |}.
Proof.
  intros Hne. induction n as [|n IH]; intros i h Hi.
  - cbn. rewrite N.add_0_r. split; reflexivity.
  - rewrite Nat2N.inj_succ in Hi.
    assert (Hlt : (i < 2 ^ 53)%N) by (eapply N.lt_le_trans; [|exact Hi]; lia).
    cbn [callMany call_value pool heap].
    rewrite (@nextClient_selects cs i d Hne Hlt).
    assert (Hi' : (i + 1 + N.of_nat n <= 2 ^ 53)%N)
      by (rewrite <- N.add_assoc, N.add_1_l; exact Hi).
    destruct (IH (i + 1)%N (callMethod (nth (N.to_nat i mod List.length cs) cs d)
                              prop args h) Hi') as [Hs Hp].
    destruct (callMany _ _ n _) as [more w'']. cbn [fst snd] in *.
    split.
    + cbn [seq map]. rewrite Nat.add_0_r. f_equal.
      rewrite Hs, <- seq_shift, map_map.
      apply map_ext. intros k. do 3 f_equal. lia.
    + rewrite Hp. f_equal. lia.
Qed.

(** A function read from a manager proxy stays bound to the client selected
    at the read: every call runs that client's method and the index stays. *)
Lemma callMany_manager (c : Client) (propName method : jsstring) (args : list jsval)
    (n : nat) (w : PoolWorld) :
  let r := callMany (ManagerMethod c propName method) args n w in
  fst r = repeat (Normal c) n /\ pool (snd r) = pool w
  /\ heap (snd r)
     = Nat.iter n (callManagerMethod c propName method args) (heap w).
Proof.
  revert w. induction n as [|n IH]; intros w; [repeat split; reflexivity|].
  cbn [callMany call_value].
  specialize (IH {| pool := pool w;
                    heap := callManagerMethod c propName method args (heap w) |}).
  destruct (callMany _ _ n _) as [more w'']. cbn [fst snd pool heap repeat] in *.
  destruct IH as (-> & -> & ->). repeat split.
  symmetry. apply Nat.iter_succ_r.
Qed.

End PoolFacts.




(** C8. A client obtained from [pool.getClient()] is a plain client: calls
    made on it, however many, leave the pool's index where it was, and the
    calls made through the facade afterwards are served by the same clients,
    and leave the same index, as if the pinned calls had not been made. *)
Theorem pinned_calls_leave_index {Client Heap : Type} {api : ITDClient Client Heap}
    (w : PoolWorld) (c : Client) (pinned : list clientCall)
    (later : list facadeCall) :
  fst (facade (PoolMethod (str "getClient") []) w) = Normal c ->
  let w1 := snd (facade (PoolMethod (str "getClient") []) w) in
  let w2 := directRun c pinned w1 in
  index (pool w2) = index (pool w1)
  /\ fst (facadeRun later w2) = fst (facadeRun later w1)
  /\ pool (snd (facadeRun later w2)) = pool (snd (facadeRun later w1)).
Proof.
  intros _ w1 w2. subst w2.
  pose proof (directRun_pool c pinned w1) as Hp.
  split; [now rewrite Hp|].
  destruct (directRun c pinned w1) as [p2 h2]. destruct w1 as [p1 h1].
  cbn [pool] in Hp. subst p2.
  apply facadeRun_ignores_heap.
Qed.

(** The theorem on a pool of three accounts: the client is pinned, five calls
    are made on it, and the seven calls that follow are served as before. *)
Lemma pinned_calls_leave_index_witness :
  let w := {| pool := {| clients := [str "A"; str "B"; str "C"]; index := 0 |};
              heap := [] |} in
  let five := [ClientMethod (str "getNotifications") [JNum 10];
               ClientMethod (str "addComment") [JStr (str "post-1"); JStr (str "reply")];
               ClientManagerMethod (str "notifications") (str "markAsRead") [];
               ClientMethod (str "getMyProfile") [];
               ClientMethod (str "getNotifications") []] in
  let w1 := snd (facade (PoolMethod (str "getClient") []) w) in
  let w2 := directRun (str "A") five w1 in
  index (pool w2) = 1%N
  /\ fst (facadeRun sevenCalls w2)
     = map Normal [str "B"; str "C"; str "A"; str "B"; str "C"; str "A"; str "B"].
Proof.
  intros w five w1 w2.
  destruct (@pinned_calls_leave_index _ _ NamedClient w (str "A") five sevenCalls
              eq_refl) as (Hi & Hs & _).
  fold w1 in Hi, Hs. fold w2 in Hi, Hs.
  split; [rewrite Hi | rewrite Hs]; reflexivity.
Defined.

(* ----------------------------------------------------------------- *)
(** ** Resource managers *)

Example search_nested_and_flat :
  search (ok200 (envelope (JObj [(str "x", JNum 1)])) None) = Normal emptySearch
  /\ search (ok200 (JObj [(str "x", JNum 1)]) None) = Normal emptySearch
  /\ search (ok200 (JObj [(str "y", JNum 1)]) None) = Normal emptySearch.
Proof. repeat split. Qed.

(** What [search] and [getFollowers] decode from a body that is an object. *)
Lemma getFollowers_object (fields : list (jsstring * jsval)) (cookies : option (list jsstring)) :
  getFollowers (ok200 (JObj fields) cookies) =
  Normal
    (let inner := lookup (str "data") fields in
     if truthy inner && truthy (opt_member inner "users") then
       JObj [(str "users", opt_member inner "users");
             (str "pagination", js_or (opt_member inner "pagination") (JObj []))]
     else if truthy (lookup (str "users") fields) then
       JObj [(str "users", lookup (str "users") fields);
             (str "pagination", js_or (lookup (str "pagination") fields) (JObj []))]
     else emptyFollowers).
Proof.
  cbv [getFollowers ok200 await try_catch bind status data Z.eqb Pos.eqb emptyFollowers].
  cbn [member]. cbv zeta.
  destruct (lookup (str "data") fields) as [| |b|z|t|items|inner];
    cbn [truthy member opt_member andb];
    try (destruct (truthy (lookup (str "users") fields)); reflexivity).
  - destruct b; cbn [truthy andb];
      destruct (truthy (lookup (str "users") fields)); reflexivity.
  - destruct (negb (Z.eqb z 0)) eqn:E; cbn [truthy andb]; rewrite ?E;
      destruct (truthy (lookup (str "users") fields)); reflexivity.
  - destruct t; cbn [truthy andb];
      destruct (truthy (lookup (str "users") fields)); reflexivity.
  - destruct (truthy (lookup (str "users") inner)); cbn [andb];
      [reflexivity | destruct (truthy (lookup (str "users") fields)); reflexivity].
Qed.

Lemma search_object (fields : list (jsstring * jsval)) (cookies : option (list jsstring)) :
  search (ok200 (JObj fields) cookies) =
  Normal
    (let inner := lookup (str "data") fields in
     if truthy inner then
       JObj [(str "users", js_or (opt_member inner "users") (JArr []));
             (str "hashtags", js_or (opt_member inner "hashtags") (JArr []))]
     else
       JObj [(str "users", js_or (lookup (str "users") fields) (JArr []));
             (str "hashtags", js_or (lookup (str "hashtags") fields) (JArr []))]).
Proof.
  cbv [search ok200 await try_catch bind status data Z.eqb Pos.eqb].
  cbn [member]. cbv zeta.
  assert (Hflat :
    match
      (if truthy (lookup (str "users") fields) then Normal JUndefined
       else Normal (lookup (str "hashtags") fields))
    with
    | Normal hashtags =>
        if truthy (lookup (str "users") fields) || truthy hashtags
        then Normal (JObj [(str "users", js_or (lookup (str "users") fields) (JArr []));
                           (str "hashtags", js_or (lookup (str "hashtags") fields) (JArr []))])
        else Normal (JObj [(str "users", JArr []); (str "hashtags", JArr [])])
    | Throw e => Throw e
    end
    = Normal (JObj [(str "users", js_or (lookup (str "users") fields) (JArr []));
                    (str "hashtags", js_or (lookup (str "hashtags") fields) (JArr []))])).
  { unfold js_or. destruct (truthy (lookup (str "users") fields));
      destruct (truthy (lookup (str "hashtags") fields)) eqn:G; cbn [truthy orb];
      rewrite ?G; reflexivity. }
  destruct (lookup (str "data") fields) as [| |b|z|t|items|inner];
    cbn [truthy member opt_member]; try (rewrite Hflat; reflexivity); try reflexivity.
  - destruct b; [reflexivity | rewrite Hflat; reflexivity].
  - destruct (negb (Z.eqb z 0)); [reflexivity | rewrite Hflat; reflexivity].
  - destruct t; [rewrite Hflat; reflexivity | reflexivity].
Qed.

(** For a payload object without a truthy [data] field of its own, the
    nested and the flat body decode to the same result. *)
Lemma search_envelope (fields : list (jsstring * jsval)) :
  truthy (lookup (str "data") fields) = false ->
  search (ok200 (envelope (JObj fields)) None) = search (ok200 (JObj fields) None).
Proof.
  intros Hd. unfold envelope. rewrite !search_object. cbv zeta. rewrite Hd.
  reflexivity.
Qed.

Lemma getFollowers_envelope (fields : list (jsstring * jsval)) :
  truthy (lookup (str "data") fields) = false ->
  getFollowers (ok200 (envelope (JObj fields)) None)
  = getFollowers (ok200 (JObj fields) None).
Proof.
  intros Hd. unfold envelope. rewrite !getFollowers_object. cbv zeta. rewrite Hd.
  change (lookup (str "data") [(str "data", JObj fields)]) with (JObj fields).
  change (lookup (str "users") [(str "data", JObj fields)]) with JUndefined.
  cbn [truthy andb opt_member].
  destruct (truthy (lookup (str "users") fields)); reflexivity.
Qed.

(** A body other than [null] never makes [search] fail. *)
Lemma search_total (body : jsval) (cookies : option (list jsstring)) :
  isNullish body = false ->
  exists fields, search (ok200 body cookies) = Normal (JObj fields).
Proof.
  intros Hb. destruct body; try discriminate;
    try (eexists; reflexivity).
  rewrite search_object. cbv zeta.
  destruct (truthy (lookup (str "data") fields)); eexists; reflexivity.
Qed.

(** The revision of [getComments] that guards its reads decodes the
    body [null] to the empty result. *)
Lemma getComments_null_body (second third : http_outcome) :
  getComments (ok200 JNull None) second third = Normal emptyComments.
Proof. reflexivity. Qed.

Lemma getComments_envelope (comments : list jsval) (second third : http_outcome) :
  let payload := JObj [(str "comments", JArr comments)] in
  getComments (ok200 (envelope payload) None) second third
  = getComments (ok200 payload None) second third.
Proof. reflexivity. Qed.

(** C7: on the code, a body that is the JSON value [null] is answered neither
    with the nested nor with the flat decoding, nor with the empty default:
    [data.data] is read without a guard, the read throws, and [search],
    [getFollowers] and [getTrending] return [null], their failure result. *)
Theorem null_body_is_a_failure :
  search (ok200 JNull None) = Normal JNull
  /\ getFollowers (ok200 JNull None) = Normal JNull
  /\ getTrending (ok200 JNull None) = Normal JNull
  /\ search (ok200 JNull None) <> Normal emptySearch
  /\ getFollowers (ok200 JNull None) <> Normal emptyFollowers
  /\ getTrending (ok200 JNull None) <> Normal emptyTrending.
Proof. repeat split; discriminate. Qed.

Lemma failing_status (r : response) :
  failing (Resolved r) = true ->
  Z.eqb (status r) 200 = false /\ Z.eqb (status r) 204 = false.
Proof.
  simpl. intros H. apply negb_true_iff in H.
  split; apply Z.eqb_neq; intros E; rewrite E in H; discriminate.
Qed.

Lemma parseResponse_total (r : response) : exists v, parseResponse r = Normal v.
Proof.
  unfold parseResponse.
  set (d := js_nullish (opt_member (data r) "data") (data r)).
  destruct d; simpl; try (eexists; reflexivity).
  destruct (truthy (lookup (str "comments") fields)); eexists; reflexivity.
Qed.

Lemma retry_failing (next : http_outcome) :
  failing next = true ->
  try_catch
    (retry <- await next ;;
     if Z.eqb (status retry) 200
     then (v <- parseResponse retry ;; Normal (Some v))
     else Normal None)
    (fun _ => Normal None) = Normal None.
Proof.
  destruct next as [r|e]; [|reflexivity]. intros H.
  apply failing_status in H as [H _]. simpl. now rewrite H.
Qed.

Lemma getComments_failing (first second third : http_outcome) :
  failing first = true -> failing second = true -> failing third = true ->
  getComments first second third = Normal emptyComments.
Proof.
  intros H1 H2 H3. unfold getComments.
  destruct first as [r1|e1].
  - apply failing_status in H1 as [H1 _]. rewrite H1.
    destruct (Z.eqb (status r1) 422); [|reflexivity].
    destruct second as [r2|e2].
    + apply failing_status in H2 as [H2 _]. now rewrite H2.
    + destruct (is422 (errorStatus e2)); [|reflexivity].
      now rewrite (retry_failing third H3).
  - destruct (is422 (errorStatus e1)); [|reflexivity].
    now rewrite (retry_failing second H2).
Qed.

Lemma try_catch_total {A} (body : completion A) (v : A) :
  exists r, try_catch body (fun _ => Normal v) = Normal r.
Proof. destruct body; eexists; reflexivity. Qed.

(** No resource method throws, whatever the answer to its request. *)
Lemma methods_never_throw {Jar : Type} (s : Session Jar) (type : jsval)
    (o second third : http_outcome) :
  (exists v, getMyProfile s o = Normal v)
  /\ (exists v, getNotifications type s o = Normal v)
  /\ (exists v, search o = Normal v)
  /\ (exists v, getFollowers o = Normal v)
  /\ (exists v, getTrending o = Normal v)
  /\ (exists b, deleteFile s o = Normal b)
  /\ (exists v, getComments o second third = Normal v).
Proof.
  repeat split.
  - unfold getMyProfile. destruct (negb (checkAuth s));
      [eexists; reflexivity | apply try_catch_total].
  - unfold getNotifications. destruct (negb (requireAuth s));
      [eexists; reflexivity | apply try_catch_total].
  - apply try_catch_total.
  - apply try_catch_total.
  - apply try_catch_total.
  - unfold deleteFile. destruct (negb (checkAuth s));
      [eexists; reflexivity | apply try_catch_total].
  - assert (Hretry : forall next e,
      exists v,
        match
          (if is422 (errorStatus e) then
             try_catch
               (retry <- await next ;;
                if Z.eqb (status retry) 200
                then (v <- parseResponse retry ;; Normal (Some v))
                else Normal None)
               (fun _ => Normal None)
           else Normal None)
        with
        | Normal (Some v) => Normal v
        | _ => Normal emptyComments
        end = Normal v).
    { intros next e. destruct (is422 (errorStatus e)); [|eexists; reflexivity].
      destruct (try_catch _ _) as [[v|]|]; eexists; reflexivity. }
    unfold getComments. destruct o as [r1|e1]; [|apply Hretry].
    destruct (Z.eqb (status r1) 200).
    { destruct (parseResponse_total r1) as [v ->]. eexists; reflexivity. }
    destruct (Z.eqb (status r1) 422); [|eexists; reflexivity].
    destruct second as [r2|e2]; [|apply Hretry].
    destruct (Z.eqb (status r2) 200); [|eexists; reflexivity].
    destruct (parseResponse_total r2) as [v ->]. eexists; reflexivity.
Qed.

Lemma member_not_nullish (v : jsval) (k : string) :
  isNullish v = false -> member v k = Normal (opt_member v k).
Proof. destruct v; cbn; intros; try discriminate; reflexivity. Qed.

(** The filter of [getUnreadNotifications] throws at the first element that
    is [null] or [undefined], and otherwise keeps the elements whose [read]
    is falsy. *)
Lemma filterUnread_spec (items : list jsval) :
  filterUnread items
  = if existsb isNullish items
    then Throw (TypeError "Cannot read properties of null or undefined")
    else Normal (filter (fun n => negb (truthy (opt_member n "read"))) items).
Proof.
  induction items as [|n items IH]; [reflexivity|].
  cbn [existsb filterUnread filter]. destruct (isNullish n) eqn:E.
  - destruct n; try discriminate; reflexivity.
  - rewrite (member_not_nullish n "read" E). cbn [orb bind]. rewrite IH.
    destruct (existsb isNullish items); [reflexivity|].
    cbn [bind]. destruct (negb (truthy (opt_member n "read"))); reflexivity.
Qed.

Lemma getNotifications_served {Jar : Type} (s : Session Jar) (r : response) :
  requireAuth s = true ->
  Z.eqb (status r) 200 = true ->
  getNotifications JNull s (Resolved r)
  = Normal (JObj [(str "notifications", JArr (notificationsOf (data r)));
                  (str "hasMore", JBool (truthy (opt_member (data r) "hasMore")))]).
Proof.
  intros Ha Hs. unfold getNotifications. rewrite Ha.
  cbn [negb await bind try_catch]. rewrite Hs. reflexivity.
Qed.

Lemma getUnreadNotifications_served {Jar : Type} (s : Session Jar) (r : response) :
  requireAuth s = true ->
  Z.eqb (status r) 200 = true ->
  getUnreadNotifications s (Resolved r)
  = (unread <- filterUnread (notificationsOf (data r)) ;;
     Normal (JObj [(str "notifications", JArr unread);
                   (str "hasMore", JBool (truthy (opt_member (data r) "hasMore")))])).
Proof.
  intros Ha Hs. unfold getUnreadNotifications.
  rewrite (getNotifications_served s r Ha Hs). reflexivity.
Qed.

Lemma getUnreadNotifications_failing {Jar : Type} (s : Session Jar) (o : http_outcome) :
  failing o = true -> getUnreadNotifications s o = Normal JNull.
Proof.
  intros Hf. unfold getUnreadNotifications, getNotifications.
  destruct (requireAuth s); [|reflexivity]. cbn [negb].
  destruct o as [r|e]; [|reflexivity].
  destruct (failing_status r Hf) as [E _]. cbn [await bind try_catch].
  now rewrite E.
Qed.

(** C9: on the code, a resource method lets an exception through that is not
    an error of construction. [getUnreadNotifications] filters the list that
    [getNotifications] returned outside any [try] block; when the endpoint
    answers 200 with a list that holds a [null], reading [n.read] throws a
    [TypeError], and the promise of the method is rejected with it. The
    sibling [getNotifications], called with a type filter on the same
    answer, reads [notif.type] inside its [try] block and returns [null].
    On a failing outcome [getUnreadNotifications] does return [null]. *)
Theorem unread_filter_is_not_absorbed :
  (forall (Jar : Type) (s : Session Jar) (r : response),
      requireAuth s = true -> status r = 200%Z ->
      existsb isNullish (notificationsOf (data r)) = true ->
      getUnreadNotifications s (Resolved r)
      = Throw (TypeError "Cannot read properties of null or undefined"))
  /\ (let o := ok200 (JObj [(str "notifications", JArr [JNull]);
                           (str "hasMore", JBool false)]) None in
      getUnreadNotifications exampleSession o
      = Throw (TypeError "Cannot read properties of null or undefined")
      /\ getNotifications (JStr (str "like")) exampleSession o = Normal JNull)
  /\ (forall (Jar : Type) (s : Session Jar) (o : http_outcome),
        failing o = true -> getUnreadNotifications s o = Normal JNull).
Proof.
  split; [|split; [split; reflexivity|]].
  - intros Jar s r Ha Hs Hn.
    rewrite (getUnreadNotifications_served s r Ha) by (rewrite Hs; reflexivity).
    now rewrite filterUnread_spec, Hn.
  - intros Jar s o. apply getUnreadNotifications_failing.
Qed.
(* ----------------------------------------------------------------- *)
(** ** Further properties of the token and cookie writers *)

(** X1. After [saveAccessToken] has written a token (a string without line
    terminator, replacement pattern and unpaired surrogate) into a [.env]
    file that can be read and written, the file reads back as a text in
    which the search that the writer itself uses finds the line
    [ITD_ACCESS_TOKEN=<token>] as its first match: what was written is what
    is found. *)
Theorem saveAccessToken_written_is_found (t c : jsstring) (fs : FS) :
  literalToken t = true ->
  env_file fs = Some (Regular c) ->
  fst (saveAccessToken (JStr t) fs) = true
  /\ exists pre post,
       readFileSync (env_file (snd (saveAccessToken (JStr t) fs)))
       = Normal (pre ++ KEY ++ t ++ post)
       /\ tokenRegex_exec true (pre ++ KEY ++ t ++ post) = Some (pre, KEY ++ t, post).
Proof.
  intros Ht Hfs. split; [now rewrite (saveAccessToken_regular (JStr t) fs Hfs)|].
  destruct (saveAccessToken_reads_back (JStr t) fs Ht Hfs) as (pre & post & Hr & Hx & _).
  now exists pre, post.
Qed.

Lemma saveAccessToken_written_is_found_witness :
  fst (saveAccessToken (JStr (str "T$1")) exampleFiles) = true
  /\ exists pre post,
       readFileSync (env_file (snd (saveAccessToken (JStr (str "T$1")) exampleFiles)))
       = Normal (pre ++ KEY ++ str "T$1" ++ post)
       /\ tokenRegex_exec true (pre ++ KEY ++ str "T$1" ++ post)
          = Some (pre, KEY ++ str "T$1", post).
Proof.
  apply (@saveAccessToken_written_is_found (str "T$1")
           (str "ITD_ACCESS_TOKEN=old-token") exampleFiles); reflexivity.
Defined.

(** X2. For a token that is a string without line terminator, replacement
    pattern and unpaired surrogate, [saveAccessToken] keeps the number of key
    lines of a [.env] file that can be read and written when there is at
    least one, and makes it one when there is none: it never adds a second
    key line and never removes one. *)
Theorem saveAccessToken_key_line_count (t c c' : jsstring) (fs : FS) :
  literalToken t = true ->
  env_file fs = Some (Regular c) ->
  readFileSync (env_file (snd (saveAccessToken (JStr t) fs))) = Normal c' ->
  keyLines true c' = Nat.max 1 (keyLines true (toWellFormed c)).
Proof.
  intros Ht Hfs Hr.
  destruct (saveAccessToken_reads_back (JStr t) fs Ht Hfs) as (pre & post & Hr' & _ & Hk).
  rewrite Hr' in Hr. injection Hr as <-. exact Hk.
Qed.

Lemma saveAccessToken_key_line_count_witness :
  keyLines true (str "A=1" ++ LF ++ str "B=2" ++ LF ++ str "ITD_ACCESS_TOKEN=T1" ++ LF)
  = Nat.max 1 (keyLines true (toWellFormed (str "A=1" ++ LF ++ str "B=2"))).
Proof.
  apply (@saveAccessToken_key_line_count (str "T1")
           (str "A=1" ++ LF ++ str "B=2")
           (str "A=1" ++ LF ++ str "B=2" ++ LF ++ str "ITD_ACCESS_TOKEN=T1" ++ LF)
           {| env_file := Some (Regular (str "A=1" ++ LF ++ str "B=2"));
              cookies_file := None; canCreate := true |}); reflexivity.
Defined.

(** X3. Writing the same token twice is the same as writing it once: for
    every state of the [.env] file (missing, unreadable, read-only or
    writable, with any number of key lines) the second [saveAccessToken]
    returns what the first returned and leaves the files as the first left
    them. *)
Theorem saveAccessToken_idempotent (t : jsstring) (fs : FS) :
  plainToken t = true ->
  saveAccessToken (JStr t) (snd (saveAccessToken (JStr t) fs))
  = saveAccessToken (JStr t) fs.
Proof.
  intros Ht. destruct fs as [[[c|c|]|] k cr]; try reflexivity.
  erewrite !(@saveAccessToken_regular (JStr t)) by reflexivity.
  cbn [snd cookies_file canCreate].
  rewrite updateEnvContent_reread;
    auto using plainToken_noLineTerminator, plainToken_noPattern,
      toWellFormed_idempotent.
Qed.

Lemma saveAccessToken_idempotent_witness :
  saveAccessToken (JStr (str "T1")) (snd (saveAccessToken (JStr (str "T1")) exampleFiles))
  = saveAccessToken (JStr (str "T1")) exampleFiles.
Proof. apply (@saveAccessToken_idempotent (str "T1") exampleFiles). reflexivity. Defined.

(** X4. [saveAccessToken] succeeds exactly when the [.env] file exists and
    can be read and written. It never creates or removes the file, never
    touches the [.cookies] file, and when it reports failure the file system
    is as it was. This holds for every value handed in as the token. *)
Theorem saveAccessToken_frame (token : jsval) (fs : FS) :
  let r := saveAccessToken token fs in
  (fst r = true <-> exists c, env_file fs = Some (Regular c))
  /\ (fst r = false -> snd r = fs)
  /\ existsSync (env_file (snd r)) = existsSync (env_file fs)
  /\ cookies_file (snd r) = cookies_file fs.
Proof.
  destruct fs as [[[c|c|]|] k cr]; cbn; repeat split; try congruence;
    try (intros [c' H]; discriminate); eauto.
Qed.

(** X5. [saveCookieHeader] overwrites. It succeeds exactly when the
    [.cookies] file can be written, or does not exist in a directory where it
    can be created. When it succeeds the file holds the header, whatever it
    held before, encoded as UTF-8: it reads back as the header with every
    unpaired surrogate replaced by U+FFFD. When it fails, nothing has
    changed. The [.env] file is never touched, and of two writes in a row
    only the last one shows. *)
Theorem saveCookieHeader_overwrites (h1 h2 : jsstring) (fs : FS) :
  let r := saveCookieHeader h2 fs in
  (fst r = true <->
   (exists c, cookies_file fs = Some (Regular c))
   \/ (cookies_file fs = None /\ canCreate fs = true))
  /\ (fst r = true ->
      cookies_file (snd r) = Some (Regular h2)
      /\ readFileSync (cookies_file (snd r)) = Normal (toWellFormed h2))
  /\ (fst r = false -> snd r = fs)
  /\ env_file (snd r) = env_file fs
  /\ saveCookieHeader h2 (snd (saveCookieHeader h1 fs)) = r.
Proof.
  destruct fs as [e [[c|c|]|] [|]]; cbn; repeat split; try congruence; eauto;
    try (intros [[c' H]|[H H']]; discriminate).
Qed.
(* ----------------------------------------------------------------- *)
(** ** Further properties of the mirror pool *)

Section PoolExtras.
Context {Client Heap : Type} {api : ITDClient Client Heap}.

Lemma nextClient_clients (p : Pool Client) :
  clients (snd (nextClient p)) = clients p.
Proof. reflexivity. Qed.

Lemma pool_get_clients (prop : jsstring) (p : Pool Client) :
  clients (snd (pool_get prop p)) = clients p.
Proof.
  unfold pool_get.
  destruct (jsstring_eqb prop (str "getClient") || jsstring_eqb prop (str "nextClient"));
    [reflexivity|].
  destruct (jsstring_eqb prop (str "clients")); [reflexivity|].
  destruct (jsstring_eqb prop (str "size")); [reflexivity|].
  destruct (clients p) as [|ref rest] eqn:E; [exact E|].
  destruct (has MANAGER_KEYS prop); [exact E|].
  destruct (isFunction prop); [exact E|].
  cbn. exact E.
Qed.

Lemma call_value_clients (v : poolValue) (args : list jsval) (w : PoolWorld) :
  clients (pool (snd (call_value v args w))) = clients (pool w).
Proof.
  destruct v; cbn; try reflexivity;
    destruct (nth_error _ _); reflexivity.
Qed.

Lemma facade_clients (call : facadeCall) (w : PoolWorld) :
  clients (pool (snd (facade call w))) = clients (pool w).
Proof.
  destruct call as [prop args | propName method args]; unfold facade.
  - pose proof (pool_get_clients prop (pool w)) as E.
    destruct (pool_get prop (pool w)) as [[v|e] p']; cbn [snd] in E.
    + rewrite call_value_clients. exact E.
    + exact E.
  - pose proof (pool_get_clients propName (pool w)) as E.
    destruct (pool_get propName (pool w)) as [[v|e] p']; cbn [snd] in E; [|exact E].
    destruct v; try exact E.
    unfold makeManagerProxy_get, nextClient.
    destruct (nth_error _ _); [|exact E].
    destruct (isManagerFunction propName0 method); cbn; exact E.
Qed.

Lemma facadeRun_clients (calls : list facadeCall) (w : PoolWorld) :
  clients (pool (snd (facadeRun calls w))) = clients (pool w).
Proof.
  revert w. induction calls as [|call calls IH]; intros w; [reflexivity|].
  cbn [facadeRun]. pose proof (facade_clients call w) as E.
  destruct (facade call w) as [s w']. specialize (IH w').
  destruct (facadeRun calls w') as [more w'']. cbn [snd] in *. congruence.
Qed.

Lemma getClient_member (w : PoolWorld) :
  clients (pool w) <> [] ->
  exists c, fst (facade (PoolMethod (str "getClient") []) w) = Normal c
            /\ In c (clients (pool w)).
Proof.
  intros Hne. unfold facade. cbn. unfold nextClient.
  destruct (nth_error (clients (pool w)) _) as [c|] eqn:E.
  - exists c. split; [reflexivity|]. eapply nth_error_In; eauto.
  - exfalso. apply nth_error_None in E.
    rewrite N2Nat.inj_mod, Nat2N.id in E.
    assert (List.length (clients (pool w)) <> 0)
      by (destruct (clients (pool w)); [congruence | discriminate]).
    pose proof (Nat.mod_upper_bound (N.to_nat (index (pool w)))
                  (List.length (clients (pool w))) H). lia.
Qed.

End PoolExtras.

(** X6. Whatever is handed to [createMirrorPool], a pool that it returns has
    at least one client and its index at 0; call expressions through the
    facade ([pool.prop(...)] and [pool.manager.method(...)] for the manager
    keys), of any kind and in any number, never add, remove or reorder the
    clients, and [getClient] always returns one of them. (The array that
    [pool.clients] hands out is the pool's own, so a caller can change the
    clients by changing that array; such calls are not calls through the
    facade.) *)
Theorem created_pool_keeps_clients {Client Heap : Type} {api : ITDClient Client Heap}
    (host : Host) (arg : poolArg Client) (p : Pool Client)
    (calls : list facadeCall) (h : Heap) :
  createMirrorPool host arg = Normal p ->
  forallb throughFacade calls = true ->
  clients p <> [] /\ index p = 0%N
  /\ let w := snd (facadeRun calls {| pool := p; heap := h |}) in
     clients (pool w) = clients p
     /\ exists c, fst (facade (PoolMethod (str "getClient") []) w) = Normal c
                  /\ In c (clients p).
Proof.
  intros Hc _.
  assert (Hp : clients p <> [] /\ index p = 0%N).
  { unfold createMirrorPool in Hc. destruct arg as [configs|opts|v].
    - destruct configs as [|c configs]; [discriminate|].
      cbn in Hc. injection Hc as <-. split; [discriminate | reflexivity].
    - exfalso.
      destruct (negb (truthy (lookup (str "mirrorsCookiesPath") opts)));
        [discriminate|].
      match type of Hc with
      | context [loadMirrorsFromFile ?a ?b ?c ?d] =>
          destruct (loadMirrorsFromFile_throws a b c d) as [e He];
          rewrite He in Hc
      end.
      discriminate.
    - discriminate. }
  destruct Hp as [Hne Hi]. repeat split; auto.
  - apply (facadeRun_clients calls {| pool := p; heap := h |}).
  - pose proof (facadeRun_clients calls {| pool := p; heap := h |}) as E.
    cbn [pool] in E.
    destruct (@getClient_member _ _ api (snd (facadeRun calls {| pool := p; heap := h |})))
      as (c & Hs & Hin); [now rewrite E|].
    exists c. split; [exact Hs | now rewrite <- E].
Qed.

Lemma created_pool_keeps_clients_witness :
  let p := {| clients := [str "A"; str "B"]; index := 0 |} in
  clients p <> [] /\ index p = 0%N
  /\ let w := snd (facadeRun sevenCalls {| pool := p; heap := [] |}) in
     clients (pool w) = clients p
     /\ exists c, fst (facade (PoolMethod (str "getClient") []) w) = Normal c
                  /\ In c (clients p).
Proof.
  intros p.
  apply (@created_pool_keeps_clients _ _ NamedClient exampleHost
           (ArgArray [AClient (str "A"); AClient (str "B")]) p sevenCalls []);
    reflexivity.
Defined.

Section Rotation.
Context {A : Type}.

(** Reading a list round from position [r] gives the list rotated by [r]. *)
Lemma rotation (cs : list A) (d : A) (r : nat) :
  r < List.length cs ->
  map (fun k => nth ((r + k) mod List.length cs) cs d) (seq 0 (List.length cs))
  = skipn r cs ++ firstn r cs.
Proof.
  intros Hr. set (n := List.length cs) in *.
  apply nth_ext with (d := d) (d' := d).
  - rewrite length_map, length_seq, length_app, length_skipn, length_firstn. lia.
  - intros j Hj. rewrite length_map, length_seq in Hj.
    rewrite (nth_indep _ d (nth ((r + 0) mod n) cs d))
      by (rewrite length_map, length_seq; exact Hj).
    rewrite (map_nth (fun k => nth ((r + k) mod n) cs d)), seq_nth by exact Hj.
    cbn [plus].
    destruct (Nat.lt_ge_cases (r + j) n) as [Hlt|Hge].
    + rewrite Nat.mod_small by exact Hlt.
      rewrite app_nth1 by (rewrite length_skipn; fold n; lia).
      now rewrite nth_skipn.
    + replace ((r + j) mod n) with (r + j - n).
      * rewrite app_nth2 by (rewrite length_skipn; fold n; lia).
        rewrite length_skipn. fold n.
        rewrite nth_firstn.
        replace (j - (n - r)) with (r + j - n) by lia.
        assert (E : (r + j - n <? r) = true) by (apply Nat.ltb_lt; lia).
        now rewrite E.
      * symmetry. rewrite <- (Nat.mod_small (r + j - n) n) by lia.
        replace (r + j) with ((r + j - n) + 1 * n) at 1 by lia.
        apply Nat.Div0.mod_add.
Qed.

End Rotation.

(** X7. Round robin is fair: from any index, as many method calls through
    the facade as the pool has clients are served by the clients in pool
    order, rotated to start at the index, each call by the method of the
    client whose turn it is: every client serves exactly once in every such
    window. (The index counts exactly below 2^53.) *)
Theorem facade_window_is_rotation {Client Heap : Type} {api : ITDClient Client Heap}
    (cs : list Client) (d : Client) (i : N) (h : Heap) (calls : list facadeCall) :
  cs <> [] ->
  List.length calls = List.length cs ->
  forallb isMethodCall calls = true ->
  (i + N.of_nat (List.length calls) <= 2 ^ 53)%N ->
  let r := N.to_nat i mod List.length cs in
  let w := facadeRun calls {| pool := {| clients := cs; index := i |}; heap := h |} in
  fst w = map Normal (skipn r cs ++ firstn r cs)
  /\ heap (snd w)
     = fold_left (fun h' served => servedBy (fst served) (snd served) h')
         (combine (skipn r cs ++ firstn r cs) calls) h.
Proof.
  intros Hne Hlen Hall Hi r w. subst w.
  destruct (@facadeRun_routes _ _ _ cs d calls Hne Hall i h Hi) as (Hs & _ & Hh).
  assert (Hr : r < List.length cs).
  { apply Nat.mod_upper_bound. destruct cs; [congruence | discriminate]. }
  assert (Hrot : map (fun k => nth ((N.to_nat i + k) mod List.length cs) cs d)
                     (seq 0 (List.length calls))
                 = skipn r cs ++ firstn r cs).
  { rewrite Hlen, <- (rotation cs d Hr). apply map_ext. intros k.
    subst r. now rewrite Nat.Div0.add_mod_idemp_l. }
  split.
  - rewrite Hs, <- Hrot, map_map. reflexivity.
  - rewrite Hh, <- Hrot. clear.
    generalize (N.to_nat i) as k. revert h.
    induction calls as [|call calls IH]; intros h k; [reflexivity|].
    cbn [routed List.length seq map combine fold_left fst snd].
    rewrite Nat.add_0_r, IH. rewrite <- seq_shift, map_map.
    do 2 f_equal. apply map_ext. intros j. do 2 f_equal. lia.
Qed.

Lemma facade_window_is_rotation_witness :
  let w := facadeRun [PoolMethod (str "getMyProfile") [];
                      PoolMethod (str "getClient") [];
                      PoolManagerMethod (str "notifications") (str "markAsRead") []]
             {| pool := {| clients := [str "A"; str "B"; str "C"]; index := 7 |};
                heap := [] |} in
  fst w = map Normal [str "B"; str "C"; str "A"]
  /\ heap (snd w) = [(str "B", str "getMyProfile");
                     (str "A", str "notifications.markAsRead")].
Proof.
  apply (@facade_window_is_rotation _ _ NamedClient
           [str "A"; str "B"; str "C"] (str "A") 7%N []
           [PoolMethod (str "getMyProfile") [];
            PoolMethod (str "getClient") [];
            PoolManagerMethod (str "notifications") (str "markAsRead") []]);
    [discriminate | reflexivity | reflexivity | vm_compute; discriminate].
Defined.

(** X8. What a read through the pool does, by the kind of property. Reading a
    method ([const f = pool.getMyProfile]) takes no turn, and each later call
    of [f] takes the next client in turn. Reading a method of a manager
    ([const g = pool.posts.create]) takes a turn at the read: [g] is bound to
    the client selected then, and every later call of [g] is served by that
    same client without moving the index. Reading any other property that is
    not [size], [clients], [getClient], [nextClient] or a manager takes a
    turn as well, and yields the property of the client selected. *)
Theorem reads_and_turns {Client Heap : Type} {api : ITDClient Client Heap}
    (cs : list Client) (d : Client) (i : N) (h : Heap)
    (prop propName method other : jsstring) (args : list jsval) (n : nat) :
  cs <> [] ->
  (i + 1 + N.of_nat n <= 2 ^ 53)%N ->
  isMethodCall (PoolMethod prop args) = true ->
  jsstring_eqb prop (str "getClient") || jsstring_eqb prop (str "nextClient") = false ->
  isMethodCall (PoolManagerMethod propName method args) = true ->
  readsWithoutTurn other = false ->
  let p := {| clients := cs; index := i |} in
  let p1 := {| clients := cs; index := (i + 1)%N |} in
  let c := nth (N.to_nat i mod List.length cs) cs d in
  (pool_get prop p = (Normal (MethodWrapper prop), p)
   /\ let r := callMany (MethodWrapper prop) args n {| pool := p; heap := h |} in
      fst r = map (fun k => Normal (nth ((N.to_nat i + k) mod List.length cs) cs d))
                  (seq 0 n)
      /\ pool (snd r) = {| clients := cs; index := (i + N.of_nat n)%N |})
  /\ (pool_get propName p = (Normal (ManagerProxy propName), p)
      /\ makeManagerProxy_get propName method p
         = (Normal (ManagerMethod c propName method), p1)
      /\ let r := callMany (ManagerMethod c propName method) args n
                    {| pool := p1; heap := h |} in
         fst r = repeat (Normal c) n /\ pool (snd r) = p1)
  /\ pool_get other p = (Normal (ClientProperty (Some c) other), p1).
Proof.
  intros Hne Hi Hm Hres Hg Ho p p1 c.
  assert (Hlt : (i < 2 ^ 53)%N) by (eapply N.lt_le_trans; [|exact Hi]; lia).
  assert (Hn : (i + N.of_nat n <= 2 ^ 53)%N) by (eapply N.le_trans; [|exact Hi]; lia).
  pose proof (@nextClient_selects _ cs i d Hne Hlt) as Hnext.
  destruct cs as [|ref cs']; [congruence|].
  split; [|split].
  - cbn [isMethodCall] in Hm. rewrite Hres in Hm. cbn [orb] in Hm.
    apply andb_prop in Hm as [Hm Hf]. apply andb_prop in Hm as [Hm Hk].
    apply andb_prop in Hm as [Hc Hs]. apply negb_true_iff in Hc, Hs, Hk.
    split.
    + unfold pool_get. rewrite Hres, Hc, Hs. cbn [clients p]. now rewrite Hk, Hf.
    + now apply callMany_method.
  - cbn [isMethodCall] in Hg. apply andb_prop in Hg as [Hk Hf].
    destruct (manager_key_not_reserved _ Hk) as (E1 & E2 & E3 & E4).
    split; [|split].
    + unfold pool_get. rewrite E1, E2, E3, E4. cbn [orb clients p]. now rewrite Hk.
    + unfold makeManagerProxy_get. subst p. rewrite Hnext. now rewrite Hf.
    + destruct (callMany_manager c propName method args n
                  {| pool := p1; heap := h |}) as (H1 & H2 & _).
      split; assumption.
  - unfold readsWithoutTurn in Ho.
    apply orb_false_elim in Ho as [Ho Hf]. apply orb_false_elim in Ho as [Ho Hk].
    apply orb_false_elim in Ho as [Ho Hs]. apply orb_false_elim in Ho as [Ho Hc].
    unfold pool_get. rewrite Ho, Hc, Hs. cbn [clients p]. rewrite Hk, Hf.
    subst p. now rewrite Hnext.
Qed.

Lemma reads_and_turns_witness :
  let cs := [str "A"; str "B"; str "C"] in
  let p := {| clients := cs; index := 4 |} in
  let p1 := {| clients := cs; index := 5 |} in
  (pool_get (str "getMyProfile") p = (Normal (MethodWrapper (str "getMyProfile")), p)
   /\ let r := callMany (MethodWrapper (str "getMyProfile")) [] 3
                 {| pool := p; heap := [] |} in
      fst r = map Normal [str "B"; str "C"; str "A"]
      /\ pool (snd r) = {| clients := cs; index := 7 |})
  /\ (pool_get (str "notifications") p = (Normal (ManagerProxy (str "notifications")), p)
      /\ makeManagerProxy_get (str "notifications") (str "markAsRead") p
         = (Normal (ManagerMethod (str "B") (str "notifications") (str "markAsRead")), p1)
      /\ let r := callMany (ManagerMethod (str "B") (str "notifications") (str "markAsRead"))
                    [] 3 {| pool := p1; heap := [] |} in
         fst r = repeat (Normal (str "B")) 3 /\ pool (snd r) = p1)
  /\ pool_get (str "baseUrl") p = (Normal (ClientProperty (Some (str "B")) (str "baseUrl")), p1).
Proof.
  intros cs p p1.
  apply (@reads_and_turns _ _ NamedClient cs (str "A") 4%N []
           (str "getMyProfile") (str "notifications") (str "markAsRead")
           (str "baseUrl") [] 3);
    [discriminate | vm_compute; discriminate | reflexivity | reflexivity
     | reflexivity | reflexivity].
Defined.

(* ----------------------------------------------------------------- *)
(** ** Cookie strings of the mirrors file *)

Lemma trimStart_nil_iff (s : jsstring) :
  trimStart s = [] <-> forallb isTrimmable s = true.
Proof.
  induction s as [|c s IH]; cbn; [tauto|].
  destruct (isTrimmable c); cbn; [exact IH | split; discriminate].
Qed.

Lemma forallb_rev {A} (f : A -> bool) (l : list A) :
  forallb f (rev l) = forallb f l.
Proof.
  induction l as [|x l IH]; [reflexivity|].
  cbn. rewrite forallb_app, IH. cbn. rewrite andb_true_r. apply andb_comm.
Qed.

Lemma trimStart_all (s : jsstring) :
  forallb isTrimmable (trimStart s) = forallb isTrimmable s.
Proof.
  induction s as [|c s IH]; [reflexivity|].
  cbn. destruct (isTrimmable c) eqn:E; cbn; [exact IH | now rewrite E].
Qed.

Lemma trim_nil_iff (s : jsstring) :
  trim s = [] <-> forallb isTrimmable s = true.
Proof.
  unfold trim. rewrite <- trimStart_all, <- forallb_rev, <- trimStart_nil_iff.
  split.
  - intros H. apply (f_equal (@rev N)) in H. now rewrite rev_involutive in H.
  - intros ->. reflexivity.
Qed.

Lemma join_nil (sep : jsstring) (parts : list jsstring) :
  Forall (fun p => p <> []) parts -> join sep parts = [] -> parts = [].
Proof.
  intros Hall Hj. destruct parts as [|p rest]; [reflexivity|].
  inversion Hall as [|? ? Hp _]; subst. exfalso.
  destruct rest; cbn in Hj; [congruence|].
  apply app_eq_nil in Hj as [Hj _]. congruence.
Qed.

Lemma forallb_pointwise {A} (f g : A -> bool) (l : list A) :
  (forall x, f x = g x) -> forallb f l = forallb g l.
Proof. intros E. induction l as [|x l IH]; cbn; [reflexivity | now rewrite E, IH]. Qed.

Lemma filter_nil_iff {A} (f : A -> bool) (l : list A) :
  filter f l = [] <-> forallb (fun x => negb (f x)) l = true.
Proof.
  induction l as [|x l IH]; cbn; [tauto|].
  destruct (f x); cbn; [split; discriminate | exact IH].
Qed.

(** X9. [toCookieString] gives the empty string, for which
    [loadMirrorsFromFile] refuses the account, exactly in these cases: a
    string of white space only; an object (or array) all of whose values are
    [null] or the empty string; and any other value. So one usable value in
    an object is enough, and a value such as [0] or [false] counts as
    usable. *)
Theorem toCookieString_empty_iff (val : jsval) :
  toCookieString val = [] <->
  match val with
  | JStr s => forallb isTrimmable s = true
  | JObj _ | JArr _ =>
      forallb (fun kv => isNullish (snd kv) || isEmptyString (snd kv)) (entries val)
      = true
  | _ => True
  end.
Proof.
  assert (Hobj : forall es : list (jsstring * jsval),
    join (str "; ")
      (map (fun kv => fst kv ++ str "=" ++ ToString (snd kv))
         (filter (fun kv => negb (isNullish (snd kv)) && negb (isEmptyString (snd kv))) es))
    = [] <->
    forallb (fun kv => isNullish (snd kv) || isEmptyString (snd kv)) es = true).
  { intros es. rewrite <- (forallb_pointwise
      (fun kv => negb (negb (isNullish (snd kv)) && negb (isEmptyString (snd kv)))))
      by (intros kv; now rewrite negb_andb, !negb_involutive).
    rewrite <- filter_nil_iff. split.
    - intros Hj. apply join_nil in Hj.
      + now apply map_eq_nil in Hj.
      + apply Forall_forall. intros p Hin. apply in_map_iff in Hin as (kv & <- & _).
        intros E. apply app_eq_nil in E as [_ E]. discriminate.
    - intros ->. reflexivity. }
  destruct val; cbn [toCookieString]; try tauto.
  - apply trim_nil_iff.
  - apply Hobj.
  - apply Hobj.
Qed.

(** X10. The object form of a mirrors entry and the header that a refresh
    writes to the [.cookies] file agree: for cookies with non-empty values
    whose names are distinct and none of them an array index (so that an
    object lists them in the order given), [toCookieString] of the object
    [{ name: value, ... }] is the header [name=value; ...] that
    [refreshAccessToken] builds from the same cookies in the same order. *)
Theorem toCookieString_is_cookie_header (cs : list cookie) :
  listedInOrder (map key cs) = true ->
  Forall (fun c => value c <> []) cs ->
  toCookieString (JObj (map (fun c => (key c, JStr (value c))) cs)) = cookieHeaderOf cs.
Proof.
  intros _ Hall. unfold toCookieString, cookieHeaderOf, entries. f_equal.
  induction cs as [|c cs IH]; [reflexivity|].
  inversion Hall as [|? ? Hc Hcs]; subst. cbn.
  destruct (value c) eqn:E; [congruence|]. cbn. rewrite <- E. f_equal.
  now apply IH.
Qed.

Lemma toCookieString_is_cookie_header_witness :
  toCookieString (JObj [(str "refresh_token", JStr (str "r1")); (str "is_auth", JStr (str "1"))])
  = str "refresh_token=r1; is_auth=1".
Proof.
  apply (@toCookieString_is_cookie_header
           [{| key := str "refresh_token"; value := str "r1" |};
            {| key := str "is_auth"; value := str "1" |}]);
    [reflexivity | repeat constructor; discriminate].
Defined.
(* ----------------------------------------------------------------- *)
(** ** Further properties of the session *)

Lemma saveAccessToken_cookies (token : jsval) (fs : FS) :
  cookies_file (snd (saveAccessToken token fs)) = cookies_file fs.
Proof. destruct fs as [[[c|c|]|] k cr]; reflexivity. Qed.

(** X11. A successful [logout] closes the gate: afterwards [checkAuth] and
    [requireAuth] are false, and the methods that check them return their
    sentinel whatever the network would answer. *)
Theorem logout_closes_gate {Jar : Type} {jarOps : CookieJar Jar}
    (r : response) (w : World Jar) (type : jsval) (any : http_outcome) :
  status r = 200%Z ->
  let s := session (snd (logout (Resolved r) w)) in
  checkAuth s = false /\ requireAuth s = false
  /\ getMyProfile s any = Normal JNull
  /\ getNotifications type s any = Normal JNull
  /\ deleteFile s any = Normal false.
Proof.
  intros Hs. unfold logout. rewrite Hs. cbn. repeat split.
Qed.

Lemma logout_closes_gate_witness :
  let s := session (snd (logout (ok200 JNull None) exampleWorld)) in
  let any := ok200 (JObj [(str "id", JNum 7)]) None in
  checkAuth s = false /\ requireAuth s = false
  /\ getMyProfile s any = Normal JNull
  /\ getNotifications JNull s any = Normal JNull
  /\ deleteFile s any = Normal false.
Proof.
  intros s any.
  apply (@logout_closes_gate _ ListJar
           {| status := 200; data := JNull; set_cookie := None |}
           exampleWorld JNull any).
  reflexivity.
Defined.

(** X12. A successful refresh opens the gate, also after a logout: when the
    refresh endpoint answers 200 with a truthy token, [checkAuth] and
    [requireAuth] hold afterwards whatever the session was, and
    [getMyProfile] hands out the body of a 200 answer. *)
Theorem refresh_opens_gate {Jar : Type} {jarOps : CookieJar Jar}
    (o : http_outcome) (w : World Jar) (body : jsval) :
  refreshAccepted o = true ->
  let s := session (snd (refreshAccessToken o w)) in
  checkAuth s = true /\ requireAuth s = true
  /\ getMyProfile s (ok200 body None) = Normal body.
Proof.
  intros Ha s. subst s. unfold refreshAccessToken.
  rewrite (refresh_settle_accepted o (refresh_send w) Ha).
  assert (Ht : truthy (tokenOf o) = true).
  { destruct o as [r|e]; [|discriminate]. cbn in *.
    now apply andb_prop in Ha as [_ Ha]. }
  unfold getMyProfile, checkAuth, requireAuth.
  destruct (cookiesOf o); cbn; rewrite Ht; repeat split.
Qed.

Lemma refresh_opens_gate_witness :
  let loggedOut := snd (logout (ok200 JNull None) exampleWorld) in
  let o := ok200 (JObj [(str "accessToken", JStr (str "new-token"))]) None in
  let s := session (snd (refreshAccessToken o loggedOut)) in
  checkAuth s = true /\ requireAuth s = true
  /\ getMyProfile s (ok200 (JObj [(str "id", JNum 7)]) None)
     = Normal (JObj [(str "id", JNum 7)]).
Proof.
  intros loggedOut o s.
  apply (@refresh_opens_gate _ ListJar o loggedOut (JObj [(str "id", JNum 7)])).
  reflexivity.
Defined.

(** X13. A refresh never writes anything but the important cookies to the
    [.cookies] file. After [refreshAccessToken] the file is either as it
    was, or it holds exactly the header of the cookies of the jar that are
    named [refresh_token], [is_auth] or start with [__ddg], of which there
    is at least one; and without a [Set-Cookie] header in the answer neither
    the jar nor the file changes. *)
Theorem refresh_cookie_file {Jar : Type} {jarOps : CookieJar Jar}
    (o : http_outcome) (w : World Jar) :
  let w' := snd (refreshAccessToken o w) in
  (cookiesOf o = None ->
     cookieJar (session w') = cookieJar (session w)
     /\ cookies_file (files w') = cookies_file (files w))
  /\ (cookies_file (files w') = cookies_file (files w)
      \/ exists allCookies,
           getCookiesSync (baseUrl (session w)) (cookieJar (session w')) = Normal allCookies
           /\ filter isImportantCookie allCookies <> []
           /\ cookies_file (files w')
              = Some (Regular (cookieHeaderOf (filter isImportantCookie allCookies)))).
Proof.
  unfold refreshAccessToken. destruct (refreshAccepted o) eqn:Ha.
  - rewrite (refresh_settle_accepted o (refresh_send w) Ha).
    destruct (cookiesOf o) as [cookies|]; cbn [snd session files cookieJar baseUrl
      refresh_send set_cookieJar set_isAuthenticated setAccessToken].
    + split; [discriminate|].
      set (jar := mergeCookies cookies (baseUrl (session w)) (cookieJar (session w))).
      unfold persistCookies.
      destruct (getCookiesSync (baseUrl (session w)) jar) as [allCookies|e] eqn:G;
        [|left; apply saveAccessToken_cookies].
      destruct (filter isImportantCookie allCookies) as [|c cs] eqn:F;
        [left; apply saveAccessToken_cookies|].
      cbn [List.length Nat.ltb Nat.leb].
      pose proof (saveAccessToken_cookies (tokenOf o) (files w)) as Hk.
      destruct (snd (saveAccessToken (tokenOf o) (files w))) as [e0 k0 cr0].
      cbn [cookies_file] in Hk. subst k0.
      destruct (cookies_file (files w)) as [[x|x|]|] eqn:K; [| | |destruct cr0];
        cbn; rewrite ?K;
        try (left; reflexivity);
        right; exists allCookies; rewrite F; repeat split; congruence.
    + split; [intros _; split; [reflexivity | apply saveAccessToken_cookies]|].
      left. apply saveAccessToken_cookies.
  - rewrite (refresh_settle_refused o (refresh_send w) Ha). cbn. tauto.
Qed.

Section RaceFacts.
Context {Jar : Type} {jarOps : CookieJar Jar}.

Lemma run_app (a b : list action) (r : Run (Jar := Jar)) :
  run (a ++ b) r = run b (run a r).
Proof. apply fold_left_app. Qed.

End RaceFacts.

(** X14. Refreshes in flight race: whenever the answer to a call in flight
    settles with a truthy token, that token becomes the session's token and
    the session is marked authenticated, whatever earlier answers installed,
    also the answer to a call that was started later. The token of the
    session is the one of the answer that arrived last, not the one of the
    call that was made last. *)
Theorem late_answer_overrides {Jar : Type} {jarOps : CookieJar Jar}
    (actions : list action) (r : Run (Jar := Jar)) (id : nat) (o : http_outcome) :
  In id (inFlight (run actions r)) ->
  refreshAccepted o = true ->
  let r' := run (actions ++ [Settle id o]) r in
  accessToken (session (world r')) = tokenOf o
  /\ isAuthenticated (session (world r')) = true
  /\ In (id, Normal (tokenOf o)) (returned r')
  /\ ~ In id (inFlight r').
Proof.
  intros Hin Ha r'. subst r'. rewrite run_app. cbn [run fold_left step].
  set (r0 := run actions r) in *.
  assert (E : existsb (Nat.eqb id) (inFlight r0) = true).
  { apply existsb_exists. exists id. split; [exact Hin | apply Nat.eqb_refl]. }
  rewrite E, (refresh_settle_accepted o (world r0) Ha).
  destruct (cookiesOf o); cbn; repeat split;
    try (apply in_or_app; right; left; reflexivity);
    intros H; apply filter_In in H as [_ H]; now rewrite Nat.eqb_refl in H.
Qed.

Lemma late_answer_overrides_witness :
  let newer := ok200 (JObj [(str "accessToken", JStr (str "token-of-call-1"))]) None in
  let older := ok200 (JObj [(str "accessToken", JStr (str "token-of-call-0"))]) None in
  let r' := run ([Call; Call; Settle 1 newer] ++ [Settle 0 older]) (idle exampleWorld) in
  accessToken (session (world r')) = JStr (str "token-of-call-0")
  /\ isAuthenticated (session (world r')) = true
  /\ In (0, Normal (JStr (str "token-of-call-0"))) (returned r')
  /\ ~ In 0 (inFlight r').
Proof.
  intros newer older.
  apply (@late_answer_overrides _ ListJar [Call; Call; Settle 1 newer]
           (idle exampleWorld) 0 older); [left; reflexivity | reflexivity].
Defined.

(* ----------------------------------------------------------------- *)
(** ** Further properties of the resource methods *)

(** X15. [getStatus], [submit] and [getFile] unwrap the envelope with [??]:
    for a payload that is not [null] and has no [data] member of its own, the
    body [{ data: payload }] and the body [payload] both give the payload;
    and the body [null] gives [null] without an exception. *)
Theorem envelope_unwrapped {Jar : Type} (s : Session Jar) (payload : jsval) :
  checkAuth s = true ->
  isNullish payload = false ->
  isNullish (opt_member payload "data") = true ->
  (getStatus s (ok200 (envelope payload) None) = Normal payload
   /\ getStatus s (ok200 payload None) = Normal payload
   /\ getStatus s (ok200 JNull None) = Normal JNull)
  /\ (submit s (ok200 (envelope payload) None) = Normal payload
      /\ submit s (ok200 payload None) = Normal payload
      /\ submit s (ok200 JNull None) = Normal JNull)
  /\ (getFile s (ok200 (envelope payload) None) = Normal payload
      /\ getFile s (ok200 payload None) = Normal payload
      /\ getFile s (ok200 JNull None) = Normal JNull).
Proof.
  intros Ha Hp Hd. unfold getStatus, submit, getFile. rewrite Ha.
  cbn [negb ok200 await bind try_catch status data Z.eqb Pos.eqb orb].
  assert (E1 : js_nullish (opt_member (envelope payload) "data") (envelope payload)
               = payload).
  { change (opt_member (envelope payload) "data") with payload.
    unfold js_nullish. now rewrite Hp. }
  assert (E2 : js_nullish (opt_member payload "data") payload = payload).
  { unfold js_nullish. now rewrite Hd. }
  rewrite E1, E2. repeat split.
Qed.

Lemma envelope_unwrapped_witness :
  let payload := JObj [(str "status", JStr (str "pending"))] in
  (getStatus exampleSession (ok200 (envelope payload) None) = Normal payload
   /\ getStatus exampleSession (ok200 payload None) = Normal payload
   /\ getStatus exampleSession (ok200 JNull None) = Normal JNull)
  /\ (submit exampleSession (ok200 (envelope payload) None) = Normal payload
      /\ submit exampleSession (ok200 payload None) = Normal payload
      /\ submit exampleSession (ok200 JNull None) = Normal JNull)
  /\ (getFile exampleSession (ok200 (envelope payload) None) = Normal payload
      /\ getFile exampleSession (ok200 payload None) = Normal payload
      /\ getFile exampleSession (ok200 JNull None) = Normal JNull).
Proof.
  intros payload.
  apply (@envelope_unwrapped _ exampleSession payload); reflexivity.
Defined.

Lemma js_or_truthy (v d : jsval) : truthy d = true -> truthy (js_or v d) = true.
Proof. intros H. unfold js_or. destruct (truthy v) eqn:E; [exact E | exact H]. Qed.

(** X16. [unfollowUser] and [markAsRead] never throw, and their result is
    truthy exactly when the session passes the authentication check and the
    request is answered with status 200 or 204, whatever the body of the
    answer (an empty body is replaced by a default object): a caller can
    tell success from failure by the truth value of the result. *)
Theorem result_truthy_iff_done {Jar : Type} (s : Session Jar) (o : http_outcome) :
  exists v w,
    unfollowUser s o = Normal v /\ markAsRead s o = Normal w
    /\ truthy v = checkAuth s && done o
    /\ truthy w = requireAuth s && done o.
Proof.
  unfold unfollowUser, markAsRead, requireAuth, checkAuth.
  destruct (truthy (accessToken s) || isAuthenticated s); cbn [negb andb].
  - destruct o as [r|e]; cbn [await bind try_catch done].
    + destruct (Z.eqb (status r) 200 || Z.eqb (status r) 204).
      * do 2 eexists. repeat split; now apply js_or_truthy.
      * do 2 eexists. repeat split.
    + do 2 eexists. repeat split.
  - do 2 eexists. repeat split.
Qed.

(** X17. For an authenticated session, [markAsReadBatch] called with
    anything but a non-empty array answers [{ success: true, count: 0 }] by
    itself: the result is the same for every answer the network could give,
    so no request is involved. *)
Theorem markAsReadBatch_nothing_to_do {Jar : Type} (s : Session Jar) (ids : jsval)
    (o : http_outcome) :
  requireAuth s = true ->
  match ids with JArr (_ :: _) => False | _ => True end ->
  markAsReadBatch ids s o
  = Normal (JObj [(str "success", JBool true); (str "count", JNum 0)]).
Proof.
  intros Ha Hi. unfold markAsReadBatch. rewrite Ha. cbn [negb].
  destruct ids as [| | | | |items|]; try reflexivity.
  destruct items; [reflexivity | contradiction].
Qed.

Lemma markAsReadBatch_nothing_to_do_witness :
  markAsReadBatch (JArr []) exampleSession
    (Rejected (AxiosError "Network Error" None))
  = Normal (JObj [(str "success", JBool true); (str "count", JNum 0)]).
Proof.
  apply (@markAsReadBatch_nothing_to_do _ exampleSession (JArr [])
           (Rejected (AxiosError "Network Error" None))); [reflexivity | exact I].
Defined.

(** X18. [getUnreadNotifications] can throw. When the session is
    authenticated and the answer has status 200, the list of notifications
    (empty unless the body holds an array under [notifications]) is filtered
    outside any [try] block: if it holds a [null] or [undefined], reading
    [n.read] throws and the exception reaches the caller; otherwise the
    result holds exactly the notifications whose [read] is falsy, in order,
    and [hasMore] as a boolean. In every other case the result is [null]. *)
Theorem getUnreadNotifications_spec {Jar : Type} (s : Session Jar) (o : http_outcome) :
  match o with
  | Resolved r =>
      if requireAuth s && Z.eqb (status r) 200 then
        let items := notificationsOf (data r) in
        if existsb isNullish items
        then exists e, getUnreadNotifications s o = Throw e
        else getUnreadNotifications s o
             = Normal (JObj [(str "notifications",
                              JArr (filter (fun n => negb (truthy (opt_member n "read")))
                                      items));
                             (str "hasMore",
                              JBool (truthy (opt_member (data r) "hasMore")))])
      else getUnreadNotifications s o = Normal JNull
  | Rejected _ => getUnreadNotifications s o = Normal JNull
  end.
Proof.
  destruct o as [r|e].
  - destruct (requireAuth s) eqn:Ha; cbn [andb].
    + destruct (Z.eqb (status r) 200) eqn:Hs.
      * rewrite (getUnreadNotifications_served s r Ha Hs), filterUnread_spec.
        cbv zeta. destruct (existsb isNullish (notificationsOf (data r)));
          [eexists; reflexivity | reflexivity].
      * unfold getUnreadNotifications, getNotifications. rewrite Ha.
        cbn [negb await bind try_catch]. rewrite Hs. reflexivity.
    + unfold getUnreadNotifications, getNotifications. rewrite Ha. reflexivity.
  - unfold getUnreadNotifications, getNotifications.
    destruct (requireAuth s); reflexivity.
Qed.

Lemma truthy_not_nullish (v : jsval) : truthy v = true -> isNullish v = false.
Proof. destruct v; cbn; intros; try discriminate; reflexivity. Qed.

Lemma falsy_no_member (v : jsval) (k : string) :
  truthy v = false -> opt_member v k = JUndefined.
Proof. destruct v; cbn; intros; try discriminate; reflexivity. Qed.

Lemma getUserProfile_spec (o : http_outcome) :
  getUserProfile o
  = Normal match o with
           | Resolved r =>
               if Z.eqb (status r) 200 && negb (isNullish (data r))
               then js_or (opt_member (data r) "data") (data r)
               else JNull
           | Rejected _ => JNull
           end.
Proof.
  unfold getUserProfile. destruct o as [r|e]; [|reflexivity].
  cbn [await bind]. destruct (Z.eqb (status r) 200); [|reflexivity].
  cbn [andb]. destruct (isNullish (data r)) eqn:E.
  - destruct (data r); try discriminate; reflexivity.
  - rewrite (member_not_nullish (data r) "data" E). reflexivity.
Qed.

Lemma getMyProfile_spec {Jar : Type} (s : Session Jar) (o : http_outcome) :
  getMyProfile s o
  = Normal match o with
           | Resolved r =>
               if checkAuth s && Z.eqb (status r) 200 then data r else JNull
           | Rejected _ => JNull
           end.
Proof.
  unfold getMyProfile. destruct (checkAuth s); cbn [negb andb].
  - destruct o as [r|e]; [|reflexivity]. cbn [await bind].
    destruct (Z.eqb (status r) 200); reflexivity.
  - destruct o; reflexivity.
Qed.

(** What [profile ? (profile.k || dflt) : dflt] evaluates to. *)
Lemma profile_field (profile dflt : jsval) (k : string) :
  (if truthy profile
   then (v <- member profile k ;; Normal (js_or v dflt))
   else Normal dflt)
  = Normal (js_or (opt_member profile k) dflt).
Proof.
  destruct (truthy profile) eqn:E.
  - now rewrite (member_not_nullish profile k (truthy_not_nullish profile E)).
  - now rewrite (falsy_no_member profile k E).
Qed.

(** X19. [isFollowing] never throws and always answers with a boolean. The
    answer is [true] exactly when the session passes the authentication
    check, the profile request is answered with status 200 and a body that
    is not [null], and the profile (the [data] member of the body if that is
    truthy, the body otherwise) has [isFollowing] strictly equal to [true];
    a truthy value such as [1] or ["true"] does not count. *)
Theorem isFollowing_spec {Jar : Type} (s : Session Jar) (o : http_outcome) :
  isFollowing s o
  = Normal (JBool
      (checkAuth s &&
       match o with
       | Resolved r =>
           Z.eqb (status r) 200 && negb (isNullish (data r)) &&
           strict_eq (opt_member (js_or (opt_member (data r) "data") (data r))
                        "isFollowing")
                     (JBool true)
       | Rejected _ => false
       end)).
Proof.
  unfold isFollowing. destruct (checkAuth s); cbn [negb andb]; [|reflexivity].
  rewrite getUserProfile_spec. cbn [bind].
  destruct o as [r|e]; [|reflexivity].
  destruct (Z.eqb (status r) 200 && negb (isNullish (data r))); [|reflexivity].
  cbn [andb].
  destruct (truthy (js_or (opt_member (data r) "data") (data r))) eqn:E.
  - now rewrite (member_not_nullish _ "isFollowing" (truthy_not_nullish _ E)).
  - now rewrite (falsy_no_member _ "isFollowing" E).
Qed.

(** X20. The convenience readers never throw and compute
    [profile?.field || default]: [getMyFollowersCount] and
    [getMyFollowingCount] with the counts and [0], [getMyClan] and
    [getUserClan] with [avatar] and [null]. The profile is the body of a 200
    answer for an authenticated session (for [getUserClan]: the [data] member
    of a body that is not [null], or the body itself) and [null] in every
    other case, for which the result is the default. The two definitions of
    [getUserClan] in the class compute the same. *)
Theorem convenience_defaults {Jar : Type} (s : Session Jar) (o : http_outcome) :
  let mine := match o with
              | Resolved r => if checkAuth s && Z.eqb (status r) 200
                              then data r else JNull
              | Rejected _ => JNull
              end in
  let theirs := match o with
                | Resolved r =>
                    if Z.eqb (status r) 200 && negb (isNullish (data r))
                    then js_or (opt_member (data r) "data") (data r) else JNull
                | Rejected _ => JNull
                end in
  getMyFollowersCount s o = Normal (js_or (opt_member mine "followersCount") (JNum 0))
  /\ getMyFollowingCount s o = Normal (js_or (opt_member mine "followingCount") (JNum 0))
  /\ getMyClan s o = Normal (js_or (opt_member mine "avatar") JNull)
  /\ getUserClan o = Normal (js_or (opt_member theirs "avatar") JNull)
  /\ getUserClan_first o = getUserClan o.
Proof.
  intros mine theirs.
  unfold getMyFollowersCount, getMyFollowingCount, getMyClan, getUserClan,
    getUserClan_first.
  rewrite getMyProfile_spec, getUserProfile_spec. cbn [bind].
  fold mine. fold theirs.
  rewrite !profile_field. repeat split.
  destruct (truthy theirs) eqn:E; cbn [negb].
  - now rewrite (member_not_nullish theirs "avatar" (truthy_not_nullish theirs E)).
  - now rewrite (falsy_no_member theirs "avatar" E).
Qed.

Lemma reqLimit_clamped (limit : Z) :
  (1 <= reqLimit limit <= 100)%Z
  /\ reqLimit limit = (if (limit =? 0)%Z then 20
                       else if (limit <? 1)%Z then 1
                       else if (100 <? limit)%Z then 100
                       else limit)%Z.
Proof.
  unfold reqLimit.
  destruct (Z.eqb_spec limit 0), (Z.ltb_spec limit 1), (Z.ltb_spec 100 limit); lia.
Qed.

(** X21. Every request that [getComments] sends asks for a page size between
    1 and 100. The first request, and the fallback after a response with
    status 422, ask for the limit clamped to that range ([0] gives the
    default 20); the retry after a request that was rejected with status 422
    asks for 20 whatever the limit was. *)
Theorem getComments_page_sizes (limit : Z) (first second : http_outcome) :
  let sizes := getComments_limits limit first second in
  Forall (fun size => (1 <= size <= 100)%Z) sizes
  /\ (exists more, sizes = reqLimit limit :: more)
  /\ reqLimit limit = (if (limit =? 0)%Z then 20
                       else if (limit <? 1)%Z then 1
                       else if (100 <? limit)%Z then 100
                       else limit)%Z
  /\ (forall e, first = Rejected e -> is422 (errorStatus e) = true ->
        sizes = [reqLimit limit; 20%Z])
  /\ (forall r e, first = Resolved r -> status r = 422%Z ->
        second = Rejected e -> is422 (errorStatus e) = true ->
        sizes = [reqLimit limit; reqLimit limit; 20%Z]).
Proof.
  destruct (reqLimit_clamped limit) as [Hb Hc].
  assert (H20 : (1 <= 20 <= 100)%Z) by lia.
  cbv zeta. split; [|split; [|split; [exact Hc|split]]].
  - assert (Hall : forall l : list Z,
               Forall (fun size => (1 <= size <= 100)%Z) l ->
               Forall (fun size => (1 <= size <= 100)%Z) (reqLimit limit :: l))
      by (intros l Hl; constructor; assumption).
    unfold getComments_limits.
    destruct first as [r|e].
    + destruct (Z.eqb (status r) 200); [apply Hall; constructor|].
      destruct (Z.eqb (status r) 422); [|apply Hall; constructor].
      do 2 apply Hall. destruct second as [r2|e2]; [constructor|].
      destruct (is422 (errorStatus e2)); repeat (constructor; try assumption).
    + apply Hall. destruct (is422 (errorStatus e)); repeat (constructor; try assumption).
  - unfold getComments_limits. destruct first as [r|e]; [|eexists; reflexivity].
    destruct (Z.eqb (status r) 200); [eexists; reflexivity|].
    destruct (Z.eqb (status r) 422); eexists; reflexivity.
  - intros e -> H. unfold getComments_limits. now rewrite H.
  - intros r e -> Hs -> H. unfold getComments_limits. rewrite Hs, H. reflexivity.
Qed.

(** X22. [getComments] asks again only after a 422. If the first answer does
    not carry status 422 the result is settled by it alone; and the answer
    to a third request matters only when the first response has status 422
    and the second request is rejected with status 422. *)
Theorem getComments_asks_again_after_422
    (first second third second' third' : http_outcome) :
  (answers422 first = false ->
   getComments first second third = getComments first second' third')
  /\ (match first with Resolved _ => answers422 first && answers422 second
                     | Rejected _ => false end
      && match second with Rejected _ => true | Resolved _ => false end = false ->
      getComments first second third = getComments first second third').
Proof.
  unfold getComments, answers422. split.
  - destruct first as [r|e]; intros H.
    + rewrite H. destruct (Z.eqb (status r) 200); [|reflexivity].
      now destruct (parseResponse_total r) as [v ->].
    + rewrite H. reflexivity.
  - intros H. destruct first as [r|e]; [|reflexivity].
    destruct (Z.eqb (status r) 200);
      [now destruct (parseResponse_total r) as [v ->]|].
    destruct (Z.eqb (status r) 422); [|reflexivity].
    destruct second as [r2|e2].
    + destruct (Z.eqb (status r2) 200); [|reflexivity].
      now destruct (parseResponse_total r2) as [v ->].
    + cbn [andb] in H. rewrite andb_true_r in H. now rewrite H.
Qed.

Lemma getComments_asks_again_after_422_witness :
  getComments (Rejected (AxiosError "Network Error" None))
    (Resolved (body (JArr [JNum 1]))) (Resolved (body (JArr [JNum 2])))
  = getComments (Rejected (AxiosError "Network Error" None))
      (Rejected (Error "unused")) (Rejected (Error "unused")).
Proof.
  destruct (getComments_asks_again_after_422
              (Rejected (AxiosError "Network Error" None))
              (Resolved (body (JArr [JNum 1]))) (Resolved (body (JArr [JNum 2])))
              (Rejected (Error "unused")) (Rejected (Error "unused")))
    as [H _].
  apply H. reflexivity.
Defined.

(** X23. [parseResponse] of [getComments] normalises the shapes of a body:
    a list of comments sent bare, as [{ data: list }], as
    [{ comments: list }] or as [{ data: { comments: list } }] gives the same
    result, with [total] the length of the list, [hasMore] false and
    [nextCursor] null. *)
Theorem parseResponse_shapes (items : list jsval) :
  let result := Normal (JObj [(str "comments", JArr items);
                              (str "total", JNum (Z.of_nat (List.length items)));
                              (str "hasMore", JBool false);
                              (str "nextCursor", JNull)]) in
  parseResponse (body (JArr items)) = result
  /\ parseResponse (body (envelope (JArr items))) = result
  /\ parseResponse (body (JObj [(str "comments", JArr items)])) = result
  /\ parseResponse (body (envelope (JObj [(str "comments", JArr items)]))) = result.
Proof. repeat split. Qed.

(** X28. On a failing call (the request is rejected, or answered with a
    status outside 200..299) each of these resource methods throws nothing
    and returns its sentinel: [null] for [getMyProfile], [getNotifications],
    [getUnreadNotifications], [search], [getFollowers], [getTrending],
    [getStatus], [submit], [getFile], [getUserProfile], [unfollowUser],
    [markAsRead], [markAsReadBatch] (for a list of ids that is not empty),
    [getMyClan] and [getUserClan]; [false] for [deleteFile] and
    [isFollowing]; [0] for [getMyFollowersCount] and [getMyFollowingCount];
    and the empty result for [getComments] (when its retries fail as
    well). *)
Theorem failing_calls_give_sentinels {Jar : Type} (s : Session Jar) (type id : jsval)
    (ids : list jsval) (o second third : http_outcome) :
  failing o = true -> failing second = true -> failing third = true ->
  (getMyProfile s o = Normal JNull
   /\ getNotifications type s o = Normal JNull
   /\ getUnreadNotifications s o = Normal JNull
   /\ search o = Normal JNull
   /\ getFollowers o = Normal JNull
   /\ getTrending o = Normal JNull
   /\ deleteFile s o = Normal false
   /\ getComments o second third = Normal emptyComments)
  /\ (getStatus s o = Normal JNull
      /\ submit s o = Normal JNull
      /\ getFile s o = Normal JNull
      /\ getUserProfile o = Normal JNull
      /\ unfollowUser s o = Normal JNull
      /\ isFollowing s o = Normal (JBool false)
      /\ markAsRead s o = Normal JNull
      /\ markAsReadBatch (JArr (id :: ids)) s o = Normal JNull)
  /\ (getMyFollowersCount s o = Normal (JNum 0)
      /\ getMyFollowingCount s o = Normal (JNum 0)
      /\ getMyClan s o = Normal JNull
      /\ getUserClan o = Normal JNull).
Proof.
  intros Hf H2 H3.
  assert (Hs : forall r, o = Resolved r ->
                 Z.eqb (status r) 200 = false /\ Z.eqb (status r) 204 = false
                 /\ Z.eqb (status r) 201 = false).
  { intros r ->. destruct (failing_status r Hf) as [E1 E2].
    repeat split; auto. cbn [failing] in Hf. apply negb_true_iff in Hf.
    destruct (Z.eqb_spec (status r) 201) as [E|]; [|reflexivity].
    rewrite E in Hf. discriminate. }
  assert (Hprofile : getUserProfile o = Normal JNull).
  { unfold getUserProfile. destruct o as [r|e]; [|reflexivity].
    destruct (Hs r eq_refl) as (E & _ & _). cbn [await bind]. now rewrite E. }
  assert (Hmine : getMyProfile s o = Normal JNull).
  { unfold getMyProfile. destruct (negb (checkAuth s)); [reflexivity|].
    destruct o as [r|e]; [|reflexivity].
    destruct (Hs r eq_refl) as (E & _ & _). cbn [await bind]. now rewrite E. }
  split; [|split].
  - repeat split.
    + exact Hmine.
    + unfold getNotifications. destruct (negb (requireAuth s)); [reflexivity|].
      destruct o as [r|e]; [|reflexivity].
      destruct (Hs r eq_refl) as (E & _ & _). cbn [await bind]. now rewrite E.
    + now apply getUnreadNotifications_failing.
    + unfold search. destruct o as [r|e]; [|reflexivity].
      destruct (Hs r eq_refl) as (E & _ & _). cbn [await bind]. now rewrite E.
    + unfold getFollowers. destruct o as [r|e]; [|reflexivity].
      destruct (Hs r eq_refl) as (E & _ & _). cbn [await bind]. now rewrite E.
    + unfold getTrending. destruct o as [r|e]; [|reflexivity].
      destruct (Hs r eq_refl) as (E & _ & _). cbn [await bind]. now rewrite E.
    + unfold deleteFile. destruct (negb (checkAuth s)); [reflexivity|].
      destruct o as [r|e]; [|reflexivity].
      destruct (Hs r eq_refl) as (E1 & E2 & _). cbn [await bind try_catch].
      now rewrite E1, E2.
    + now apply getComments_failing.
  - repeat split.
    + unfold getStatus. destruct (negb (checkAuth s)); [reflexivity|].
      destruct o as [r|e]; [|reflexivity].
      destruct (Hs r eq_refl) as (E & _ & _). cbn [await bind]. now rewrite E.
    + unfold submit. destruct (negb (checkAuth s)); [reflexivity|].
      destruct o as [r|e]; [|reflexivity].
      destruct (Hs r eq_refl) as (E1 & _ & E3). cbn [await bind]. now rewrite E1, E3.
    + unfold getFile. destruct (negb (checkAuth s)); [reflexivity|].
      destruct o as [r|e]; [|reflexivity].
      destruct (Hs r eq_refl) as (E & _ & _). cbn [await bind]. now rewrite E.
    + exact Hprofile.
    + unfold unfollowUser. destruct (negb (checkAuth s)); [reflexivity|].
      destruct o as [r|e]; [|reflexivity].
      destruct (Hs r eq_refl) as (E1 & E2 & _). cbn [await bind]. now rewrite E1, E2.
    + unfold isFollowing. destruct (negb (checkAuth s)); [reflexivity|].
      now rewrite Hprofile.
    + unfold markAsRead. destruct (negb (requireAuth s)); [reflexivity|].
      destruct o as [r|e]; [|reflexivity].
      destruct (Hs r eq_refl) as (E1 & E2 & _). cbn [await bind]. now rewrite E1, E2.
    + unfold markAsReadBatch. destruct (negb (requireAuth s)); [reflexivity|].
      destruct o as [r|e]; [|reflexivity].
      destruct (Hs r eq_refl) as (E & _ & _). cbn [await bind]. now rewrite E.
  - unfold getMyFollowersCount, getMyFollowingCount, getMyClan, getUserClan.
    rewrite Hmine, Hprofile. repeat split.
Qed.

(** The theorem at an answer with status 500 and rejected retries. *)
Lemma failing_calls_give_sentinels_witness :
  let o := Resolved {| status := 500; data := JStr (str "Internal Server Error");
                       set_cookie := None |} in
  let timeout := Rejected (AxiosError "timeout of 10000ms exceeded" None) in
  getNotifications JNull exampleSession o = Normal JNull
  /\ getUnreadNotifications exampleSession o = Normal JNull
  /\ deleteFile exampleSession o = Normal false
  /\ getComments o timeout timeout = Normal emptyComments
  /\ isFollowing exampleSession o = Normal (JBool false)
  /\ getMyFollowersCount exampleSession o = Normal (JNum 0).
Proof.
  intros o timeout.
  destruct (@failing_calls_give_sentinels _ exampleSession JNull (JStr (str "n-1")) []
              o timeout timeout eq_refl eq_refl eq_refl)
    as ((_ & Hn & Hu & _ & _ & _ & Hd & Hc) & (_ & _ & _ & _ & _ & Hi & _) & (Hm & _)).
  repeat split; assumption.
Defined.
(* ----------------------------------------------------------------- *)
(** ** Properties of the reading loop of the notification stream *)

Lemma split_not_nil (s : jsstring) : split s <> [].
Proof.
  induction s as [|c s IH]; cbn [split]; [discriminate|].
  destruct (N.eqb c 10); [discriminate|]. destruct (split s); discriminate.
Qed.

Lemma removelast_cons (A : Type) (x : A) (l : list A) :
  l <> [] -> removelast (x :: l) = x :: removelast l.
Proof. destruct l; [congruence | reflexivity]. Qed.

Lemma last_cons (A : Type) (x d : A) (l : list A) :
  l <> [] -> last (x :: l) d = last l d.
Proof. destruct l; [congruence | reflexivity]. Qed.

Lemma last_append (A : Type) (d : A) (l l' : list A) :
  l' <> [] -> last (l ++ l') d = last l' d.
Proof.
  intros H. induction l as [|x l IH]; [reflexivity|].
  cbn [app]. rewrite last_cons; [exact IH|].
  destruct l; [exact H | discriminate].
Qed.

(** The text before a line feed gives complete lines, whatever follows. *)
Lemma split_LF (a b : jsstring) :
  exists l ls,
    split (a ++ [10%N]) = (l :: ls) ++ [[]]
    /\ split (a ++ 10%N :: b) = (l :: ls) ++ split b.
Proof.
  induction a as [|c a IH]; cbn [app split].
  - cbn. exists [], []. split; reflexivity.
  - destruct IH as (l & ls & E1 & E2). destruct (N.eqb c 10).
    + exists [], (l :: ls). rewrite E1, E2. split; reflexivity.
    + rewrite E1, E2. cbn [app]. exists (c :: l), ls. split; reflexivity.
Qed.

Lemma completeLines_LF (a b : jsstring) :
  completeLines (a ++ 10%N :: b) = completeLines (a ++ [10%N]) ++ completeLines b
  /\ last (split (a ++ 10%N :: b)) [] = last (split b) []
  /\ completeLines (a ++ [10%N]) <> [].
Proof.
  destruct (split_LF a b) as (l & ls & E1 & E2). unfold completeLines.
  rewrite E1, E2. repeat split.
  - rewrite !removelast_app by (try apply split_not_nil; discriminate).
    cbn [removelast]. now rewrite app_nil_r.
  - apply last_append, split_not_nil.
  - rewrite removelast_app by discriminate. cbn [removelast].
    rewrite app_nil_r. discriminate.
Qed.

Section StreamProps.
Variable parse : jsstring -> completion jsval.
Variable onEvent : jsval -> completion unit.

Lemma forLines_app (x y : list jsstring) (cd : option jsstring) :
  forLines parse onEvent (x ++ y) cd
  = match forLines parse onEvent x cd with
    | (calls, Normal cd') =>
        let (calls', c) := forLines parse onEvent y cd' in (calls ++ calls', c)
    | (calls, Throw e) => (calls, Throw e)
    end.
Proof.
  revert cd. induction x as [|line x IH]; intros cd; cbn [app forLines].
  - now destruct (forLines parse onEvent y cd).
  - destruct (startsWith (str "data:") line); [apply IH|].
    destruct line as [|c line]; [|apply IH].
    destruct cd as [d|]; [|apply IH].
    destruct (deliver parse onEvent d) as [calls [u|e]]; [|reflexivity].
    rewrite IH. destruct (forLines parse onEvent x None) as [c1 [cd'|e]];
      [|reflexivity].
    destruct (forLines parse onEvent y cd') as [c2 r]. now rewrite app_assoc.
Qed.

(** After a blank line [currentData] is [null]. *)
Lemma forLines_blank_last (x : list jsstring) (cd st : option jsstring)
    (calls : list jsval) :
  forLines parse onEvent (x ++ [[]]) cd = (calls, Normal st) -> st = None.
Proof.
  rewrite forLines_app.
  destruct (forLines parse onEvent x cd) as [c1 [cd'|e]]; [|discriminate].
  cbn [forLines]. change (startsWith (str "data:") []) with false. cbv iota.
  destruct cd' as [d|].
  - destruct (deliver parse onEvent d) as [c2 [u|e]]; [|discriminate].
    intros H. now inversion H.
  - intros H. now inversion H.
Qed.

(** Without a blank line nothing is delivered. *)
Lemma forLines_no_blank (x : list jsstring) (cd : option jsstring) :
  existsb isEmpty x = false ->
  exists st, forLines parse onEvent x cd = ([], Normal st).
Proof.
  revert cd. induction x as [|line x IH]; intros cd H; cbn [forLines].
  - eexists; reflexivity.
  - cbn [existsb] in H. apply orb_false_iff in H as [H1 H2].
    destruct (startsWith (str "data:") line); [now apply IH|].
    destruct line as [|c line]; [discriminate|]. now apply IH.
Qed.

End StreamProps.


(** Reading a text in two steps gives the complete lines of the whole. *)
Lemma split_resume (x y : jsstring) :
  completeLines (x ++ y)
  = completeLines x ++ completeLines (last (split x) [] ++ y)
  /\ last (split (x ++ y)) [] = last (split (last (split x) [] ++ y)) [].
Proof.
  unfold completeLines. induction x as [|c x [IH1 IH2]].
  - split; reflexivity.
  - cbn [app split]. destruct (N.eqb c 10) eqn:E.
    + rewrite !removelast_cons, !last_cons by apply split_not_nil.
      split; [cbn [app]; f_equal; exact IH1 | exact IH2].
    + pose proof (split_not_nil x) as Hx.
      pose proof (split_not_nil (x ++ y)) as Hxy.
      destruct (split x) as [|l [|l' ls]] eqn:Ex; [congruence| |].
      * cbn [removelast last app] in *. cbn [split]. rewrite E.
        destruct (split (x ++ y)) as [|n ns] eqn:Exy; [congruence|].
        destruct (split (l ++ y)) as [|m ms] eqn:Ey;
          [now apply split_not_nil in Ey|].
        destruct ns as [|n' ns], ms as [|m' ms];
          cbn [removelast last] in *; try discriminate.
        -- subst. split; reflexivity.
        -- inversion IH1; subst. split; [congruence | exact IH2].
      * destruct (split (x ++ y)) as [|n [|n' ns]] eqn:Exy; [congruence| |].
        -- cbn in IH1. destruct ls; discriminate.
        -- change (removelast ((c :: n) :: n' :: ns))
             with ((c :: n) :: removelast (n' :: ns)).
           change (removelast ((c :: l) :: l' :: ls))
             with ((c :: l) :: removelast (l' :: ls)).
           change (last ((c :: n) :: n' :: ns) [])
             with (last (n :: n' :: ns) []).
           change (last ((c :: l) :: l' :: ls) [])
             with (last (l :: l' :: ls) []).
           change (removelast (n :: n' :: ns))
             with (n :: removelast (n' :: ns)) in IH1.
           change (removelast (l :: l' :: ls))
             with (l :: removelast (l' :: ls)) in IH1.
           cbn [app] in IH1 |- *. injection IH1 as Hn Ht. subst n.
           split; [f_equal; exact Ht | exact IH2].
Qed.

Lemma split_line (s b : jsstring) :
  noLF s = true -> split (s ++ 10%N :: b) = s :: split b.
Proof.
  induction s as [|c s IH]; cbn [noLF forallb app split]; [reflexivity|].
  intros H. apply andb_true_iff in H as [H1 H2].
  apply negb_true_iff in H1. rewrite H1. fold (noLF s) in H2.
  now rewrite (IH H2).
Qed.

Lemma noLF_data (p : jsstring) : noLF p = true -> noLF (str "data:" ++ p) = true.
Proof.
  intros H. unfold noLF in *. rewrite forallb_app, H. reflexivity.
Qed.

Section StreamTheorems.
Variable parse : jsstring -> completion jsval.
Variable onEvent : jsval -> completion unit.

Lemma deliver_calls (d : jsstring) : fst (deliver parse onEvent d) <> [].
Proof.
  unfold deliver.
  destruct (match d with [] => Normal JNull | _ :: _ => parse d end) as [v|e];
    [destruct (onEvent v)|]; discriminate.
Qed.

Lemma deliver_throw (d : jsstring) (calls : list jsval) (e : js_error) :
  deliver parse onEvent d = (calls, Throw e) ->
  exists pre, calls = pre ++ [JStr d] /\ onEvent (JStr d) = Throw e.
Proof.
  unfold deliver.
  destruct (match d with [] => Normal JNull | _ :: _ => parse d end) as [v|e'].
  - destruct (onEvent v) as [u|e'']; [discriminate|].
    intros H. injection H as <- H. now exists [v].
  - intros H. injection H as <- H. now exists [].
Qed.

Lemma forLines_throw (x : list jsstring) (cd : option jsstring)
    (calls : list jsval) (e : js_error) :
  forLines parse onEvent x cd = (calls, Throw e) ->
  exists pre d, calls = pre ++ [JStr d] /\ onEvent (JStr d) = Throw e.
Proof.
  revert cd calls. induction x as [|line x IH]; intros cd calls; cbn [forLines].
  - discriminate.
  - destruct (startsWith (str "data:") line); [apply IH|].
    destruct line as [|c line]; [|apply IH].
    destruct cd as [d|]; [|apply IH].
    destruct (deliver parse onEvent d) as [c1 [u|e1]] eqn:Ed.
    + destruct (forLines parse onEvent x None) as [c2 r] eqn:Ex.
      intros H. injection H as <- ->.
      destruct (IH _ _ Ex) as (pre & d' & -> & Hd).
      exists (c1 ++ pre), d'. now rewrite app_assoc.
    + intros H. injection H as <- <-.
      destruct (deliver_throw d Ed) as (pre & -> & Hd). now exists pre, d.
Qed.

(** X24. A read that ends right after a blank line can be merged with the
    read that follows it: the calls of [onEvent] and the way the loop ends
    are the same, whatever was buffered before and whatever the callbacks
    do. *)
Theorem read_boundary_after_blank_line (a b buffer : jsstring)
    (rest : list jsstring) :
  readLoop parse onEvent ((a ++ [10%N; 10%N]) :: b :: rest) buffer
  = readLoop parse onEvent ((a ++ [10%N; 10%N] ++ b) :: rest) buffer.
Proof.
  cbn [readLoop]. fold (completeLines (buffer ++ a ++ [10%N; 10%N])).
  fold (completeLines (buffer ++ a ++ [10%N; 10%N] ++ b)).
  fold (completeLines ([] ++ b)). cbn [app].
  replace (buffer ++ a ++ [10%N; 10%N]) with ((buffer ++ a) ++ 10%N :: [10%N])
    by now rewrite <- app_assoc.
  replace (buffer ++ a ++ 10%N :: 10%N :: b)
    with ((buffer ++ a) ++ 10%N :: (10%N :: b)) by now rewrite <- app_assoc.
  destruct (completeLines_LF (buffer ++ a) [10%N]) as (-> & -> & _).
  destruct (completeLines_LF (buffer ++ a) (10%N :: b)) as (-> & -> & _).
  change (completeLines [10%N]) with [@nil N].
  change (last (split [10%N]) []) with (@nil N).
  assert (E : completeLines (10%N :: b) = [] :: completeLines b).
  { unfold completeLines. cbn [split N.eqb Pos.eqb].
    apply removelast_cons, split_not_nil. }
  assert (L : last (split (10%N :: b)) [] = last (split b) []).
  { cbn [split N.eqb Pos.eqb]. apply last_cons, split_not_nil. }
  rewrite E, L. cbn [app]. fold (completeLines b).
  replace (completeLines ((buffer ++ a) ++ [10%N]) ++ [] :: completeLines b)
    with ((completeLines ((buffer ++ a) ++ [10%N]) ++ [[]]) ++ completeLines b)
    by now rewrite <- app_assoc.
  rewrite (@forLines_app parse onEvent (completeLines ((buffer ++ a) ++ [10%N]) ++ [[]])
             (completeLines b) None).
  destruct (forLines parse onEvent (completeLines ((buffer ++ a) ++ [10%N]) ++ [[]])
              None) as [c1 [st|e]] eqn:E1; [|reflexivity].
  apply forLines_blank_last in E1. subst st.
  destruct (forLines parse onEvent (completeLines b) None) as [c2 [st|e]].
  - destruct (readLoop parse onEvent rest (last (split b) [])) as [c3 r].
    now rewrite app_assoc.
  - reflexivity.
Qed.

(** X25. An event is lost when its [data:] line and the blank line that ends
    it arrive in different reads: after a read that ends with the line
    [data:p] and a read that starts with the blank line, the loop goes on as
    if the event had never been sent, although the same text in one read
    makes at least one call of [onEvent] for it. *)
Theorem event_lost_between_reads (p b : jsstring) (rest : list jsstring) :
  noLF p = true ->
  readLoop parse onEvent ((str "data:" ++ p ++ [10%N]) :: (10%N :: b) :: rest) []
  = readLoop parse onEvent (b :: rest) []
  /\ readLoop parse onEvent ((str "data:" ++ p ++ [10%N; 10%N] ++ b) :: rest) []
     = (let (calls, c) := deliver parse onEvent (trim p) in
        match c with
        | Normal _ =>
            let (calls', e) := readLoop parse onEvent (b :: rest) [] in
            (calls ++ calls', e)
        | Throw e => (calls, Some e)
        end)
  /\ fst (deliver parse onEvent (trim p)) <> [].
Proof.
  intros Hp. pose proof (noLF_data p Hp) as Hd.
  assert (Hs : forall q, startsWith (str "data:") (str "data:" ++ q) = true)
    by reflexivity.
  assert (Hk : skipn 5 (str "data:" ++ p) = p) by reflexivity.
  split; [|split; [|apply deliver_calls]].
  - cbn [readLoop app].
    rewrite (app_assoc (str "data:") p [10%N]), (split_line _ [] Hd).
    cbn [split removelast last forLines]. rewrite Hs. cbn [app].
    cbn [split N.eqb Pos.eqb].
    rewrite removelast_cons, last_cons by apply split_not_nil.
    cbn [forLines]. change (startsWith (str "data:") []) with false. cbv iota.
    unfold jsstring.
    match goal with
    | |- context [forLines parse onEvent ?l ?n] =>
        destruct (forLines parse onEvent l n) as [c2 [st|e]]; [|reflexivity]
    end.
    match goal with
    | |- context [readLoop parse onEvent rest ?r] =>
        destruct (readLoop parse onEvent rest r) as [c3 r']
    end.
    reflexivity.
  - cbn [readLoop app].
    change (str "data:" ++ p ++ 10%N :: 10%N :: b)
      with (str "data:" ++ p ++ 10%N :: (10%N :: b)).
    rewrite (app_assoc (str "data:") p), (split_line _ _ Hd).
    cbn [split N.eqb Pos.eqb].
    rewrite !removelast_cons, !last_cons
      by (try apply split_not_nil; discriminate).
    cbn [forLines]. rewrite Hs, Hk.
    change (startsWith (str "data:") []) with false. cbv iota.
    destruct (deliver parse onEvent (trim p)) as [c1 [u|e]]; [|reflexivity].
    unfold jsstring.
    match goal with
    | |- context [forLines parse onEvent ?l ?n] =>
        destruct (forLines parse onEvent l n) as [c2 [st|e]]; [|reflexivity]
    end.
    match goal with
    | |- context [readLoop parse onEvent rest ?r] =>
        destruct (readLoop parse onEvent rest r) as [c3 r']
    end.
    now rewrite app_assoc.
Qed.

Lemma readLoop_no_blank (reads : list jsstring) (buffer : jsstring) :
  hasBlankLine (buffer ++ List.concat reads) = false ->
  readLoop parse onEvent reads buffer = ([], None).
Proof.
  revert buffer. induction reads as [|value rest IH]; intros buffer H;
    [reflexivity|].
  cbn [readLoop List.concat] in *. unfold hasBlankLine in H.
  rewrite app_assoc in H.
  destruct (split_resume (buffer ++ value) (List.concat rest)) as [E _].
  rewrite E, existsb_app in H. apply orb_false_iff in H as [H1 H2].
  destruct (forLines_no_blank parse onEvent _ None H1) as [st Hst].
  unfold completeLines in Hst. rewrite Hst.
  now rewrite (IH _ H2).
Qed.

(** X26. Only a complete empty line delivers an event: if the text of all
    reads together has no complete line that is empty, [onEvent] is never
    called and the loop ends normally, however the text is cut into reads. A
    stream whose lines end with CR LF is such a text. *)
Theorem no_blank_line_no_event (reads : list jsstring) :
  hasBlankLine (List.concat reads) = false ->
  readLoop parse onEvent reads [] = ([], None).
Proof. intros H. now apply readLoop_no_blank. Qed.

(** A stream whose reads end with [done] is the stream of [readLoop]. *)
Lemma readStream_done (reads : list jsstring) (buffer : jsstring) :
  readStream parse onEvent reads Done buffer = readLoop parse onEvent reads buffer.
Proof.
  revert buffer. induction reads as [|value rest IH]; intros buffer; [reflexivity|].
  cbn [readStream readLoop]. now rewrite IH.
Qed.

(** X27. The error that ends the loop comes from one of two places. Either
    [reader.read()] was rejected (the stream was closed, or the connection
    failed): then every text read before it was processed as in a stream
    that ends with [done]. Or [onEvent] itself threw, in the last call made,
    on a string argument (the call in the [catch] block with the text of the
    event). Neither a payload that [JSON.parse] rejects nor a callback that
    throws on the parsed value ends the loop by itself. *)
Theorem readStream_error_source (reads : list jsstring) (finish : ending)
    (buffer : jsstring) (calls : list jsval) (e : js_error) :
  readStream parse onEvent reads finish buffer = (calls, Some e) ->
  (finish = ReadRejected e
   /\ readLoop parse onEvent reads buffer = (calls, None))
  \/ (exists pre d, calls = pre ++ [JStr d] /\ onEvent (JStr d) = Throw e).
Proof.
  revert buffer calls. induction reads as [|value rest IH]; intros buffer calls;
    cbn [readStream readLoop].
  - destruct finish as [|e']; [discriminate|].
    intros H. injection H as <- <-. now left.
  - destruct (forLines parse onEvent (removelast (split (buffer ++ value))) None)
      as [c1 [st|e1]] eqn:E1.
    + destruct (readStream parse onEvent rest finish
                  (last (split (buffer ++ value)) [])) as [c2 r] eqn:E2.
      intros H. injection H as <- ->.
      destruct (IH _ _ E2) as [[Hf Hl] | (pre & d & -> & Hd)].
      * left. split; [exact Hf|]. now rewrite Hl.
      * right. exists (c1 ++ pre), d. now rewrite app_assoc.
    + intros H. injection H as <- <-. right. exact (forLines_throw _ _ E1).
Qed.

End StreamTheorems.

Lemma event_lost_between_reads_witness :
  readLoop literalParse acceptAll [str "data: true" ++ [10%N]; [10%N]] [] = ([], None)
  /\ readLoop literalParse acceptAll [str "data: true" ++ [10%N; 10%N]] []
     = ([JBool true], None).
Proof.
  destruct (@event_lost_between_reads literalParse acceptAll (str " true") [] []
              eq_refl) as (H1 & H2 & _).
  split; [exact H1 | exact H2].
Defined.

Lemma no_blank_line_no_event_witness :
  readLoop literalParse acceptAll
    [str "data: true" ++ CRLF; CRLF ++ str "data: false" ++ CRLF ++ CRLF] []
  = ([], None).
Proof.
  apply (@no_blank_line_no_event literalParse acceptAll
           [str "data: true" ++ CRLF; CRLF ++ str "data: false" ++ CRLF ++ CRLF]).
  reflexivity.
Defined.

Lemma readStream_error_source_witness :
  (ReadRejected (Error "The operation was aborted") = ReadRejected (Error "handler failed")
   /\ readLoop literalParse rejectAll
        [str "data: true" ++ [10%N; 10%N]; str "data: false" ++ [10%N; 10%N]] []
      = ([JBool true; JStr (str "true")], None))
  \/ (exists pre d,
        [JBool true; JStr (str "true")] = pre ++ [JStr d]
        /\ rejectAll (JStr d) = Throw (Error "handler failed")).
Proof.
  apply (@readStream_error_source literalParse rejectAll
           [str "data: true" ++ [10%N; 10%N]; str "data: false" ++ [10%N; 10%N]]
           (ReadRejected (Error "The operation was aborted")) []).
  reflexivity.
Defined.
